(** * m4m: picture-in-picture transform ([app_transform.py])

    A shallow embedding of the geometry and decision logic of
    [app_transform.py]: [resize_type] (the fit planner), [add_pip_vars]
    (canvas and centring offsets) and the paste step of [process_image].

    Python floats are IEEE 754 binary64 numbers; they are modelled with the
    executable specification [SpecFloat] of the standard library
    (precision 53, maximal exponent 1024), so that [float(..)], [*], [/]
    and [int(..)] round exactly as the interpreter does.  The module-level
    dictionary [img_vars] is a finite map from keys to Python values that
    is threaded through every call. *)

From Stdlib Require Import ZArith Bool List String Lia Reals Lra Psatz.
From Stdlib Require Import SpecFloat DecimalString DecimalNat.
From stdpp Require Import base option gmap strings list.

Local Open Scope Z_scope.

(** ** Python exceptions and results *)

Inductive pyexc : Type :=
| ZeroDivisionError
| OverflowError
| ValueError
| AttributeError
| KeyError
| TypeError
| CvError.

Inductive pyres (A : Type) : Type :=
| Ok (a : A)
| Raise (e : pyexc).
Arguments Ok {A} a.
Arguments Raise {A} e.

Definition pyres_bind {A B : Type} (f : A -> pyres B) (m : pyres A) : pyres B :=
  match m with
  | Ok a => f a
  | Raise e => Raise e
  end.

#[global] Instance pyres_ret : MRet pyres := fun A a => Ok a.
#[global] Instance pyres_mbind : MBind pyres := fun A B f m => pyres_bind f m.

(** ** Binary64 floats *)

Module Py.

Definition prec : Z := 53.
Definition emax : Z := 1024.

Definition float : Type := spec_float.

Definition fmul (x y : float) : float := SFmul prec emax x y.
Definition fdiv (x y : float) : float := SFdiv prec emax x y.

Definition is_zero (x : float) : bool :=
  match x with
  | S754_zero _ => true
  | _ => false
  end.

(** [float(z)] for a Python [int]: correctly rounded, [OverflowError] when
    the integer is too large. *)
Definition float_of_int (z : Z) : pyres float :=
  match binary_normalize prec emax z 0 false with
  | S754_infinity _ => Raise OverflowError
  | f => Ok f
  end.

(** C conversion of an [int64] to a double (never overflows). *)
Definition float_of_int64 (z : Z) : float := binary_normalize prec emax z 0 false.

(** [x * y] on floats. *)
Definition mul (x y : float) : pyres float := Ok (fmul x y).

(** [x / y] on floats: the divisor is tested against zero first. *)
Definition truediv (x y : float) : pyres float :=
  if is_zero y then Raise ZeroDivisionError else Ok (fdiv x y).

(** [int(x)]: truncation toward zero. *)
Definition int_of_float (x : float) : pyres Z :=
  match x with
  | S754_zero _ => Ok 0
  | S754_infinity _ => Raise OverflowError
  | S754_nan => Raise ValueError
  | S754_finite s m e => Ok (cond_Zopp s (Z.shiftl (Zpos m) e))
  end.

(** [math.floor(x)]: the largest integer not above [x]. *)
Definition floor (x : float) : pyres Z :=
  match x with
  | S754_zero _ => Ok 0
  | S754_infinity _ => Raise OverflowError
  | S754_nan => Raise ValueError
  | S754_finite false m e => Ok (Z.shiftl (Zpos m) e)
  | S754_finite true m e => Ok (Z.shiftl (Zneg m) e)
  end.

(** The literal [.75] and friends: a dyadic literal [m * 2^e]. *)
Definition lit (m e : Z) : float := binary_normalize prec emax m e false.

End Py.

(** ** Python values held by [img_vars] *)

(** A decoded image or a canvas: rows of pixels, a pixel being its list of
    channel values (a numpy array of shape [(height, width, channels)]).
    OpenCV never hands out an array with an empty axis, and the nested
    lists do not tell such arrays apart. *)
Abbreviation ndarray := (list (list (list Z))).

Record pip_coords : Type := { x1 : Z; x2 : Z; y1 : Z; y2 : Z }.

Inductive pyval : Type :=
| VNone
| VBool (b : bool)
| VInt (z : Z)
| VFloat (f : Py.float)
| VStr (s : string)
| VPair (a b : Z)
| VArr (a : ndarray)
| VPip (c : pip_coords).

#[global] Instance spec_float_eq_dec : EqDecision spec_float.
Proof. solve_decision. Defined.
#[global] Instance pip_coords_eq_dec : EqDecision pip_coords.
Proof. solve_decision. Defined.
#[global] Instance pyval_eq_dec : EqDecision pyval.
Proof. solve_decision. Defined.

(** The numeric reading of a value ([bool] is a subclass of [int]). *)
Inductive pynum : Type :=
| NInt (z : Z)
| NFloat (f : Py.float).

Definition num_of (v : pyval) : pyres pynum :=
  match v with
  | VInt z => Ok (NInt z)
  | VBool b => Ok (NInt (if b then 1 else 0))
  | VFloat f => Ok (NFloat f)
  | _ => Raise TypeError
  end.

Definition val_of_num (n : pynum) : pyval :=
  match n with
  | NInt z => VInt z
  | NFloat f => VFloat f
  end.

(** Exact comparison [z <= f] of an integer with a float. *)
Definition int_le_float (z : Z) (f : Py.float) : bool :=
  match f with
  | S754_nan => false
  | S754_infinity s => negb s
  | S754_zero _ => z <=? 0
  | S754_finite s m e =>
      if 0 <=? e then z <=? cond_Zopp s (Zpos m * 2 ^ e)
      else z * 2 ^ (- e) <=? cond_Zopp s (Zpos m)
  end.

(** Exact comparison [f <= z] of a float with an integer. *)
Definition float_le_int (f : Py.float) (z : Z) : bool :=
  match f with
  | S754_nan => false
  | S754_infinity s => s
  | S754_zero _ => 0 <=? z
  | S754_finite s m e =>
      if 0 <=? e then cond_Zopp s (Zpos m * 2 ^ e) <=? z
      else cond_Zopp s (Zpos m) <=? z * 2 ^ (- e)
  end.

(** [a <= b] on numbers. *)
Definition num_le (a b : pynum) : bool :=
  match a, b with
  | NInt x, NInt y => x <=? y
  | NInt x, NFloat g => int_le_float x g
  | NFloat f, NInt y => float_le_int f y
  | NFloat f, NFloat g => SFleb f g
  end.

Definition py_le (a b : pyval) : pyres bool :=
  x ← num_of a; y ← num_of b; Ok (num_le x y).

Definition as_pair (v : pyval) : pyres (Z * Z) :=
  match v with
  | VPair a b => Ok (a, b)
  | _ => Raise TypeError
  end.

Definition as_float (v : pyval) : pyres Py.float :=
  match v with
  | VFloat f => Ok f
  | _ => Raise TypeError
  end.

Definition as_arr (v : pyval) : pyres ndarray :=
  match v with
  | VArr a => Ok a
  | _ => Raise TypeError
  end.

(** The source argument of an OpenCV call: anything but an array is
    rejected by OpenCV. *)
Definition as_mat (v : pyval) : pyres ndarray :=
  match v with
  | VArr a => Ok a
  | _ => Raise CvError
  end.

Definition as_pip (v : pyval) : pyres pip_coords :=
  match v with
  | VPip c => Ok c
  | _ => Raise TypeError
  end.

(** [float(v)] of a stored value. *)
Definition py_float (v : pyval) : pyres Py.float :=
  match v with
  | VInt z => Py.float_of_int z
  | VBool b => Py.float_of_int (if b then 1 else 0)
  | VFloat f => Ok f
  | _ => Raise TypeError
  end.

(** ** numpy arrays *)

(** [a.shape] of a three-dimensional array. *)
Definition shape (a : ndarray) : Z * Z * Z :=
  (Z.of_nat (length a),
   Z.of_nat (length (hd [] a)),
   Z.of_nat (length (hd [] (hd [] a)))).

(** [img.shape[:2]]; [None] has no attribute [shape]. *)
Definition shape2 (v : pyval) : pyres (Z * Z) :=
  match v with
  | VArr a => let '(h, w, _) := shape a in Ok (h, w)
  | _ => Raise AttributeError
  end.

(** numpy refuses to allocate an array with a negative side. *)
Definition np_check_shape (h w : Z) : pyres unit :=
  if (h <? 0) || (w <? 0) then Raise ValueError else Ok tt.

(** [np.full(shape=(h, w, c), fill_value=v, dtype=np.uint8)], for sides
    that passed [np_check_shape]. *)
Definition np_full (h w c : Z) (v : Z) : ndarray :=
  replicate (Z.to_nat h) (replicate (Z.to_nat w) (replicate (Z.to_nat c) (v mod 256))).

Definition int64_ok (z : Z) : bool := (- 2 ^ 63 <=? z) && (z <? 2 ^ 63).

(** Two's complement wrap-around of [int64] arithmetic. *)
Definition wrap64 (z : Z) : Z := (z + 2 ^ 63) mod 2 ^ 64 - 2 ^ 63.

(** [np.asarray(t)] of a pair of Python ints: an [int64] array.  Pairs with
    a component outside [int64] take numpy's object or unsigned paths,
    which are left out: they raise here. *)
Definition np_asarray (t : Z * Z) : pyres (Z * Z) :=
  if int64_ok t.1 && int64_ok t.2 then Ok t else Raise OverflowError.

(** [a - b] on [int64] arrays of two elements. *)
Definition np_sub (a b : Z * Z) : Z * Z := (wrap64 (a.1 - b.1), wrap64 (a.2 - b.2)).

(** [a / 2] on an [int64] array: true division in binary64. *)
Definition np_half (a : Z * Z) : Py.float * Py.float :=
  (Py.fdiv (Py.float_of_int64 a.1) (Py.float_of_int64 2),
   Py.fdiv (Py.float_of_int64 a.2) (Py.float_of_int64 2)).

(** Start or stop of a slice [i:j] on an axis of length [len]. *)
Definition slice_bound (len i : Z) : Z :=
  if i <? 0 then Z.max 0 (i + len) else Z.min i len.

(** A value axis of length [n] broadcasts to a target axis of length [m]. *)
Definition broadcasts (n m : Z) : bool := (n =? m) || (n =? 1).

Definition bcast_index (n : Z) (i : nat) : nat := if n =? 1 then 0%nat else i.

Definition bcast_pixel (c : Z) (p : list Z) : list Z :=
  if Z.of_nat (length p) =? 1 then replicate (Z.to_nat c) (hd 0 p) else p.

(** [canvas[ya:yb, xa:xb] = src], in place. *)
Definition np_setslice (canvas : ndarray) (ya yb xa xb : Z) (src : ndarray) : pyres ndarray :=
  let '(H, W, C) := shape canvas in
  let '(sh, sw, sc) := shape src in
  let ys := slice_bound H ya in
  let ye := slice_bound H yb in
  let xs := slice_bound W xa in
  let xe := slice_bound W xb in
  if broadcasts sh (Z.max 0 (ye - ys)) && broadcasts sw (Z.max 0 (xe - xs)) && broadcasts sc C
  then Ok (imap (λ y row,
             imap (λ x px,
               if (ys <=? Z.of_nat y) && (Z.of_nat y <? ye) && (xs <=? Z.of_nat x) && (Z.of_nat x <? xe)
               then bcast_pixel C
                      (nth (bcast_index sw (Z.to_nat (Z.of_nat x - xs)))
                         (nth (bcast_index sh (Z.to_nat (Z.of_nat y - ys))) src []) [])
               else px) row) canvas)
  else Raise ValueError.

(** ** The interpreter state *)

(** [img_vars] is the module-level dictionary shared by all calls;
    [written] records the files handed to [cv2.imwrite]. *)
Record world : Type := { img_vars : gmap string pyval; written : list (string * ndarray) }.

Definition Run (A : Type) : Type := world -> pyres A * world.

#[global] Instance run_ret : MRet Run := fun A a w => (Ok a, w).
#[global] Instance run_bind : MBind Run := fun A B f m w =>
  match m w with
  | (Ok a, w') => f a w'
  | (Raise e, w') => (Raise e, w')
  end.

Definition lift {A : Type} (r : pyres A) : Run A := fun w => (r, w).

(** [img_vars[k] = v] *)
Definition setitem (k : string) (v : pyval) : Run unit :=
  fun w => (Ok tt, {| img_vars := <[k:=v]> (img_vars w); written := written w |}).

(** [img_vars[k]] *)
Definition getitem (k : string) : Run pyval :=
  fun w => match img_vars w !! k with
           | Some v => (Ok v, w)
           | None => (Raise KeyError, w)
           end.

Definition imwrite (path : string) (a : ndarray) : Run unit :=
  fun w => (Ok tt, {| img_vars := img_vars w; written := written w ++ [(path, a)] |}).

(** The external collaborators: image decoding and resampling (OpenCV). *)
Record opencv : Type := {
  cv2_imread : string -> option ndarray;
  cv2_resize : ndarray -> Z * Z -> pyres ndarray
}.

Definition val_of_imread (o : option ndarray) : pyval :=
  match o with
  | Some a => VArr a
  | None => VNone
  end.

(** ** Module-level constants *)

Definition ig_defined_res : Z * Z := (1920, 1080).
Definition screen_factor : Py.float := Py.lit 3 (-2).
Definition scale_tolerance : pynum := NInt 2.

(** ** Application functions *)

Section App.

Variable cv : opencv.

(** [resize_type(file_path, defined_res, screen_factor, scale_tolerance)]:
    fills [img_vars] and returns it (the same dictionary object). *)
Definition resize_type (file_path : string) (defined_res : Z * Z)
    (screen_factor : Py.float) (scale_tolerance : pynum) : Run unit :=
  setitem "img_obj" (val_of_imread (cv2_imread cv file_path));;
  obj ← getitem "img_obj";
  res ← lift (shape2 obj);
  setitem "img_res" (VPair res.1 res.2);;
  r1 ← getitem "img_res"; p1 ← lift (as_pair r1);
  fw ← lift (Py.float_of_int p1.2);
  r0 ← getitem "img_res"; p0 ← lift (as_pair r0);
  fh ← lift (Py.float_of_int p0.1);
  ar ← lift (Py.truediv fw fh);
  setitem "img_aspect_ratio" (VFloat ar);;
  setitem "defined_res" (VPair defined_res.1 defined_res.2);;
  setitem "screen_factor" (VFloat screen_factor);;
  d1 ← getitem "defined_res"; q1 ← lift (as_pair d1);
  fdw ← lift (Py.float_of_int q1.2);
  sw ← lift (Py.mul screen_factor fdw);
  proposed_width ← lift (Py.int_of_float sw);
  fpw ← lift (Py.float_of_int proposed_width);
  a1 ← getitem "img_aspect_ratio"; ar1 ← lift (as_float a1);
  qh ← lift (Py.truediv fpw ar1);
  proposed_height ← lift (Py.int_of_float qh);
  '(proposed_height, proposed_width) ←
    (if proposed_height <=? defined_res.1 then mret (proposed_height, proposed_width)
     else
       d0 ← getitem "defined_res"; q0 ← lift (as_pair d0);
       fdh ← lift (Py.float_of_int q0.1);
       sh ← lift (Py.mul screen_factor fdh);
       proposed_height ← lift (Py.int_of_float sh);
       fph ← lift (Py.float_of_int proposed_height);
       a2 ← getitem "img_aspect_ratio"; ar2 ← lift (as_float a2);
       pw ← lift (Py.mul fph ar2);
       proposed_width ← lift (Py.int_of_float pw);
       mret (proposed_height, proposed_width));
  setitem "proposed_res" (VPair proposed_height proposed_width);;
  pr ← getitem "proposed_res"; prp ← lift (as_pair pr);
  ir ← getitem "img_res"; irp ← lift (as_pair ir);
  (if prp.2 <=? irp.2 then setitem "proposed_resize_dir" (VStr "shrink")
   else setitem "proposed_resize_dir" (VStr "scale"));;
  setitem "scale_tolerance" (val_of_num scale_tolerance);;
  pr' ← getitem "proposed_res"; prp' ← lift (as_pair pr');
  fa ← lift (Py.float_of_int prp'.2);
  ir' ← getitem "img_res"; irp' ← lift (as_pair ir');
  fb ← lift (Py.float_of_int irp'.2);
  fq ← lift (Py.truediv fa fb);
  factor ← lift (Py.int_of_float fq);
  setitem "proposed_resize_factor" (VInt factor);;
  dir ← getitem "proposed_resize_dir";
  (if decide (dir = VStr "scale") then
     f ← getitem "proposed_resize_factor";
     t ← getitem "scale_tolerance";
     b ← lift (py_le f t);
     (if (b : bool) then setitem "resize_validity" (VBool true)
      else setitem "resize_validity" (VBool false))
   else
     dir' ← getitem "proposed_resize_dir";
     if decide (dir' = VStr "shrink") then setitem "resize_validity" VNone
     else mret tt).

(** [add_pip_vars(img_vars)]: the argument is the shared dictionary. *)
Definition add_pip_vars : Run unit :=
  dr ← getitem "defined_res"; hw ← lift (as_pair dr);
  lift (np_check_shape hw.1 hw.2);;
  setitem "canvas" (VArr (np_full hw.1 hw.2 3 128));;
  dr' ← getitem "defined_res"; drp ← lift (as_pair dr');
  a ← lift (np_asarray drp);
  pr ← getitem "proposed_res"; prp ← lift (as_pair pr);
  b ← lift (np_asarray prp);
  let half := np_half (np_sub a b) in
  y1 ← lift (Py.int_of_float half.1);
  x1 ← lift (Py.int_of_float half.2);
  pr1 ← getitem "proposed_res"; prp1 ← lift (as_pair pr1);
  let x2 := x1 + prp1.2 in
  pr0 ← getitem "proposed_res"; prp0 ← lift (as_pair pr0);
  let y2 := y1 + prp0.1 in
  setitem "pip_coords" (VPip {| x1 := x1; x2 := x2; y1 := y1; y2 := y2 |}).

(** [process_image(img_vars, output_dir, execution_datetime, iter)]; the
    formatted destination path is passed as [file_dest], the two progress
    lines printed on the way are not modelled. *)
Definition process_image (file_dest : string) : Run unit :=
  io ← getitem "img_obj"; img ← lift (as_mat io);
  pr1 ← getitem "proposed_res"; prp1 ← lift (as_pair pr1);
  pr0 ← getitem "proposed_res"; prp0 ← lift (as_pair pr0);
  resized_img ← lift (cv2_resize cv img (prp1.2, prp0.1));
  cv' ← getitem "canvas"; processed_img ← lift (as_arr cv');
  c1 ← getitem "pip_coords"; k1 ← lift (as_pip c1);
  c2 ← getitem "pip_coords"; k2 ← lift (as_pip c2);
  c3 ← getitem "pip_coords"; k3 ← lift (as_pip c3);
  c4 ← getitem "pip_coords"; k4 ← lift (as_pip c4);
  pasted ← lift (np_setslice processed_img (y1 k1) (y2 k2) (x1 k3) (x2 k4) resized_img);
  setitem "canvas" (VArr pasted);;
  imwrite file_dest pasted.


End App.

(** ** The fit plan read off [img_vars] *)

Inductive Direction : Type := Shrink | Scale.

Record FitPlan : Type := {
  destinationDimensions : Z * Z;
  direction : Direction;
  resizeFactor : Z;
  isValid : option bool
}.

#[global] Instance Direction_eq_dec : EqDecision Direction.
Proof. solve_decision. Defined.

Definition direction_of (v : pyval) : option Direction :=
  if decide (v = VStr "shrink") then Some Shrink
  else if decide (v = VStr "scale") then Some Scale
  else None.

Definition validity_of (v : pyval) : option (option bool) :=
  match v with
  | VNone => Some None
  | VBool b => Some (Some b)
  | _ => None
  end.

Definition pair_of (v : pyval) : option (Z * Z) :=
  match v with
  | VPair a b => Some (a, b)
  | _ => None
  end.

Definition int_of (v : pyval) : option Z :=
  match v with
  | VInt z => Some z
  | _ => None
  end.

(** The four entries of the returned dictionary that make up the plan. *)
Definition plan_of_vars (d : gmap string pyval) : option FitPlan :=
  dest ← d !! "proposed_res" ≫= pair_of;
  dir ← d !! "proposed_resize_dir" ≫= direction_of;
  f ← d !! "proposed_resize_factor" ≫= int_of;
  val ← d !! "resize_validity" ≫= validity_of;
  Some {| destinationDimensions := dest; direction := dir;
          resizeFactor := f; isValid := val |}.

(** [planFit]: one call of [resize_type] in the world [w], and the plan
    found in the dictionary it returns. *)
Definition planFit (cv : opencv) (file_path : string) (defined_res : Z * Z)
    (screen_factor : Py.float) (scale_tolerance : pynum) (w : world) : pyres FitPlan :=
  match resize_type cv file_path defined_res screen_factor scale_tolerance w with
  | (Ok _, w') =>
      match plan_of_vars (img_vars w') with
      | Some p => Ok p
      | None => Raise KeyError
      end
  | (Raise e, _) => Raise e
  end.

(** The arithmetic of [resize_type] on the image resolution alone. *)
Definition fit_plan (img_res defined_res : Z * Z) (screen_factor : Py.float)
    (scale_tolerance : pynum) : pyres FitPlan :=
  fw ← Py.float_of_int img_res.2;
  fh ← Py.float_of_int img_res.1;
  ar ← Py.truediv fw fh;
  fdw ← Py.float_of_int defined_res.2;
  sw ← Py.mul screen_factor fdw;
  proposed_width ← Py.int_of_float sw;
  fpw ← Py.float_of_int proposed_width;
  qh ← Py.truediv fpw ar;
  proposed_height ← Py.int_of_float qh;
  dest ← (if proposed_height <=? defined_res.1 then Ok (proposed_height, proposed_width)
          else
            fdh ← Py.float_of_int defined_res.1;
            sh ← Py.mul screen_factor fdh;
            proposed_height ← Py.int_of_float sh;
            fph ← Py.float_of_int proposed_height;
            pw ← Py.mul fph ar;
            proposed_width ← Py.int_of_float pw;
            Ok (proposed_height, proposed_width));
  let dir := if dest.2 <=? img_res.2 then Shrink else Scale in
  fa ← Py.float_of_int dest.2;
  fb ← Py.float_of_int img_res.2;
  fq ← Py.truediv fa fb;
  factor ← Py.int_of_float fq;
  Ok {| destinationDimensions := dest;
        direction := dir;
        resizeFactor := factor;
        isValid := match dir with
                   | Scale => Some (num_le (NInt factor) scale_tolerance)
                   | Shrink => None
                   end |}.

(** What a successful call of [resize_type] leaves in the world. *)
Definition resize_post (img : pyval) (defined_res : Z * Z) (p : FitPlan) (w w' : world) : Prop :=
  written w' = written w /\
  img_vars w' !! "img_obj" = Some img /\
  img_vars w' !! "defined_res" = Some (VPair defined_res.1 defined_res.2) /\
  img_vars w' !! "proposed_res" =
    Some (VPair (destinationDimensions p).1 (destinationDimensions p).2) /\
  plan_of_vars (img_vars w') = Some p.

(** The arithmetic of [add_pip_vars] on the two resolutions alone. *)
Definition pip_of (defined_res proposed_res : Z * Z) : pyres pip_coords :=
  np_check_shape defined_res.1 defined_res.2;;
  a ← np_asarray defined_res;
  b ← np_asarray proposed_res;
  let half := np_half (np_sub a b) in
  y1 ← Py.int_of_float half.1;
  x1 ← Py.int_of_float half.2;
  Ok {| x1 := x1; x2 := x1 + proposed_res.2; y1 := y1; y2 := y1 + proposed_res.1 |}.

(** [composeOffsets]: one call of [add_pip_vars] on a dictionary holding
    the frame and the destination, and the rectangle it stores. *)
Definition composeOffsets (frame dest : Z * Z) (w : world) : pyres pip_coords :=
  let w0 := {| img_vars := <["proposed_res" := VPair dest.1 dest.2]>
                             (<["defined_res" := VPair frame.1 frame.2]> (img_vars w));
               written := written w |} in
  match add_pip_vars w0 with
  | (Ok _, w') =>
      match img_vars w' !! "pip_coords" with
      | Some (VPip c) => Ok c
      | _ => Raise KeyError
      end
  | (Raise e, _) => Raise e
  end.

(** [int(screen_factor * float(D))]: the frame side [D] scaled down. *)
Definition scaled_frame (screen_factor : Py.float) (D : Z) : pyres Z :=
  fd ← Py.float_of_int D;
  Py.int_of_float (Py.fmul screen_factor fd).

(** The plan whose destination is [(ph, pw)], for a source of width [w]. *)
Definition plan_for (w : Z) (scale_tolerance : pynum) (ph pw : Z) : FitPlan :=
  {| destinationDimensions := (ph, pw);
     direction := if pw <=? w then Shrink else Scale;
     resizeFactor := pw / w;
     isValid := if pw <=? w then None
                else Some (num_le (NInt (pw / w)) scale_tolerance) |}.

(** ** Well-formed inputs *)

(** A pixel count held by an OpenCV matrix: a positive C [int]. *)
Definition dim_ok (z : Z) : Prop := 0 < z < 2 ^ 31.

Definition dims_ok (d : Z * Z) : Prop := dim_ok d.1 /\ dim_ok d.2.

(** A pixel count or offset that fits a C [int]. *)
Definition px_ok (z : Z) : Prop := 0 <= z < 2 ^ 31.

(** A finite, canonical binary64 value in the interval (0, 1]. *)
Definition factor_ok (f : Py.float) : Prop :=
  match f with
  | S754_finite false m e =>
      bounded Py.prec Py.emax m e = true /\ (e <= 0 /\ Zpos m <= 2 ^ (- e))
  | _ => False
  end.

(** An image of [h] rows, [w] columns and [c] channels. *)
Definition is_image (a : ndarray) (h w c : Z) : Prop :=
  Z.of_nat (length a) = h /\
  Forall (λ row, Z.of_nat (length row) = w /\
                 Forall (λ px, Z.of_nat (length px) = c) row) a.

(** The pixel at row [y], column [x]. *)
Definition pixel (a : ndarray) (y x : Z) : option (list Z) :=
  if (0 <=? y) && (0 <=? x) then a !! Z.to_nat y ≫= (λ row, row !! Z.to_nat x) else None.

(** ** Sample inputs *)

(** A decoded image of one colour, and an OpenCV that decodes every path
    to it and resamples to a flat image of the requested size. *)
Definition solid_image (h w : nat) : ndarray := replicate h (replicate w [10; 20; 30]).

Definition solid_cv (h w : nat) : opencv :=
  {| cv2_imread := λ _, Some (solid_image h w);
     cv2_resize := λ _ dsize,
       if (0 <? dsize.1) && (0 <? dsize.2) then Ok (np_full dsize.2 dsize.1 3 200)
       else Raise CvError |}.

Definition empty_world : world := {| img_vars := ∅; written := [] |}.

(** ** The planner as the specification words it

    Steps 1 to 4 of the planner: the aspect ratio is a float, the
    candidates are floors. *)
Definition spec_destination (source frame : Z * Z) (screenFactor : Py.float) : pyres (Z * Z) :=
  sourceWidth ← Py.float_of_int source.2;
  sourceHeight ← Py.float_of_int source.1;
  aspectRatio ← Py.truediv sourceWidth sourceHeight;
  frameWidth ← Py.float_of_int frame.2;
  candidateWidth ← Py.floor (Py.fmul screenFactor frameWidth);
  cw ← Py.float_of_int candidateWidth;
  quotient ← Py.truediv cw aspectRatio;
  candidateHeight ← Py.floor quotient;
  if decide (candidateHeight ≤ frame.1) then Ok (candidateHeight, candidateWidth)
  else
    frameHeight ← Py.float_of_int frame.1;
    candidateHeight ← Py.floor (Py.fmul screenFactor frameHeight);
    ch ← Py.float_of_int candidateHeight;
    candidateWidth ← Py.floor (Py.fmul ch aspectRatio);
    Ok (candidateHeight, candidateWidth).

(** ** Real values of binary64 floats (used in proofs only) *)

Definition pow2 (e : Z) : R := powerRZ 2 e.
Arguments pow2 : simpl never.

(** The magnitude and the sign of a float. *)
Definition Fmag (x : spec_float) : R :=
  match x with
  | S754_finite _ m e => (IZR (Zpos m) * pow2 e)%R
  | _ => 0%R
  end.

Definition Fsign (x : spec_float) : bool :=
  match x with
  | S754_finite s _ _ | S754_zero s | S754_infinity s => s
  | S754_nan => false
  end.

Abbreviation fexp64 := (fexp Py.prec Py.emax).

(** [v] lies in the slice [m * 2^e, (m+1) * 2^e) at the place [l] says. *)
Definition located (m e : Z) (v : R) (l : location) : Prop :=
  match l with
  | loc_Exact => v = (IZR m * pow2 e)%R
  | loc_Inexact Lt => (IZR m * pow2 e < v < (IZR m + / 2) * pow2 e)%R
  | loc_Inexact Eq => v = ((IZR m + / 2) * pow2 e)%R
  | loc_Inexact Gt => ((IZR m + / 2) * pow2 e < v < (IZR m + 1) * pow2 e)%R
  end.

(** [r] is a nearest point to [v] on the grid of step [2^E], with sign [s];
    overflow only for huge [v]. *)
Definition rounds_to (s : bool) (E : Z) (v : R) (r : spec_float) : Prop :=
  match r with
  | S754_zero s' => s' = s /\ (v <= pow2 E / 2)%R
  | S754_finite s' m e =>
      s' = s /\ bounded Py.prec Py.emax m e = true /\
      exists k : Z, (IZR (Zpos m) * pow2 e = IZR k * pow2 E)%R /\
                    (Rabs (IZR k * pow2 E - v) <= pow2 E / 2)%R
  | S754_infinity s' => s' = s /\ (pow2 (Py.emax - 1) <= v)%R
  | S754_nan => False
  end.

(** [r] is [v] rounded to binary64. *)
Definition rounded (s : bool) (v : R) (r : spec_float) : Prop :=
  forall g : Z, (pow2 (g - 1) <= v < pow2 g)%R -> rounds_to s (fexp64 g) v r.

Definition fvalid (r : spec_float) : Prop := valid_binary Py.prec Py.emax r = true.

Definition is_fz (r : spec_float) : Prop :=
  match r with
  | S754_zero _ | S754_finite _ _ _ => True
  | _ => False
  end.

Definition fnonneg (r : spec_float) : Prop := is_fz r /\ Fsign r = false /\ fvalid r.

Definition frounds (v : R) (r : spec_float) : Prop :=
  (v = 0%R /\ r = S754_zero false) \/ ((0 < v)%R /\ rounded false v r).

(** ** The batch: input paths, output paths and the main loop *)

(** [str(n)] of a non-negative [int]: its decimal digits. *)
Definition py_str (n : nat) : string := NilEmpty.string_of_uint (Nat.to_uint n).

(** [s.startswith("/")] and [s.endswith("/")]. *)
Definition starts_with_slash (s : string) : bool :=
  match s with
  | EmptyString => false
  | String c _ => String.eqb (String c EmptyString) "/"
  end.

Fixpoint ends_with_slash (s : string) : bool :=
  match s with
  | EmptyString => false
  | String c EmptyString => String.eqb (String c EmptyString) "/"
  | String _ rest => ends_with_slash rest
  end.

(** [os.path.join(a, b)] (POSIX). *)
Definition path_join (a b : string) : string :=
  if starts_with_slash b then b
  else if String.eqb a "" || ends_with_slash a then a +:+ b
  else a +:+ "/" +:+ b.

(** The destination path of [process_image]:
    [os.path.join(output_dir, "{0}_{1}{2}".format(exec_date_time, str(iter), ".jpg"))],
    where [exec_date_time] is the formatted execution time. *)
Definition file_dest (output_dir exec_date_time : string) (iter : nat) : string :=
  path_join output_dir (exec_date_time +:+ "_" +:+ py_str iter +:+ ".jpg").

(** [list_of_memes(extract_dir)], for the names [os.listdir] returned. *)
Definition list_of_memes (listing : list string) (extract_dir : string) : list string :=
  path_join extract_dir <$> listing.

(** The keys [resize_type] assigns. *)
Definition resize_keys : list string :=
  ["img_obj"; "img_res"; "img_aspect_ratio"; "defined_res"; "screen_factor";
   "proposed_res"; "proposed_resize_dir"; "scale_tolerance";
   "proposed_resize_factor"; "resize_validity"].

Section Batch.

Variable cv : opencv.

(** One turn of the main loop. *)
Definition one_image (defined_res : Z * Z) (sf : Py.float) (tol : pynum)
    (path file_dest : string) : Run unit :=
  resize_type cv path defined_res sf tol;;
  add_pip_vars;;
  process_image cv file_dest.

(** The main loop for any configuration; [main_loop] is the one for the
    module's constants. *)
Fixpoint process_all (defined_res : Z * Z) (sf : Py.float) (tol : pynum)
    (dest : nat -> string) (i : nat) (meme_list : list string) : Run unit :=
  match meme_list with
  | [] => mret tt
  | path :: rest =>
      resize_type cv path defined_res sf tol;;
      add_pip_vars;;
      process_image cv (dest i);;
      process_all defined_res sf tol dest (S i) rest
  end.


End Batch.

(** An OpenCV that cannot decode the path [broken.jpg]. *)
Definition picky_cv (h w : nat) : opencv :=
  {| cv2_imread := λ p, if decide (p = "broken.jpg") then None else Some (solid_image h w);
     cv2_resize := cv2_resize (solid_cv h w) |}.

(** ** Footprints of a run *)

(** [m] reads the world and leaves it as it is, whether it returns or
    raises. *)
Definition readonly {A : Type} (m : Run A) : Prop := forall w, (m w).2 = w.

(** [m] hands nothing to [cv2.imwrite] and assigns no key outside [K],
    whether it returns or raises. *)
Definition footprint {A : Type} (K : list string) (m : Run A) : Prop :=
  forall w, written (m w).2 = written w /\
            forall k, k ∉ K -> img_vars (m w).2 !! k = img_vars w !! k.


(** ** Files the batch can process *)


(** ** Tactics for running the application functions *)

Ltac run_red :=
  cbv beta iota zeta delta
    [img_vars written as_pair as_float as_arr as_mat as_pip pair_of int_of validity_of num_of
     val_of_num mbind mret pyres_mbind pyres_bind pyres_ret option_bind];
  cbn [fst snd].

Ltac run_red_in H :=
  cbv beta iota zeta delta
    [img_vars written as_pair as_float as_arr as_mat as_pip pair_of int_of validity_of num_of
     val_of_num mbind mret pyres_mbind pyres_bind pyres_ret option_bind] in H;
  cbn [fst snd] in H.

(** One step of a run kept in the hypothesis [HR], side by side with its
    pure reading in the goal. *)
Ltac run_step HR :=
  first
    [ progress run_red_in HR
    | progress run_red
    | rewrite lookup_insert_eq in HR
    | rewrite lookup_insert_ne in HR by discriminate
    | rewrite decide_True in HR by reflexivity
    | rewrite decide_False in HR by discriminate
    | match goal with
      | H : ?t = Ok _ |- context [match ?t with _ => _ end] => rewrite H
      | H : ?t = Raise _ |- context [match ?t with _ => _ end] => rewrite H
      | H : ?t = true |- context [if ?t then _ else _] => rewrite H
      | H : ?t = false |- context [if ?t then _ else _] => rewrite H
      end
    | match type of HR with
      | context [match ?t with _ => _ end] =>
          match goal with
          | H : t = Ok _ |- _ => rewrite H in HR
          | H : t = Raise _ |- _ => rewrite H in HR
          | H : t = Some _ |- _ => rewrite H in HR
          end
      | context [if ?t then _ else _] =>
          match goal with
          | H : t = true |- _ => rewrite H in HR
          | H : t = false |- _ => rewrite H in HR
          end
      end
    | match type of HR with
      | context [match Py.float_of_int ?z with _ => _ end] =>
          destruct (Py.float_of_int z) eqn:?
      | context [match Py.truediv ?a ?b with _ => _ end] =>
          destruct (Py.truediv a b) eqn:?
      | context [match Py.int_of_float ?a with _ => _ end] =>
          destruct (Py.int_of_float a) eqn:?
      | context [match np_asarray ?a with _ => _ end] =>
          destruct (np_asarray a) eqn:?
      | context [match np_check_shape ?a ?b with _ => _ end] =>
          destruct (np_check_shape a b) eqn:?
      | context [if ?a <=? ?b then _ else _] =>
          destruct (a <=? b) eqn:?
      | context [if num_le ?a ?b then _ else _] =>
          destruct (num_le a b) eqn:?
      | context [match ?t with NInt _ => _ | NFloat _ => _ end] =>
          destruct t
      end ].

Ltac lookup_step :=
  first
    [ progress run_red
    | rewrite lookup_insert_eq
    | rewrite lookup_insert_ne by discriminate
    | rewrite decide_True by reflexivity
    | rewrite decide_False by discriminate ].

Ltac run_unfold_in HR :=
  unfold mbind, run_bind, setitem, getitem, lift, imwrite, mret, run_ret, Py.mul, py_le in HR.

(** Use an equation [E : op = Ok x] and go on with the next bind. *)
Ltac ok_step E := rewrite E; cbn [mbind pyres_mbind pyres_bind].

(** * Binary64 rounding

    What [SpecFloat]'s operations compute, in terms of real numbers. *)

(** ** Powers of two *)

Lemma pow2_pos e : (0 < pow2 e)%R.
Proof. apply powerRZ_lt. lra. Qed.

Lemma pow2_add a b : pow2 (a + b) = (pow2 a * pow2 b)%R.
Proof. apply powerRZ_add. lra. Qed.

Lemma pow2_0 : pow2 0 = 1%R.
Proof. reflexivity. Qed.

Lemma pow2_1 : pow2 1 = 2%R.
Proof. unfold pow2. simpl. lra. Qed.

Lemma pow2_succ e : pow2 (e + 1) = (2 * pow2 e)%R.
Proof. rewrite pow2_add, pow2_1. lra. Qed.

Lemma pow2_pred e : pow2 (e - 1) = (pow2 e / 2)%R.
Proof.
  replace e with ((e - 1) + 1) at 2 by lia. rewrite pow2_succ. lra.
Qed.

Lemma pow2_IZR n : 0 <= n -> pow2 n = IZR (2 ^ n).
Proof.
  intros Hn. unfold pow2. destruct n as [|p|p]; [reflexivity| |lia].
  symmetry. apply (Zpower_pos_powerRZ 2 p).
Qed.

Lemma pow2_le a b : a <= b -> (pow2 a <= pow2 b)%R.
Proof.
  intros H. replace b with (a + (b - a)) by lia. rewrite pow2_add.
  rewrite (pow2_IZR (b - a)) by lia.
  assert (1 <= 2 ^ (b - a)) by (apply (Z.pow_le_mono_r 2 0); lia).
  apply IZR_le in H0. pose proof (pow2_pos a). nra.
Qed.

Lemma pow2_lt a b : a < b -> (pow2 a < pow2 b)%R.
Proof.
  intros H. apply Rlt_le_trans with (pow2 (a + 1)).
  - rewrite pow2_succ. pose proof (pow2_pos a). lra.
  - apply pow2_le. lia.
Qed.

Lemma pow2_lt_inv a b : (pow2 a < pow2 b)%R -> a < b.
Proof.
  intros H. destruct (Z_lt_le_dec a b) as [|Hle]; [assumption|].
  apply pow2_le in Hle. lra.
Qed.

(** ** The number of binary digits *)

Lemma digits2_pos_size p : digits2_pos p = Pos.size p.
Proof. induction p; simpl; congruence. Qed.

Lemma Zdigits2_bounds m : 0 < m -> 2 ^ (Zdigits2 m - 1) <= m < 2 ^ Zdigits2 m.
Proof.
  intros Hm. destruct m as [|p|p]; try lia. simpl. rewrite digits2_pos_size.
  pose proof (Pos.size_gt p) as Hgt. pose proof (Pos.size_le p) as Hle.
  assert (E : Z.pos (2 ^ Pos.size p) = 2 ^ Z.pos (Pos.size p)) by (rewrite Pos2Z.inj_pow; reflexivity).
  split.
  - assert (2 * 2 ^ (Z.pos (Pos.size p) - 1) = 2 ^ Z.pos (Pos.size p)).
    { rewrite <- Z.pow_succ_r by lia. f_equal. lia. }
    assert (Z.pos (2 ^ Pos.size p) <= Z.pos p~0) by (apply Pos2Z.pos_le_pos; exact Hle).
    lia.
  - rewrite <- E. apply Pos2Z.pos_lt_pos. exact Hgt.
Qed.

Lemma Zdigits2_nonneg m : 0 <= Zdigits2 m.
Proof. destruct m; simpl; lia. Qed.

Lemma Zdigits2_unique m d : 0 < m -> 2 ^ (d - 1) <= m < 2 ^ d -> Zdigits2 m = d.
Proof.
  intros Hm [H1 H2]. pose proof (Zdigits2_bounds m Hm) as [H3 H4].
  pose proof (Zdigits2_nonneg m).
  assert (0 <= d). { destruct (Z_lt_le_dec d 0); [|lia]. rewrite Z.pow_neg_r in H2; lia. }
  destruct (Z.lt_trichotomy (Zdigits2 m) d) as [Hlt|[Heq|Hgt]]; [|assumption|].
  - assert (2 ^ Zdigits2 m <= 2 ^ (d - 1)) by (apply Z.pow_le_mono_r; lia). lia.
  - assert (2 ^ d <= 2 ^ (Zdigits2 m - 1)) by (apply Z.pow_le_mono_r; lia). lia.
Qed.

(** ** Shifting a mantissa right keeps track of where the value lies *)

Lemma located_bounds m e v l :
  located m e v l -> (IZR m * pow2 e <= v < (IZR m + 1) * pow2 e)%R.
Proof.
  pose proof (pow2_pos e). destruct l as [|[| |]]; simpl; intros; nra.
Qed.

Lemma loc_shr_record m l : loc_of_shr_record (shr_record_of_loc m l) = l.
Proof. destruct l as [|[| |]]; reflexivity. Qed.

Lemma shr_m_record m l : shr_m (shr_record_of_loc m l) = m.
Proof. destruct l as [|[| |]]; reflexivity. Qed.

Lemma shr_1_located mrs e v :
  0 <= shr_m mrs ->
  located (shr_m mrs) e v (loc_of_shr_record mrs) ->
  0 <= shr_m (shr_1 mrs) /\
  located (shr_m (shr_1 mrs)) (e + 1) v (loc_of_shr_record (shr_1 mrs)).
Proof.
  destruct mrs as [m r s]. simpl shr_m at 1 2. intros Hm.
  pose proof (pow2_pos e) as HP. 
  destruct m as [|[p|p|]|]; try lia;
    destruct r, s; simpl; rewrite pow2_succ;
    try rewrite (Pos2Z.inj_xI p); try rewrite (Pos2Z.inj_xO p);
    try rewrite plus_IZR; try rewrite mult_IZR;
    intros Hl; (split; [lia|]); nra.
Qed.

Lemma iter_shr_1_located (n : positive) : forall mrs e v,
  0 <= shr_m mrs ->
  located (shr_m mrs) e v (loc_of_shr_record mrs) ->
  0 <= shr_m (SpecFloat.iter_pos shr_1 n mrs) /\
  located (shr_m (SpecFloat.iter_pos shr_1 n mrs)) (e + Zpos n) v
    (loc_of_shr_record (SpecFloat.iter_pos shr_1 n mrs)).
Proof.
  induction n as [n IH|n IH|]; intros mrs e v Hm Hl; simpl SpecFloat.iter_pos.
  - destruct (shr_1_located mrs e v Hm Hl) as [H1 H2].
    destruct (IH _ _ _ H1 H2) as [H3 H4].
    destruct (IH _ _ _ H3 H4) as [H5 H6].
    split; [assumption|].
    replace (e + Z.pos n~1) with (e + 1 + Z.pos n + Z.pos n) by lia. assumption.
  - destruct (IH _ _ _ Hm Hl) as [H3 H4].
    destruct (IH _ _ _ H3 H4) as [H5 H6].
    split; [assumption|].
    replace (e + Z.pos n~0) with (e + Z.pos n + Z.pos n) by lia. assumption.
  - apply shr_1_located; assumption.
Qed.

Lemma shr_located mrs e n v :
  0 <= shr_m mrs ->
  located (shr_m mrs) e v (loc_of_shr_record mrs) ->
  0 <= shr_m (fst (shr mrs e n)) /\
  snd (shr mrs e n) = Z.max e (e + n) /\
  located (shr_m (fst (shr mrs e n))) (snd (shr mrs e n)) v
    (loc_of_shr_record (fst (shr mrs e n))).
Proof.
  intros Hm Hl. destruct n as [|p|p]; simpl.
  - repeat split; try assumption; lia.
  - destruct (iter_shr_1_located p mrs e v Hm Hl) as [H1 H2].
    repeat split; try assumption; lia.
  - repeat split; try assumption; lia.
Qed.

Lemma fexp64_eq e : fexp64 e = Z.max (e - 53) (-1074).
Proof. reflexivity. Qed.

(** ** One rounding *)

Lemma shr_fexp_located m e l v :
  0 <= m -> located m e v l ->
  let r := shr_fexp Py.prec Py.emax m e l in
  0 <= shr_m (fst r) /\
  snd r = Z.max e (fexp64 (Zdigits2 m + e)) /\
  located (shr_m (fst r)) (snd r) v (loc_of_shr_record (fst r)).
Proof.
  intros Hm Hl. unfold shr_fexp.
  destruct (shr_located (shr_record_of_loc m l) e (fexp64 (Zdigits2 m + e) - e) v) as (H1 & H2 & H3).
  - rewrite shr_m_record. assumption.
  - rewrite shr_m_record, loc_shr_record. assumption.
  - cbv zeta. repeat split; try assumption. rewrite H2. lia.
Qed.

Lemma round_nearest_even_located m e v l :
  located m e v l ->
  let k := round_nearest_even m l in
  m <= k <= m + 1 /\ (Rabs (IZR k * pow2 e - v) <= pow2 e / 2)%R.
Proof.
  intros Hl. pose proof (pow2_pos e) as HP.
  destruct l as [|[| |]]; simpl in *.
  - split; [lia|]. subst v. replace (IZR m * pow2 e - IZR m * pow2 e)%R with 0%R by ring.
    rewrite Rabs_R0. lra.
  - destruct (Z.even m); (split; [lia|]); try rewrite plus_IZR; subst v;
      apply Rabs_le; lra.
  - split; [lia|]. apply Rabs_le. lra.
  - split; [lia|]. rewrite plus_IZR. apply Rabs_le. lra.
Qed.

Lemma IZR_pow2_lt m d e : m < 2 ^ d -> 0 <= d -> (IZR m * pow2 e < pow2 (d + e))%R.
Proof.
  intros H Hd. rewrite pow2_add, (pow2_IZR d) by assumption.
  apply IZR_lt in H. pose proof (pow2_pos e). nra.
Qed.

Lemma IZR_pow2_le m d e : 2 ^ d <= m -> 0 <= d -> (pow2 (d + e) <= IZR m * pow2 e)%R.
Proof.
  intros H Hd. rewrite pow2_add, (pow2_IZR d) by assumption.
  apply IZR_le in H. pose proof (pow2_pos e). nra.
Qed.

(** The exponent of the grid depends on the magnitude of the value only. *)
Lemma located_mag m e v l g :
  0 <= m -> located m e v l -> e <= fexp64 (Zdigits2 m + e) ->
  (pow2 (g - 1) <= v < pow2 g)%R ->
  fexp64 (Zdigits2 m + e) = fexp64 g.
Proof.
  intros Hm Hl He [Hg1 Hg2]. apply located_bounds in Hl. destruct Hl as [Hl1 Hl2].
  pose proof (pow2_pos e) as HP.
  destruct (Z.eq_dec m 0) as [->|Hne].
  - change (Zdigits2 0) with 0 in *. rewrite !fexp64_eq in *.
    assert (g - 1 < e). { apply pow2_lt_inv. simpl in Hl2. lra. }
    lia.
  - assert (Hpos : 0 < m) by lia.
    pose proof (Zdigits2_bounds m Hpos) as [Hd1 Hd2].
    pose proof (Zdigits2_nonneg m) as Hd0.
    assert (Zdigits2 m <> 0). { intros E0. rewrite E0 in Hd2. simpl in Hd2. lia. }
    assert (Hv1 : (pow2 (Zdigits2 m - 1 + e) <= v)%R).
    { eapply Rle_trans; [apply IZR_pow2_le; [exact Hd1|lia]|]. lra. }
    assert (Hv2 : (v < pow2 (Zdigits2 m + e))%R).
    { assert (m + 1 <= 2 ^ Zdigits2 m) by lia.
      apply IZR_le in H0. rewrite plus_IZR in H0.
      rewrite pow2_add, (pow2_IZR (Zdigits2 m)) by lia. nra. }
    assert (g - 1 < Zdigits2 m + e) by (apply pow2_lt_inv; lra).
    assert (Zdigits2 m - 1 + e < g) by (apply pow2_lt_inv; lra).
    f_equal. lia.
Qed.

Lemma shr_fexp_small k E :
  0 <= k < 2 ^ 53 -> -1074 <= E ->
  shr_fexp Py.prec Py.emax k E loc_Exact = (Build_shr_record k false false, E).
Proof.
  intros Hk HE. unfold shr_fexp.
  assert (Hn : fexp64 (Zdigits2 k + E) - E <= 0).
  { rewrite fexp64_eq. destruct (Z.eq_dec k 0) as [->|Hne].
    - simpl. lia.
    - pose proof (Zdigits2_bounds k ltac:(lia)) as [Hd1 Hd2].
      pose proof (Zdigits2_nonneg k).
      assert (Zdigits2 k - 1 < 53).
      { apply (Z.pow_lt_mono_r_iff 2); lia. }
      lia. }
  destruct (fexp64 (Zdigits2 k + E) - E) as [|p|p]; try reflexivity. lia.
Qed.

Lemma shr_fexp_carry E :
  -1074 <= E ->
  shr_fexp Py.prec Py.emax (2 ^ 53) E loc_Exact = (Build_shr_record (2 ^ 52) false false, E + 1).
Proof.
  intros HE. unfold shr_fexp.
  change (Zdigits2 (2 ^ 53)) with 54.
  replace (fexp64 (54 + E) - E) with 1 by (rewrite fexp64_eq; lia).
  reflexivity.
Qed.

Lemma canonical_full k E :
  2 ^ 52 <= k < 2 ^ 53 -> -1074 <= E -> fexp64 (Zdigits2 k + E) = E.
Proof.
  intros Hk HE. rewrite (Zdigits2_unique k 53) by (simpl; lia).
  rewrite fexp64_eq. lia.
Qed.

Lemma canonical_subnormal k :
  0 < k < 2 ^ 53 -> fexp64 (Zdigits2 k + -1074) = -1074.
Proof.
  intros Hk. pose proof (Zdigits2_bounds k ltac:(lia)) as [Hd1 Hd2].
  pose proof (Zdigits2_nonneg k).
  assert (Zdigits2 k - 1 < 53) by (apply (Z.pow_lt_mono_r_iff 2); lia).
  rewrite fexp64_eq. lia.
Qed.

(** The heart of every operation: a value located in a slice with enough
    digits is rounded to a nearest point of the binary64 grid around it. *)
Lemma binary_round_aux_spec s m e l v g :
  0 <= m -> located m e v l -> e <= fexp64 (Zdigits2 m + e) ->
  (pow2 (g - 1) <= v < pow2 g)%R ->
  rounds_to s (fexp64 g) v (binary_round_aux Py.prec Py.emax s m e l).
Proof.
  intros Hm Hl He Hg.
  pose proof (located_mag m e v l g Hm Hl He Hg) as HE.
  pose proof (shr_fexp_located m e l v Hm Hl) as Hs. cbv zeta in Hs.
  unfold binary_round_aux.
  destruct (shr_fexp Py.prec Py.emax m e l) as [mrs1 e1]. simpl in Hs.
  destruct Hs as (Hm1 & He1 & Hl1).
  assert (He1' : e1 = fexp64 g) by lia. clear He1. subst e1.
  set (E := fexp64 g) in *.
  assert (HEmin : -1074 <= E) by (unfold E; rewrite fexp64_eq; lia).
  assert (HEg : g - 53 <= E) by (unfold E; rewrite fexp64_eq; lia).
  pose proof (round_nearest_even_located _ _ _ _ Hl1) as Hk. cbv zeta in Hk.
  set (k := round_nearest_even (shr_m mrs1) (loc_of_shr_record mrs1)) in *.
  destruct Hk as [Hk1 Hk2].
  pose proof (located_bounds _ _ _ _ Hl1) as [Hb1 Hb2].
  pose proof (pow2_pos E) as HP.
  destruct Hg as [Hg1 Hg2].
  assert (Hm1' : shr_m mrs1 < 2 ^ 53).
  { apply lt_IZR.
    assert (pow2 g <= pow2 (53 + E))%R by (apply pow2_le; lia).
    rewrite pow2_add, (pow2_IZR 53) in H by lia. nra. }
  assert (Hnorm : -1074 < E -> 2 ^ 52 <= shr_m mrs1).
  { intros Hn. assert (E = g - 53) by (unfold E; unfold E in Hn; rewrite fexp64_eq in *; lia).
    assert (2 ^ 52 < shr_m mrs1 + 1); [|lia].
    apply lt_IZR. rewrite plus_IZR.
    assert (pow2 (g - 1) = pow2 (52 + E)) by (f_equal; lia).
    rewrite pow2_add, (pow2_IZR 52) in H0 by lia. nra. }
  destruct (Z.eq_dec k (2 ^ 53)) as [Hc|Hc].
  - (* carry *)
    rewrite Hc, shr_fexp_carry by assumption. cbn [shr_m].
    change (2 ^ 52) with (Z.pos 4503599627370496).
    cbv iota beta.
    destruct (E + 1 <=? Py.emax - Py.prec) eqn:Hov; simpl.
    + split; [reflexivity|]. split.
      * unfold bounded, canonical_mantissa. rewrite Hov, andb_true_r.
        apply Z.eqb_eq. change (Z.pos (digits2_pos 4503599627370496)) with 53.
        rewrite fexp64_eq. lia.
      * exists k. split; [|assumption]. rewrite Hc, pow2_succ.
        change (2 ^ 53) with (2 * 4503599627370496). rewrite mult_IZR. ring.
    + split; [reflexivity|]. apply Z.leb_gt in Hov. unfold Py.emax, Py.prec in *.
      assert (E = g - 53) by (unfold E; unfold E in Hov; rewrite fexp64_eq in *; lia).
      eapply Rle_trans; [|exact Hg1]. apply pow2_le. lia.
  - rewrite shr_fexp_small by lia. cbn [shr_m].
    destruct k as [|p|p] eqn:Ek; try lia.
    + split; [reflexivity|]. simpl in Hk2. rewrite Rmult_0_l, Rminus_0_l, Rabs_Ropp in Hk2.
      unfold Rabs in Hk2. destruct (Rcase_abs v); lra.
    + destruct (E <=? Py.emax - Py.prec) eqn:Hov; simpl.
      * split; [reflexivity|]. split.
        -- unfold bounded, canonical_mantissa. rewrite Hov, andb_true_r.
           apply Z.eqb_eq. change (Z.pos (digits2_pos p)) with (Zdigits2 (Z.pos p)).
           destruct (Z.eq_dec E (-1074)) as [En|En].
           ++ rewrite En. apply canonical_subnormal. lia.
           ++ apply canonical_full; [|lia]. specialize (Hnorm ltac:(lia)). lia.
        -- exists (Z.pos p). split; [reflexivity|assumption].
      * split; [reflexivity|]. apply Z.leb_gt in Hov. unfold Py.emax, Py.prec in *.
        assert (E = g - 53) by (unfold E; unfold E in Hov; rewrite fexp64_eq in *; lia).
        eapply Rle_trans; [|exact Hg1]. apply pow2_le. lia.
Qed.

(** ** Division, multiplication and conversion round their exact result *)

Lemma new_location_located n q r e :
  0 < n -> 0 <= r < n ->
  located q e ((IZR q + IZR r / IZR n) * pow2 e)%R (new_location n r).
Proof.
  intros Hn Hr. pose proof (pow2_pos e) as HP.
  assert (Hn' : (0 < IZR n)%R) by (apply IZR_lt; lia).
  assert (Hr0 : (0 <= IZR r)%R) by (apply IZR_le; lia).
  assert (Hfr : forall a : R, (a * IZR n = IZR r -> IZR r / IZR n = a)%R).
  { intros a Ha. rewrite <- Ha. field. lra. }
  unfold new_location, new_location_even, new_location_odd.
  destruct (Z.even n) eqn:Ev.
  - destruct (Z.eqb_spec r 0) as [->|Hr'].
    + simpl. unfold Rdiv. rewrite Rmult_0_l. ring.
    + destruct (Z.compare_spec (2 * r) n) as [Hc|Hc|Hc]; simpl.
      * f_equal. f_equal. apply Hfr. rewrite <- Hc, mult_IZR. lra.
      * apply IZR_lt in Hc. rewrite mult_IZR in Hc.
        assert (0 < IZR r)%R by (apply IZR_lt; lia).
        assert (0 < IZR r / IZR n < / 2)%R.
        { split; [apply Rdiv_lt_0_compat; lra|].
          apply Rmult_lt_reg_r with (IZR n); [lra|].
          unfold Rdiv. rewrite Rmult_assoc, Rinv_l by lra. lra. }
        nra.
      * apply IZR_lt in Hc. rewrite mult_IZR in Hc.
        assert (Hlt : (IZR r < IZR n)%R) by (apply IZR_lt; lia).
        assert (/ 2 < IZR r / IZR n < 1)%R.
        { split; apply Rmult_lt_reg_r with (IZR n); try lra;
            unfold Rdiv; rewrite Rmult_assoc, Rinv_l by lra; lra. }
        nra.
  - destruct (Z.eqb_spec r 0) as [->|Hr'].
    + simpl. unfold Rdiv. rewrite Rmult_0_l. ring.
    + assert (Hodd : 2 * r <> n).
      { intros <-. rewrite Z.even_mul in Ev. discriminate. }
      assert (0 < IZR r)%R by (apply IZR_lt; lia).
      assert (Hlt : (IZR r < IZR n)%R) by (apply IZR_lt; lia).
      destruct (Z.compare_spec (2 * r + 1) n) as [Hc|Hc|Hc]; simpl.
      * assert (Hc' : 2 * r < n) by lia. apply IZR_lt in Hc'. rewrite mult_IZR in Hc'.
        assert (0 < IZR r / IZR n < / 2)%R.
        { split; [apply Rdiv_lt_0_compat; lra|].
          apply Rmult_lt_reg_r with (IZR n); [lra|].
          unfold Rdiv. rewrite Rmult_assoc, Rinv_l by lra. lra. }
        nra.
      * assert (Hc' : 2 * r < n) by lia. apply IZR_lt in Hc'. rewrite mult_IZR in Hc'.
        assert (0 < IZR r / IZR n < / 2)%R.
        { split; [apply Rdiv_lt_0_compat; lra|].
          apply Rmult_lt_reg_r with (IZR n); [lra|].
          unfold Rdiv. rewrite Rmult_assoc, Rinv_l by lra. lra. }
        nra.
      * assert (Hc' : n < 2 * r) by lia. apply IZR_lt in Hc'. rewrite mult_IZR in Hc'.
        assert (/ 2 < IZR r / IZR n < 1)%R.
        { split; apply Rmult_lt_reg_r with (IZR n); try lra;
            unfold Rdiv; rewrite Rmult_assoc, Rinv_l by lra; lra. }
        nra.
Qed.

Lemma pow2_sub a b : pow2 (a - b) = (pow2 a / pow2 b)%R.
Proof.
  replace a with ((a - b) + b) at 2 by lia. rewrite pow2_add.
  pose proof (pow2_pos b). field. lra.
Qed.

Lemma Zdigits2_ge m d : 0 <= d -> 2 ^ d <= m -> d + 1 <= Zdigits2 m.
Proof.
  intros Hd Hm. assert (0 < m) by (pose proof (Z.pow_pos_nonneg 2 d); lia).
  pose proof (Zdigits2_bounds m H) as [_ H2]. pose proof (Zdigits2_nonneg m).
  destruct (Z_lt_le_dec d (Zdigits2 m)); [lia|].
  assert (2 ^ Zdigits2 m <= 2 ^ d) by (apply Z.pow_le_mono_r; lia). lia.
Qed.

Lemma SFdiv_rounded sx mx ex sy my ey :
  rounded (xorb sx sy)
    (IZR (Zpos mx) * pow2 ex / (IZR (Zpos my) * pow2 ey))
    (SFdiv Py.prec Py.emax (S754_finite sx mx ex) (S754_finite sy my ey)).
Proof.
  intros g Hg. simpl SFdiv. unfold SFdiv_core_binary.
  set (d1 := Zdigits2 (Z.pos mx)). set (d2 := Zdigits2 (Z.pos my)).
  set (e' := Z.min (fexp64 (d1 + ex - (d2 + ey))) (ex - ey)).
  set (s := ex - ey - e').
  assert (Hs : 0 <= s) by (unfold s, e'; lia).
  set (m' := match s with Z.pos _ => Z.shiftl (Z.pos mx) s | 0 => Z.pos mx | Z.neg _ => 0 end).
  assert (Hm' : m' = Z.pos mx * 2 ^ s).
  { unfold m'. destruct s as [|p|p] eqn:Es; [simpl; lia| |lia].
    rewrite Z.shiftl_mul_pow2 by lia. reflexivity. }
  pose proof (Z_div_mod m' (Z.pos my) ltac:(lia)) as Hdm.
  destruct (Z.div_eucl m' (Z.pos my)) as [q r]. destruct Hdm as [Hdm Hr].
  assert (Hm'pos : 0 < m') by (rewrite Hm'; pose proof (Z.pow_pos_nonneg 2 s); lia).
  assert (Hq : 0 <= q) by nia.
  assert (Hv : (IZR (Z.pos mx) * pow2 ex / (IZR (Z.pos my) * pow2 ey) =
                (IZR q + IZR r / IZR (Z.pos my)) * pow2 e')%R).
  { assert (IZR m' = IZR (Z.pos my) * IZR q + IZR r)%R
      by (rewrite Hdm, plus_IZR, mult_IZR; reflexivity).
    rewrite Hm', mult_IZR, <- (pow2_IZR s) in H by lia.
    assert (pow2 ex = pow2 s * pow2 e' * pow2 ey)%R.
    { rewrite <- !pow2_add. f_equal. unfold s. lia. }
    assert (0 < IZR (Z.pos my))%R by (apply IZR_lt; lia).
    pose proof (pow2_pos ey). pose proof (pow2_pos e'). pose proof (pow2_pos s).
    rewrite H0.
    replace (IZR (Z.pos mx) * (pow2 s * pow2 e' * pow2 ey))%R
      with ((IZR (Z.pos mx) * pow2 s) * pow2 e' * pow2 ey)%R by ring.
    rewrite H. field. split; lra. }
  rewrite Hv in Hg |- *.
  apply binary_round_aux_spec; try assumption.
  - apply new_location_located; lia.
  - (* enough digits *)
    rewrite (fexp64_eq (Zdigits2 q + e')).
    destruct (Z_le_gt_dec e' (-1074)) as [Hle|Hgt]; [lia|].
    assert (He' : e' <= d1 + ex - (d2 + ey) - 53).
    { unfold e' in *. rewrite fexp64_eq in *. lia. }
    assert (Hd1 : 2 ^ (d1 - 1) <= Z.pos mx < 2 ^ d1) by (apply Zdigits2_bounds; lia).
    assert (Hd2 : 2 ^ (d2 - 1) <= Z.pos my < 2 ^ d2) by (apply Zdigits2_bounds; lia).
    assert (Hd1p : 1 <= d1) by (unfold d1; simpl; lia).
    assert (Hd2p : 1 <= d2) by (unfold d2; simpl; lia).
    assert (Hs' : 53 + d2 - d1 <= s) by (unfold s; lia).
    assert (Hq52 : 2 ^ 52 <= q).
    { assert (2 ^ (52 + d2) <= m').
      { rewrite Hm'.
        assert (2 ^ (52 + d2) <= 2 ^ (d1 - 1 + s)) by (apply Z.pow_le_mono_r; lia).
        rewrite (Z.pow_add_r 2 (d1 - 1) s) in H by lia.
        assert (0 < 2 ^ s) by (apply Z.pow_pos_nonneg; lia).
        apply Z.le_trans with (2 ^ (d1 - 1) * 2 ^ s); [lia|].
        apply Z.mul_le_mono_nonneg_r; lia. }
      rewrite Z.pow_add_r in H by lia.
      destruct (Z_lt_le_dec q (2 ^ 52)); [|assumption]. exfalso.
      assert (q + 1 <= 2 ^ 52) by lia.
      assert (0 < 2 ^ d2) by (apply Z.pow_pos_nonneg; lia).
      assert (Z.pos my * (q + 1) <= 2 ^ d2 * 2 ^ 52).
      { apply Z.mul_le_mono_nonneg; lia. }
      lia. }
    pose proof (Zdigits2_ge q 52 ltac:(lia) Hq52). lia.
Qed.

Lemma SFmul_rounded sx mx ex sy my ey :
  bounded Py.prec Py.emax mx ex = true -> bounded Py.prec Py.emax my ey = true ->
  rounded (xorb sx sy)
    (IZR (Zpos mx) * pow2 ex * (IZR (Zpos my) * pow2 ey))
    (SFmul Py.prec Py.emax (S754_finite sx mx ex) (S754_finite sy my ey)).
Proof.
  intros Bx By g Hg. simpl SFmul.
  apply binary_round_aux_spec; try assumption; try lia.
  - simpl. rewrite Pos2Z.inj_mul, mult_IZR, pow2_add. ring.
  - unfold bounded, canonical_mantissa in Bx, By.
    apply andb_true_iff in Bx, By. destruct Bx as [Bx _], By as [By _].
    apply Z.eqb_eq in Bx, By. rewrite fexp64_eq in *.
    change (Z.pos (digits2_pos mx)) with (Zdigits2 (Z.pos mx)) in Bx.
    change (Z.pos (digits2_pos my)) with (Zdigits2 (Z.pos my)) in By.
    pose proof (Zdigits2_bounds (Z.pos mx) ltac:(lia)) as [Hx1 Hx2].
    pose proof (Zdigits2_bounds (Z.pos my) ltac:(lia)) as [Hy1 Hy2].
    set (dx := Zdigits2 (Z.pos mx)) in *. set (dy := Zdigits2 (Z.pos my)) in *.
    assert (1 <= dx) by (unfold dx; simpl; lia).
    assert (1 <= dy) by (unfold dy; simpl; lia).
    assert (dx + dy - 2 + 1 <= Zdigits2 (Z.pos (mx * my))).
    { apply Zdigits2_ge; [lia|]. rewrite Pos2Z.inj_mul.
      replace (dx + dy - 2) with ((dx - 1) + (dy - 1)) by lia.
      rewrite Z.pow_add_r by lia.
      apply Z.mul_le_mono_nonneg; try lia; apply Z.pow_nonneg; lia. }
    lia.
Qed.

Lemma Pos_iter_xO m d : Z.pos (Pos.iter xO m d) = Z.pos m * 2 ^ Z.pos d.
Proof.
  induction d as [|d IH] using Pos.peano_ind.
  - simpl. lia.
  - rewrite Pos.iter_succ, Pos2Z.inj_xO, IH, Pos2Z.inj_succ, Z.pow_succ_r by lia. ring.
Qed.

Lemma Zdigits2_shift m k : 0 < m -> 0 <= k -> Zdigits2 (m * 2 ^ k) = Zdigits2 m + k.
Proof.
  intros Hm Hk. pose proof (Zdigits2_bounds m Hm) as [H1 H2].
  assert (0 < 2 ^ k) by (apply Z.pow_pos_nonneg; lia).
  assert (1 <= Zdigits2 m).
  { pose proof (Zdigits2_nonneg m). destruct (Z.eq_dec (Zdigits2 m) 0) as [E|E]; [|lia].
    rewrite E in H2. simpl in H2. lia. }
  apply Zdigits2_unique; [nia|].
  replace (Zdigits2 m + k - 1) with ((Zdigits2 m - 1) + k) by lia.
  rewrite !Z.pow_add_r by lia. split.
  - apply Z.mul_le_mono_nonneg_r; lia.
  - apply Z.mul_lt_mono_pos_r; lia.
Qed.

Lemma binary_round_rounded s mx ex :
  rounded s (IZR (Zpos mx) * pow2 ex) (binary_round Py.prec Py.emax s mx ex).
Proof.
  intros g Hg. unfold binary_round, shl_align.
  change (Z.pos (digits2_pos mx)) with (Zdigits2 (Z.pos mx)).
  set (E := fexp64 (Zdigits2 (Z.pos mx) + ex)).
  destruct (E - ex) as [|d|d] eqn:Ed.
  - apply binary_round_aux_spec; try assumption; try lia; first [reflexivity|fold E; lia].
  - apply binary_round_aux_spec; try assumption; try lia; first [reflexivity|fold E; lia].
  - assert (Hex : ex = E + Z.pos d) by lia.
    apply binary_round_aux_spec; try assumption; try lia.
    + simpl. rewrite Pos_iter_xO, mult_IZR, <- (pow2_IZR (Z.pos d)), Hex by lia.
      rewrite (pow2_add E). ring.
    + rewrite Pos_iter_xO, Zdigits2_shift by lia.
      replace (Zdigits2 (Z.pos mx) + Z.pos d + E) with (Zdigits2 (Z.pos mx) + ex) by lia.
      fold E. lia.
Qed.

(** Every positive real lies between two consecutive powers of two. *)

Lemma pow2_unbounded (v : R) : exists n : Z, (v < pow2 n)%R.
Proof.
  destruct (archimed v) as [Hup _].
  exists (Z.max 0 (up v)).
  assert (Hn : 0 <= Z.max 0 (up v)) by lia.
  rewrite pow2_IZR by lia.
  assert (Z.max 0 (up v) < 2 ^ Z.max 0 (up v)) by (apply Z.pow_gt_lin_r; lia).
  apply IZR_lt in H.
  assert (IZR (up v) <= IZR (Z.max 0 (up v)))%R by (apply IZR_le; lia).
  lra.
Qed.

Lemma mag_exists (v : R) : (0 < v)%R -> exists g : Z, (pow2 (g - 1) <= v < pow2 g)%R.
Proof.
  intros Hv.
  destruct (pow2_unbounded v) as [hi Hhi].
  destruct (pow2_unbounded (/ v)) as [lo Hlo].
  assert (Hlo' : (pow2 (- lo) < v)%R).
  { unfold pow2. rewrite powerRZ_neg'. fold (pow2 lo).
    pose proof (pow2_pos lo). apply Rinv_lt_contravar in Hlo.
    - rewrite Rinv_inv in Hlo. exact Hlo.
    - apply Rmult_lt_0_compat; [apply Rinv_0_lt_compat|]; lra. }
  assert (Hlt : - lo < hi) by (apply pow2_lt_inv; lra).
  assert (Hind : forall n : nat, forall a : Z, (pow2 a <= v)%R -> (v < pow2 (a + Z.of_nat n))%R ->
                 exists g : Z, (pow2 (g - 1) <= v < pow2 g)%R).
  { induction n as [|n IH]; intros a Ha Hb.
    - replace (a + Z.of_nat 0) with a in Hb by lia. lra.
    - destruct (Rlt_le_dec v (pow2 (a + 1))) as [Hc|Hc].
      + exists (a + 1). replace (a + 1 - 1) with a by lia. lra.
      + apply (IH (a + 1)); [assumption|].
        replace (a + 1 + Z.of_nat n) with (a + Z.of_nat (S n)) by lia. assumption. }
  apply (Hind (Z.to_nat (hi + lo)) (- lo)); [lra|].
  replace (- lo + Z.of_nat (Z.to_nat (hi + lo))) with hi by lia. assumption.
Qed.

(** ** What a rounded value satisfies *)

Lemma grid_le k j P v :
  (0 < P)%R -> (Rabs (IZR k * P - v) <= P / 2)%R -> (v <= IZR j * P)%R ->
  (IZR k * P <= IZR j * P)%R.
Proof.
  intros HP Hk Hv. destruct (Z_le_gt_dec k j) as [Hle|Hgt].
  - apply IZR_le in Hle. nra.
  - exfalso. assert (j + 1 <= k) by lia. apply IZR_le in H. rewrite plus_IZR in H.
    unfold Rabs in Hk. destruct (Rcase_abs _) in Hk; nra.
Qed.

Lemma grid_ge k j P v :
  (0 < P)%R -> (Rabs (IZR k * P - v) <= P / 2)%R -> (IZR j * P <= v)%R ->
  (IZR j * P <= IZR k * P)%R.
Proof.
  intros HP Hk Hv. destruct (Z_le_gt_dec j k) as [Hle|Hgt].
  - apply IZR_le in Hle. nra.
  - exfalso. assert (k + 1 <= j) by lia. apply IZR_le in H. rewrite plus_IZR in H.
    unfold Rabs in Hk. destruct (Rcase_abs _) in Hk; nra.
Qed.

Lemma rounded_facts s v r :
  (0 < v)%R -> (v < pow2 1023)%R -> rounded s v r ->
  exists g k : Z,
    (pow2 (g - 1) <= v < pow2 g)%R /\
    Fmag r = (IZR k * pow2 (fexp64 g))%R /\
    (Rabs (IZR k * pow2 (fexp64 g) - v) <= pow2 (fexp64 g) / 2)%R /\
    is_fz r /\ Fsign r = s /\ fvalid r.
Proof.
  intros Hv Hhi Hr. destruct (mag_exists v Hv) as [g Hg].
  specialize (Hr g Hg). exists g. destruct r as [s'|s'| |s' m e]; simpl in Hr.
  - destruct Hr as [-> Hr]. exists 0. simpl. repeat split; try tauto; try lra.
    rewrite Rmult_0_l, Rminus_0_l, Rabs_Ropp, Rabs_pos_eq; lra.
  - destruct Hr as [_ Hr]. change (Py.emax - 1) with 1023 in Hr. lra.
  - contradiction.
  - destruct Hr as (-> & Hb & k & Hk1 & Hk2). exists k. simpl. repeat split; try tauto; assumption.
Qed.

(** Rounding never crosses an integer (below [2^53]). *)
Lemma rounded_int_mono s v r :
  (0 < v)%R -> (v < pow2 53)%R -> rounded s v r ->
  forall N : Z, ((IZR N <= v)%R -> (IZR N <= Fmag r)%R) /\
                ((v <= IZR N)%R -> (Fmag r <= IZR N)%R).
Proof.
  intros Hv Hhi Hr N.
  assert (Hhi' : (v < pow2 1023)%R).
  { eapply Rlt_le_trans; [exact Hhi|]. apply pow2_le. lia. }
  destruct (rounded_facts s v r Hv Hhi' Hr) as (g & k & [Hg1 Hg2] & Hm & Hk & _).
  assert (Hg : g - 1 < 53) by (apply pow2_lt_inv; lra).
  set (E := fexp64 g) in *.
  assert (HE : E <= 0) by (unfold E; rewrite fexp64_eq; lia).
  pose proof (pow2_pos E) as HP.
  assert (HN : IZR N = (IZR (N * 2 ^ (- E)) * pow2 E)%R).
  { rewrite mult_IZR, <- pow2_IZR by lia. rewrite Rmult_assoc, <- pow2_add.
    replace (- E + E) with 0 by lia. rewrite pow2_0. ring. }
  rewrite Hm, HN. split; intros H.
  - apply grid_ge with v; assumption.
  - apply grid_le with v; assumption.
Qed.

(** The relative error of a rounding in the normal range is at most [2^-53]. *)
Lemma rounded_rel_err s v r :
  (pow2 (-1022) <= v)%R -> (v < pow2 1023)%R -> rounded s v r ->
  (Rabs (Fmag r - v) <= v * pow2 (-53))%R.
Proof.
  intros Hlo Hhi Hr.
  assert (Hv : (0 < v)%R) by (pose proof (pow2_pos (-1022)); lra).
  destruct (rounded_facts s v r Hv Hhi Hr) as (g & k & [Hg1 Hg2] & Hm & Hk & _).
  assert (Hg : -1022 < g) by (apply pow2_lt_inv; lra).
  rewrite Hm. eapply Rle_trans; [exact Hk|].
  rewrite fexp64_eq. replace (Z.max (g - 53) (-1074)) with (g - 53) by lia.
  replace (g - 53) with ((g - 1) + (-53) + 1) by lia.
  rewrite pow2_succ, pow2_add. pose proof (pow2_pos (-53)). nra.
Qed.

(** A representable value rounds to itself. *)
Lemma rounded_exact s v r j c :
  0 < j < 2 ^ 53 -> -1074 <= c -> v = (IZR j * pow2 c)%R -> (v < pow2 1023)%R ->
  rounded s v r -> Fmag r = v.
Proof.
  intros Hj Hc Hvj Hhi Hr.
  assert (Hv : (0 < v)%R).
  { rewrite Hvj. apply Rmult_lt_0_compat; [apply IZR_lt; lia|apply pow2_pos]. }
  destruct (rounded_facts s v r Hv Hhi Hr) as (g & k & [Hg1 Hg2] & Hm & Hk & _).
  set (E := fexp64 g) in *.
  assert (Hgc : g - 1 < 53 + c).
  { apply pow2_lt_inv. eapply Rle_lt_trans; [exact Hg1|].
    rewrite Hvj. apply IZR_pow2_lt; lia. }
  assert (HE : E <= c) by (unfold E; rewrite fexp64_eq; lia).
  pose proof (pow2_pos E) as HP.
  assert (Hgrid : v = (IZR (j * 2 ^ (c - E)) * pow2 E)%R).
  { rewrite Hvj, mult_IZR, <- pow2_IZR by lia. rewrite Rmult_assoc, <- pow2_add.
    do 2 f_equal. lia. }
  set (J := j * 2 ^ (c - E)) in *.
  assert (H1 : (IZR k * pow2 E <= IZR J * pow2 E)%R) by (apply grid_le with v; lra).
  assert (H2 : (IZR J * pow2 E <= IZR k * pow2 E)%R) by (apply grid_ge with v; lra).
  rewrite Hm. lra.
Qed.

Lemma rounded_nonzero s v r :
  (pow2 (-1074) <= v)%R -> (v < pow2 1023)%R -> rounded s v r ->
  exists m e, r = S754_finite s m e.
Proof.
  intros Hlo Hhi Hr.
  assert (Hv : (0 < v)%R) by (pose proof (pow2_pos (-1074)); lra).
  destruct (mag_exists v Hv) as [g [Hg1 Hg2]].
  specialize (Hr g (conj Hg1 Hg2)). destruct r as [s'|s'| |s' m e]; simpl in Hr.
  - exfalso. destruct Hr as [_ Hr].
    assert (Hg : -1074 < g) by (apply pow2_lt_inv; lra).
    rewrite fexp64_eq in Hr. rewrite <- pow2_pred in Hr.
    assert (pow2 (Z.max (g - 53) (-1074) - 1) < pow2 (g - 1))%R by (apply pow2_lt; lia).
    lra.
  - destruct Hr as [_ Hr]. change (Py.emax - 1) with 1023 in Hr. lra.
  - contradiction.
  - destruct Hr as [-> _]. eauto.
Qed.

(** ** [int(x)] is the floor of a non-negative float *)

Lemma shiftl_floor m e :
  (IZR (Z.shiftl (Z.pos m) e) <= IZR (Z.pos m) * pow2 e < IZR (Z.shiftl (Z.pos m) e) + 1)%R.
Proof.
  destruct (Z_le_gt_dec 0 e) as [He|He].
  - rewrite Z.shiftl_mul_pow2, mult_IZR, <- pow2_IZR by lia. lra.
  - rewrite Z.shiftl_div_pow2 by lia.
    assert (Hp : 0 < 2 ^ (- e)) by (apply Z.pow_pos_nonneg; lia).
    pose proof (Z.div_mod (Z.pos m) (2 ^ (- e)) ltac:(lia)) as Hdm.
    pose proof (Z.mod_pos_bound (Z.pos m) (2 ^ (- e)) Hp) as Hmod.
    set (q := Z.pos m / 2 ^ (- e)) in *.
    assert (H1 : 2 ^ (- e) * q <= Z.pos m) by lia.
    assert (H2 : Z.pos m < 2 ^ (- e) * (q + 1)) by lia.
    apply IZR_le in H1. apply IZR_lt in H2.
    rewrite mult_IZR, <- pow2_IZR in H1, H2 by lia. rewrite plus_IZR in H2.
    assert (Hpp : (pow2 (- e) * pow2 e = 1)%R).
    { rewrite <- pow2_add. replace (- e + e) with 0 by lia. apply pow2_0. }
    pose proof (pow2_pos e). pose proof (pow2_pos (- e)).
    split.
    + apply Rmult_le_reg_l with (pow2 (- e)); [assumption|].
      replace (pow2 (- e) * (IZR (Z.pos m) * pow2 e))%R
        with (IZR (Z.pos m) * (pow2 (- e) * pow2 e))%R by ring.
      rewrite Hpp. lra.
    + apply Rmult_lt_reg_l with (pow2 (- e)); [assumption|].
      replace (pow2 (- e) * (IZR (Z.pos m) * pow2 e))%R
        with (IZR (Z.pos m) * (pow2 (- e) * pow2 e))%R by ring.
      rewrite Hpp. lra.
Qed.

Lemma int_of_float_floor r :
  is_fz r ->
  exists z : Z, Py.int_of_float r = Ok (cond_Zopp (Fsign r) z) /\
                0 <= z /\ (IZR z <= Fmag r < IZR z + 1)%R.
Proof.
  intros Hr. destruct r as [s|s| |s m e]; simpl in Hr; try contradiction.
  - exists 0. simpl. split; [destruct s; reflexivity|]. split; [lia|lra].
  - exists (Z.shiftl (Z.pos m) e). simpl. split; [reflexivity|]. split.
    + apply Z.shiftl_nonneg. lia.
    + apply shiftl_floor.
Qed.

(** ** Operations on non-negative floats *)

Lemma Fmag_nonneg r : (0 <= Fmag r)%R.
Proof.
  destruct r; simpl; try lra. pose proof (pow2_pos e).
  assert (0 < IZR (Z.pos m))%R by (apply IZR_lt; lia). nra.
Qed.

Lemma Fmag_pos_finite r : (0 < Fmag r)%R -> exists s m e, r = S754_finite s m e.
Proof. destruct r; simpl; try lra. eauto. Qed.

Lemma frounds_nonneg v r : frounds v r -> (0 <= v)%R.
Proof. intros [[-> _]|[H _]]; lra. Qed.

Lemma frounds_fnonneg v r : frounds v r -> (v < pow2 1023)%R -> fnonneg r.
Proof.
  intros [[-> ->]|[Hv Hr]] Hhi.
  - repeat split.
  - destruct (rounded_facts _ _ _ Hv Hhi Hr) as (g & k & _ & _ & _ & H1 & H2 & H3).
    repeat split; assumption.
Qed.

Lemma frounds_int_mono v r :
  frounds v r -> (v < pow2 53)%R ->
  forall N : Z, ((IZR N <= v)%R -> (IZR N <= Fmag r)%R) /\
                ((v <= IZR N)%R -> (Fmag r <= IZR N)%R).
Proof.
  intros [[-> ->]|[Hv Hr]] Hhi N.
  - simpl. tauto.
  - apply (rounded_int_mono false); assumption.
Qed.

Lemma frounds_rel_err v r :
  frounds v r -> (v = 0 \/ pow2 (-1022) <= v)%R -> (v < pow2 1023)%R ->
  (Rabs (Fmag r - v) <= v * pow2 (-53))%R.
Proof.
  intros [[-> ->]|[Hv Hr]] Hlo Hhi.
  - simpl. rewrite Rminus_0_r, Rabs_R0. lra.
  - destruct Hlo as [->|Hlo]; [lra|]. apply (rounded_rel_err false); assumption.
Qed.

Lemma frounds_exact v r j c :
  frounds v r -> 0 <= j < 2 ^ 53 -> -1074 <= c -> v = (IZR j * pow2 c)%R ->
  (v < pow2 1023)%R -> Fmag r = v.
Proof.
  intros [[-> ->]|[Hv Hr]] Hj Hc Hvj Hhi.
  - reflexivity.
  - apply (rounded_exact false v r j c); try assumption.
    destruct (Z.eq_dec j 0) as [->|]; [|lia]. rewrite Hvj in Hv. lra.
Qed.

Lemma frounds_finite v r :
  frounds v r -> (pow2 (-1074) <= v)%R -> (v < pow2 1023)%R ->
  exists m e, r = S754_finite false m e.
Proof.
  intros [[-> ->]|[Hv Hr]] Hlo Hhi.
  - pose proof (pow2_pos (-1074)). lra.
  - apply rounded_nonzero with v; assumption.
Qed.

Lemma fdiv_frounds x y :
  fnonneg x -> fnonneg y -> (0 < Fmag y)%R ->
  frounds (Fmag x / Fmag y) (Py.fdiv x y).
Proof.
  intros (Hx1 & Hx2 & Hx3) (Hy1 & Hy2 & Hy3) Hy.
  destruct (Fmag_pos_finite y Hy) as (sy & my & ey & ->). simpl in Hy2. subst sy.
  destruct x as [sx|sx| |sx mx ex]; simpl in Hx1, Hx2; try contradiction; subst sx.
  - left. split; [simpl; unfold Rdiv; ring|reflexivity].
  - right. split.
    + apply Rdiv_lt_0_compat; [|assumption]. simpl.
      apply Rmult_lt_0_compat; [apply IZR_lt; lia|apply pow2_pos].
    + apply (SFdiv_rounded false mx ex false my ey).
Qed.

Lemma fmul_frounds x y :
  fnonneg x -> fnonneg y -> frounds (Fmag x * Fmag y) (Py.fmul x y).
Proof.
  intros (Hx1 & Hx2 & Hx3) (Hy1 & Hy2 & Hy3).
  destruct x as [sx|sx| |sx mx ex]; simpl in Hx1, Hx2; try contradiction; subst sx;
    destruct y as [sy|sy| |sy my ey]; simpl in Hy1, Hy2; try contradiction; subst sy.
  - left. split; [simpl; ring|reflexivity].
  - left. split; [simpl; ring|reflexivity].
  - left. split; [simpl; ring|reflexivity].
  - right. split.
    + simpl. pose proof (pow2_pos ex). pose proof (pow2_pos ey).
      assert (0 < IZR (Z.pos mx))%R by (apply IZR_lt; lia).
      assert (0 < IZR (Z.pos my))%R by (apply IZR_lt; lia).
      apply Rmult_lt_0_compat; apply Rmult_lt_0_compat; assumption.
    + apply (SFmul_rounded false mx ex false my ey); assumption.
Qed.

Lemma normalize_frounds z :
  0 <= z -> frounds (IZR z) (binary_normalize Py.prec Py.emax z 0 false).
Proof.
  intros Hz. destruct z as [|p|p]; try lia.
  - left. split; reflexivity.
  - right. split; [apply IZR_lt; lia|]. simpl binary_normalize.
    replace (IZR (Z.pos p)) with (IZR (Z.pos p) * pow2 0)%R by (rewrite pow2_0; ring).
    apply binary_round_rounded.
Qed.

Lemma IZR_lt_pow2 z n : 0 <= n -> z < 2 ^ n -> (IZR z < pow2 n)%R.
Proof. intros Hn Hz. rewrite pow2_IZR by assumption. apply IZR_lt. assumption. Qed.

(** [float(z)] of a small non-negative integer is exact. *)
Lemma float_of_int_exact z :
  0 <= z < 2 ^ 53 ->
  exists f, Py.float_of_int z = Ok f /\ Py.float_of_int64 z = f /\
            fnonneg f /\ Fmag f = IZR z.
Proof.
  intros Hz. pose proof (normalize_frounds z ltac:(lia)) as Hr.
  assert (Hhi : (IZR z < pow2 1023)%R).
  { apply Rlt_le_trans with (pow2 53); [apply IZR_lt_pow2; lia|apply pow2_le; lia]. }
  pose proof (frounds_fnonneg _ _ Hr Hhi) as Hn.
  assert (Hm : Fmag (binary_normalize Py.prec Py.emax z 0 false) = IZR z).
  { apply (frounds_exact _ _ z 0); try assumption; try lia. rewrite pow2_0. ring. }
  unfold Py.float_of_int, Py.float_of_int64.
  destruct (binary_normalize Py.prec Py.emax z 0 false) as [s|s| |s m e] eqn:E;
    destruct Hn as (H1 & H2 & H3); simpl in H1; try contradiction;
    eexists; repeat split; try eassumption; try reflexivity.
Qed.

Lemma int_of_frounds v r :
  frounds v r -> (v < pow2 1023)%R ->
  exists z : Z, Py.int_of_float r = Ok z /\ 0 <= z /\
                (IZR z <= Fmag r < IZR z + 1)%R.
Proof.
  intros Hr Hhi. destruct (frounds_fnonneg _ _ Hr Hhi) as (H1 & H2 & H3).
  destruct (int_of_float_floor r H1) as (z & Hz1 & Hz2 & Hz3).
  rewrite H2 in Hz1. exists z. auto.
Qed.

(** * Running the application functions *)

Section Run.

Variable cv : opencv.

Lemma resize_type_run file_path defined_res sf tol w :
  match (res ← shape2 (val_of_imread (cv2_imread cv file_path));
         fit_plan res defined_res sf tol) with
  | Ok p =>
      exists w', resize_type cv file_path defined_res sf tol w = (Ok tt, w') /\
                 resize_post (val_of_imread (cv2_imread cv file_path)) defined_res p w w'
  | Raise e =>
      exists w', resize_type cv file_path defined_res sf tol w = (Raise e, w')
  end.
Proof.
  destruct w as [d wr], defined_res as [dh dw].
  remember (resize_type cv file_path (dh, dw) sf tol {| img_vars := d; written := wr |})
    as R eqn:HR.
  unfold resize_type in HR.
  set (v := val_of_imread (cv2_imread cv file_path)) in *.
  run_unfold_in HR. run_red_in HR. rewrite lookup_insert_eq in HR.
  destruct (shape2 v) as [[h w]|e] eqn:Hs.
  - unfold fit_plan, Py.mul. repeat run_step HR.
    all: subst R; eexists; try reflexivity.
    all: split; [reflexivity|]; unfold resize_post, plan_of_vars, direction_of.
    all: repeat split; repeat lookup_step; reflexivity.
  - run_red_in HR. run_red. subst R. eexists. reflexivity.
Qed.

Lemma planFit_pure file_path defined_res sf tol w :
  planFit cv file_path defined_res sf tol w =
  (res ← shape2 (val_of_imread (cv2_imread cv file_path));
   fit_plan res defined_res sf tol).
Proof.
  pose proof (resize_type_run file_path defined_res sf tol w) as Hrun.
  unfold planFit.
  destruct (res ← shape2 (val_of_imread (cv2_imread cv file_path));
            fit_plan res defined_res sf tol) as [p|e].
  - destruct Hrun as (w' & -> & _ & _ & _ & _ & ->). reflexivity.
  - destruct Hrun as (w' & ->). reflexivity.
Qed.

Lemma add_pip_vars_run w H W ph pw :
  img_vars w !! "defined_res" = Some (VPair H W) ->
  img_vars w !! "proposed_res" = Some (VPair ph pw) ->
  match pip_of (H, W) (ph, pw) with
  | Ok c =>
      add_pip_vars w =
      (Ok tt, {| img_vars := <["pip_coords" := VPip c]>
                               (<["canvas" := VArr (np_full H W 3 128)]> (img_vars w));
                 written := written w |})
  | Raise e => exists w', add_pip_vars w = (Raise e, w')
  end.
Proof.
  destruct w as [d wr]. cbn [img_vars written]. intros Hd Hp.
  remember (add_pip_vars {| img_vars := d; written := wr |}) as R eqn:HR.
  unfold add_pip_vars in HR. run_unfold_in HR. unfold pip_of.
  repeat run_step HR.
  all: subst R; try reflexivity; eexists; reflexivity.
Qed.

Lemma composeOffsets_pure frame dest w :
  composeOffsets frame dest w = pip_of frame dest.
Proof.
  destruct frame as [H W], dest as [ph pw]. unfold composeOffsets. cbn [fst snd].
  set (w0 := {| img_vars := <["proposed_res" := VPair ph pw]>
                              (<["defined_res" := VPair H W]> (img_vars w));
                written := written w |}).
  pose proof (add_pip_vars_run w0 H W ph pw) as Hrun. cbn [w0 img_vars] in Hrun.
  rewrite lookup_insert_ne, lookup_insert_eq in Hrun by discriminate.
  rewrite lookup_insert_eq in Hrun.
  specialize (Hrun eq_refl eq_refl).
  destruct (pip_of (H, W) (ph, pw)) as [c|e].
  - rewrite Hrun. cbn [img_vars]. rewrite lookup_insert_eq. reflexivity.
  - destruct Hrun as (w' & ->). reflexivity.
Qed.

Lemma process_image_run file w img ph pw cvs c resized out :
  img_vars w !! "img_obj" = Some (VArr img) ->
  img_vars w !! "proposed_res" = Some (VPair ph pw) ->
  img_vars w !! "canvas" = Some (VArr cvs) ->
  img_vars w !! "pip_coords" = Some (VPip c) ->
  cv2_resize cv img (pw, ph) = Ok resized ->
  np_setslice cvs (y1 c) (y2 c) (x1 c) (x2 c) resized = Ok out ->
  process_image cv file w =
  (Ok tt, {| img_vars := <["canvas" := VArr out]> (img_vars w);
             written := written w ++ [(file, out)] |}).
Proof.
  destruct w as [d wr]. cbn [img_vars written]. intros Hi Hp Hc Hk Hr Hs.
  remember (process_image cv file {| img_vars := d; written := wr |}) as R eqn:HR.
  unfold process_image in HR. run_unfold_in HR.
  repeat run_step HR.
  subst R. reflexivity.
Qed.

End Run.

(** * The fit planner on well-formed inputs *)

Lemma floor_eq_int r : Fsign r = false -> Py.floor r = Py.int_of_float r.
Proof. destruct r as [s|s| |[|] m e]; simpl; intros; try reflexivity; discriminate. Qed.

Lemma op_int v r :
  frounds v r -> (v < pow2 1023)%R ->
  exists z : Z, Py.int_of_float r = Ok z /\ Py.floor r = Ok z /\ 0 <= z /\
                (IZR z <= Fmag r < IZR z + 1)%R /\ fnonneg r.
Proof.
  intros Hr Hhi. destruct (int_of_frounds v r Hr Hhi) as (z & H1 & H2 & H3).
  pose proof (frounds_fnonneg v r Hr Hhi) as Hn.
  exists z. split; [assumption|].
  split; [rewrite floor_eq_int; [assumption|apply Hn]|].
  split; [assumption|]. split; assumption.
Qed.

Lemma op_int_mono v r z :
  frounds v r -> (v < pow2 53)%R -> (IZR z <= Fmag r < IZR z + 1)%R ->
  forall N : Z, ((IZR N <= v)%R -> N <= z) /\ ((v <= IZR N)%R -> z <= N).
Proof.
  intros Hr Hhi Hz N. destruct (frounds_int_mono v r Hr Hhi N) as [H1 H2]. split; intros H.
  - specialize (H1 H). assert (IZR N < IZR (z + 1))%R by (rewrite plus_IZR; lra).
    apply lt_IZR in H0. lia.
  - specialize (H2 H). apply le_IZR. lra.
Qed.

Lemma is_zero_pos y : (0 < Fmag y)%R -> Py.is_zero y = false.
Proof. destruct y; simpl; intros; try lra; reflexivity. Qed.

Lemma truediv_frounds x y :
  fnonneg x -> fnonneg y -> (0 < Fmag y)%R ->
  Py.truediv x y = Ok (Py.fdiv x y) /\ frounds (Fmag x / Fmag y) (Py.fdiv x y).
Proof.
  intros Hx Hy Hp. unfold Py.truediv. rewrite is_zero_pos by assumption.
  split; [reflexivity|apply fdiv_frounds; assumption].
Qed.

Lemma dim_ok_IZR z : dim_ok z -> (1 <= IZR z < pow2 31)%R.
Proof.
  intros [H1 H2]. split; [apply IZR_le; lia|apply IZR_lt_pow2; lia].
Qed.

Lemma pow2_31_53 : (pow2 31 < pow2 53)%R.
Proof. apply pow2_lt. lia. Qed.

Lemma pow2_53_1023 : (pow2 53 < pow2 1023)%R.
Proof. apply pow2_lt. lia. Qed.

Lemma factor_ok_mag sf : factor_ok sf -> fnonneg sf /\ (0 < Fmag sf <= 1)%R.
Proof.
  destruct sf as [s|s| |[|] m e]; simpl; try contradiction.
  intros (Hb & He & Hm). split.
  - repeat split. exact Hb.
  - pose proof (pow2_pos e). assert (0 < IZR (Z.pos m))%R by (apply IZR_lt; lia).
    split; [nra|].
    apply IZR_le in Hm. rewrite <- pow2_IZR in Hm by lia.
    assert (pow2 (- e) * pow2 e = 1)%R.
    { rewrite <- pow2_add. replace (- e + e) with 0 by lia. apply pow2_0. }
    nra.
Qed.

(** [int(screen_factor * float(D))] lies between [0] and [D]. *)
Lemma scaled_dim sf D :
  factor_ok sf -> dim_ok D ->
  exists fd p, Py.float_of_int D = Ok fd /\
               Py.int_of_float (Py.fmul sf fd) = Ok p /\
               Py.floor (Py.fmul sf fd) = Ok p /\ 0 <= p <= D.
Proof.
  intros Hsf HD. destruct (factor_ok_mag sf Hsf) as [Hn [Hs1 Hs2]].
  pose proof (dim_ok_IZR D HD) as [HD1 HD2].
  destruct (float_of_int_exact D) as (fd & Hfd & _ & Hfn & Hfm).
  { unfold dim_ok in HD. lia. }
  pose proof (fmul_frounds sf fd Hn Hfn) as Hr. rewrite Hfm in Hr.
  pose proof pow2_31_53. pose proof pow2_53_1023.
  assert (Hv : (Fmag sf * IZR D <= IZR D)%R) by nra.
  destruct (op_int _ _ Hr ltac:(lra)) as (p & Hp1 & Hp2 & Hp3 & Hp4 & _).
  destruct (op_int_mono _ _ p Hr ltac:(lra) Hp4 D) as [_ Hle].
  exists fd, p. repeat split; try assumption. apply Hle. assumption.
Qed.

Lemma pow2_neg n : pow2 (- n) = (/ pow2 n)%R.
Proof. unfold pow2. apply powerRZ_neg'. Qed.

Lemma pow2_m53 : pow2 (-53) = (/ 9007199254740992)%R.
Proof. change (-53) with (- (53)). rewrite pow2_neg, pow2_IZR by lia. reflexivity. Qed.

Lemma pow2_31 : pow2 31 = 2147483648%R.
Proof. rewrite pow2_IZR by lia. reflexivity. Qed.

Lemma pow2_53 : pow2 53 = 9007199254740992%R.
Proof. rewrite pow2_IZR by lia. reflexivity. Qed.

Lemma pow2_m32 : pow2 (-32) = (/ 4294967296)%R.
Proof. change (-32) with (- (32)). rewrite pow2_neg, pow2_IZR by lia. reflexivity. Qed.

Lemma pow2_m1022_le : (pow2 (-1022) <= pow2 (-32))%R.
Proof. apply pow2_le. lia. Qed.

Lemma pow2_m1074_le : (pow2 (-1074) <= pow2 (-32))%R.
Proof. apply pow2_le. lia. Qed.

Lemma pow2_64_1023 : (pow2 64 < pow2 1023)%R.
Proof. apply pow2_lt. lia. Qed.

Lemma pow2_64 : pow2 64 = 18446744073709551616%R.
Proof. rewrite pow2_IZR by lia. reflexivity. Qed.

Lemma Rabs_bounds x v d : (Rabs (x - v) <= d)%R -> (v - d <= x <= v + d)%R.
Proof. intros H. unfold Rabs in H. destruct (Rcase_abs (x - v)); lra. Qed.

(** The aspect ratio [float(w) / float(h)] of a well-formed image. *)
Lemma aspect_ratio h w :
  dim_ok h -> dim_ok w ->
  exists fw fh ar,
    Py.float_of_int w = Ok fw /\ Py.float_of_int h = Ok fh /\
    Py.truediv fw fh = Ok ar /\
    fnonneg fw /\ Fmag fw = IZR w /\ fnonneg ar /\
    frounds (IZR w / IZR h) ar /\
    (pow2 (-32) <= Fmag ar)%R /\
    (IZR w / IZR h * (1 - pow2 (-53)) <= Fmag ar <= IZR w / IZR h * (1 + pow2 (-53)))%R.
Proof.
  intros Hh Hw.
  pose proof (dim_ok_IZR h Hh) as [Hh1 Hh2]. pose proof (dim_ok_IZR w Hw) as [Hw1 Hw2].
  destruct (float_of_int_exact w) as (fw & Hfw & _ & Hwn & Hwm); [unfold dim_ok in Hw; lia|].
  destruct (float_of_int_exact h) as (fh & Hfh & _ & Hhn & Hhm); [unfold dim_ok in Hh; lia|].
  destruct (truediv_frounds fw fh Hwn Hhn) as [Hd Hr]; [rewrite Hhm; lra|].
  rewrite Hwm, Hhm in Hr.
  set (a := (IZR w / IZR h)%R) in *.
  assert (Ha : (a * IZR h = IZR w)%R) by (unfold a; field; lra).
  rewrite pow2_31 in *.
  assert (Ha1 : (/ 2147483648 <= a)%R).
  { apply Rmult_le_reg_r with (IZR h); [lra|]. rewrite Ha.
    apply Rle_trans with (/ 2147483648 * 2147483648)%R; [|rewrite Rinv_l; lra].
    apply Rmult_le_compat_l; lra. }
  assert (Ha2 : (a < 2147483648)%R).
  { apply Rmult_lt_reg_r with (IZR h); [lra|]. rewrite Ha. nra. }
  pose proof pow2_m1022_le. pose proof pow2_53_1023. rewrite pow2_m32, pow2_53 in *.
  assert (Hhi : (a < pow2 1023)%R) by lra.
  assert (Hlo : (a = 0 \/ pow2 (-1022) <= a)%R) by (right; lra).
  pose proof (frounds_rel_err a _ Hr Hlo Hhi) as Herr.
  apply Rabs_bounds in Herr.
  pose proof (frounds_fnonneg a _ Hr Hhi) as Hn.
  exists fw, fh, (Py.fdiv fw fh). repeat (split; [assumption|]).
  rewrite pow2_m53 in *. split; [nra|lra].
Qed.

Lemma small_float p :
  0 <= p < 2 ^ 31 ->
  exists fp, Py.float_of_int p = Ok fp /\ fnonneg fp /\ Fmag fp = IZR p /\
             (0 <= IZR p < pow2 31)%R.
Proof.
  intros Hp. destruct (float_of_int_exact p) as (fp & H1 & _ & H2 & H3); [lia|].
  exists fp. repeat (split; [assumption|]).
  split; [apply IZR_le; lia|apply IZR_lt_pow2; lia].
Qed.

(** [int(float(p) / ar)] *)
Lemma quotient_int p ar :
  0 <= p < 2 ^ 31 -> fnonneg ar -> (pow2 (-32) <= Fmag ar)%R ->
  exists fp z,
    Py.float_of_int p = Ok fp /\ Py.truediv fp ar = Ok (Py.fdiv fp ar) /\
    Py.int_of_float (Py.fdiv fp ar) = Ok z /\ Py.floor (Py.fdiv fp ar) = Ok z /\
    0 <= z /\ frounds (IZR p / Fmag ar) (Py.fdiv fp ar) /\
    (IZR z <= Fmag (Py.fdiv fp ar) < IZR z + 1)%R /\
    (IZR p / Fmag ar < pow2 1023)%R.
Proof.
  intros Hp Har HA. destruct (small_float p Hp) as (fp & Hfp & Hn & Hm & Hp1 & Hp2).
  pose proof (pow2_pos (-32)) as H32.
  destruct (truediv_frounds fp ar Hn Har ltac:(lra)) as [Hd Hr]. rewrite Hm in Hr.
  assert (Hv : (IZR p / Fmag ar < pow2 1023)%R).
  { apply Rlt_trans with (pow2 64); [|apply pow2_64_1023].
    rewrite pow2_64. rewrite pow2_31 in Hp2. rewrite pow2_m32 in HA, H32.
    apply Rmult_lt_reg_r with (Fmag ar); [lra|].
    unfold Rdiv. rewrite Rmult_assoc, Rinv_l by lra. nra. }
  destruct (op_int _ _ Hr Hv) as (z & Hz1 & Hz2 & Hz3 & Hz4 & _).
  exists fp, z. repeat (split; [assumption|]). assumption.
Qed.

(** [int(float(p) * ar)] *)
Lemma product_int p ar :
  0 <= p < 2 ^ 31 -> fnonneg ar -> (Fmag ar <= pow2 32)%R ->
  exists fp z,
    Py.float_of_int p = Ok fp /\
    Py.int_of_float (Py.fmul fp ar) = Ok z /\ Py.floor (Py.fmul fp ar) = Ok z /\
    0 <= z /\ frounds (IZR p * Fmag ar) (Py.fmul fp ar) /\
    (IZR z <= Fmag (Py.fmul fp ar) < IZR z + 1)%R.
Proof.
  intros Hp Har HA. destruct (small_float p Hp) as (fp & Hfp & Hn & Hm & Hp1 & Hp2).
  pose proof (fmul_frounds fp ar Hn Har) as Hr. rewrite Hm in Hr.
  pose proof (Fmag_nonneg ar) as H0.
  assert (Hv : (IZR p * Fmag ar < pow2 1023)%R).
  { apply Rle_lt_trans with (pow2 (31 + 32)); [|apply pow2_lt; lia].
    rewrite pow2_add. apply Rmult_le_compat; lra. }
  destruct (op_int _ _ Hr Hv) as (z & Hz1 & Hz2 & Hz3 & Hz4 & _).
  exists fp, z. repeat (split; [assumption|]). assumption.
Qed.

(** [int(float(p) / float(w))] is the integer quotient. *)
Lemma factor_exact p w fw :
  0 <= p < 2 ^ 31 -> dim_ok w ->
  Py.float_of_int w = Ok fw ->
  exists fp, Py.float_of_int p = Ok fp /\ Py.truediv fp fw = Ok (Py.fdiv fp fw) /\
             Py.int_of_float (Py.fdiv fp fw) = Ok (p / w).
Proof.
  intros Hp Hw Hfw. destruct (small_float p Hp) as (fp & Hfp & Hn & Hm & Hp1 & Hp2).
  destruct (float_of_int_exact w) as (fw' & Hfw' & _ & Hwn & Hwm); [unfold dim_ok in Hw; lia|].
  rewrite Hfw in Hfw'. injection Hfw' as <-.
  pose proof (dim_ok_IZR w Hw) as [Hw1 Hw2].
  destruct (truediv_frounds fp fw Hn Hwn ltac:(rewrite Hwm; lra)) as [Hd Hr].
  rewrite Hm, Hwm in Hr.
  set (v := (IZR p / IZR w)%R) in *.
  assert (Hv : (v * IZR w = IZR p)%R) by (unfold v; field; lra).
  rewrite pow2_31 in *.
  assert (Hv0 : (0 <= v)%R) by (unfold v; apply Rle_mult_inv_pos; lra).
  assert (Hv1 : (v < 2147483648)%R) by nra.
  pose proof pow2_53_1023 as H1023. rewrite pow2_53 in H1023.
  destruct (op_int _ _ Hr ltac:(lra)) as (z & Hz1 & _ & Hz3 & Hz4 & _).
  exists fp. repeat (split; [assumption|]). rewrite Hz1. f_equal.
  (* the quotient *)
  assert (Hwpos : 0 < w) by (unfold dim_ok in Hw; lia).
  pose proof (Z.div_mod p w ltac:(lia)) as Hdm.
  pose proof (Z.mod_pos_bound p w Hwpos) as Hmod.
  set (N := p / w) in *.
  assert (HN0 : 0 <= N) by (apply Z.div_pos; lia).
  assert (HN1 : (IZR N * IZR w <= IZR p)%R).
  { rewrite <- mult_IZR. apply IZR_le. lia. }
  assert (HN2 : (IZR p + 1 <= (IZR N + 1) * IZR w)%R).
  { rewrite <- (plus_IZR N 1), <- mult_IZR, <- (plus_IZR p 1). apply IZR_le. lia. }
  assert (HNv : (IZR N <= v)%R).
  { apply Rmult_le_reg_r with (IZR w); [lra|]. lra. }
  destruct (op_int_mono _ _ z Hr ltac:(rewrite pow2_53; lra) Hz4 N) as [Hge _].
  specialize (Hge HNv).
  assert (Hlo : (v = 0 \/ pow2 (-1022) <= v)%R).
  { destruct (Z.eq_dec p 0) as [->|Hne].
    - left. unfold v. unfold Rdiv. ring.
    - right. pose proof pow2_m1022_le. rewrite pow2_m32 in *.
      assert (1 <= IZR p)%R by (apply IZR_le; lia).
      apply Rle_trans with (/ 2147483648)%R; [lra|].
      apply Rmult_le_reg_r with (IZR w); [lra|]. rewrite Hv.
      apply Rle_trans with (/ 2147483648 * 2147483648)%R; [|rewrite Rinv_l; lra].
      apply Rmult_le_compat_l; lra. }
  pose proof (frounds_rel_err v _ Hr Hlo ltac:(lra)) as Herr.
  apply Rabs_bounds in Herr. rewrite pow2_m53 in Herr.
  assert (Hlt : (IZR z < IZR (N + 1))%R).
  { rewrite plus_IZR.
    assert (Fmag (Py.fdiv fp fw) * IZR w < (IZR N + 1) * IZR w)%R; [|nra].
    assert (Fmag (Py.fdiv fp fw) * IZR w <= IZR p + IZR p / 9007199254740992)%R by nra.
    lra. }
  apply lt_IZR in Hlt. lia.
Qed.

Section FitAnalysis.

Variables (h w H W : Z) (sf : Py.float) (tol : pynum).
Hypothesis Hh : dim_ok h.
Hypothesis Hw : dim_ok w.
Hypothesis HH : dim_ok H.
Hypothesis HW : dim_ok W.
Hypothesis Hsf : factor_ok sf.

Lemma fit_plan_ok :
  exists pw0 ph1 ph pw : Z,
    scaled_frame sf W = Ok pw0 /\ scaled_frame sf H = Ok ph1 /\
    fit_plan (h, w) (H, W) sf tol = Ok (plan_for w tol ph pw) /\
    spec_destination (h, w) (H, W) sf = Ok (ph, pw) /\
    0 <= ph <= H /\ 0 <= pw <= W /\
    ((pw = pw0 /\ (w <= pw0 * h -> 1 <= ph)) \/
     (ph = ph1 /\ (h < ph1 * w -> 1 <= pw))).
Proof.
  destruct (aspect_ratio h w Hh Hw)
    as (fw & fh & ar & Hfw & Hfh & Har & Hwn & Hwm & Harn & Harr & HA32 & HA1 & HA2).
  destruct (scaled_dim sf W Hsf HW) as (fdw & pw0 & Hfdw & Hpw0 & Hpw0' & Hpw0r).
  destruct (scaled_dim sf H Hsf HH) as (fdh & ph1 & Hfdh & Hph1 & Hph1' & Hph1r).
  pose proof (dim_ok_IZR h Hh) as [Hh1 Hh2]. pose proof (dim_ok_IZR w Hw) as [Hw1 Hw2].
  pose proof (dim_ok_IZR H HH) as [HH1 HH2]. pose proof (dim_ok_IZR W HW) as [HW1 HW2].
  assert (HWlt : W < 2 ^ 31) by (unfold dim_ok in HW; lia).
  assert (HHlt : H < 2 ^ 31) by (unfold dim_ok in HH; lia).
  set (a := (IZR w / IZR h)%R) in *. set (A := Fmag ar) in *.
  assert (Ha : (a * IZR h = IZR w)%R) by (unfold a; field; lra).
  pose proof (pow2_pos (-32)) as H32. pose proof (pow2_pos (-53)) as H53.
  assert (HApos : (0 < A)%R) by lra.
  assert (Ha31 : (a < pow2 31)%R).
  { apply Rmult_lt_reg_r with (IZR h); [lra|]. rewrite Ha. pose proof (pow2_pos 31). nra. }
  assert (Hu : (pow2 (-53) <= 1)%R).
  { change 1%R with (pow2 0). apply pow2_le. lia. }
  assert (HA32' : (A <= pow2 32)%R).
  { change 32 with (31 + 1). rewrite pow2_succ. pose proof (pow2_pos 31). nra. }
  destruct (quotient_int pw0 ar ltac:(lia) Harn HA32)
    as (fpw & ph0 & Hfpw & Hq0 & Hph0 & Hph0' & Hph0p & Hq0r & Hph0r & Hv0hi).
  destruct (product_int ph1 ar ltac:(lia) Harn HA32')
    as (fph & pw1 & Hfph & Hpw1 & Hpw1' & Hpw1p & Hp1r & Hpw1r).
  fold A in Hq0r, Hp1r, Hv0hi.
  set (v0 := (IZR pw0 / A)%R) in *. set (v1 := (IZR ph1 * A)%R) in *.
  assert (Hv0 : (v0 * A = IZR pw0)%R) by (unfold v0; field; lra).
  pose proof pow2_31_53 as H3153.
  assert (Hpw0R : (0 <= IZR pw0 <= IZR W)%R) by (split; apply IZR_le; lia).
  assert (Hph1R : (0 <= IZR ph1 <= IZR H)%R) by (split; apply IZR_le; lia).
  exists pw0, ph1.
  assert (Hs0 : scaled_frame sf W = Ok pw0).
  { unfold scaled_frame. ok_step Hfdw. exact Hpw0. }
  assert (Hs1 : scaled_frame sf H = Ok ph1).
  { unfold scaled_frame. ok_step Hfdh. exact Hph1. }
  destruct (Z.leb_spec ph0 H) as [Hle|Hgt].
  - (* width first *)
    exists ph0, pw0.
    destruct (factor_exact pw0 w fw ltac:(lia) Hw Hfw) as (fa & Hfa & Hdiv & Hfac).
    split; [exact Hs0|]. split; [exact Hs1|]. split; [|split; [|split; [|split]]].
    + unfold fit_plan, Py.mul. cbn [fst snd].
      ok_step Hfw. ok_step Hfh. ok_step Har. ok_step Hfdw. ok_step Hpw0.
      ok_step Hfpw. ok_step Hq0. ok_step Hph0.
      destruct (Z.leb_spec ph0 H) as [_|Hc]; [|lia]. cbn [mbind pyres_mbind pyres_bind fst snd].
      ok_step Hfa. ok_step Hdiv. ok_step Hfac.
      unfold plan_for. destruct (pw0 <=? w); reflexivity.
    + unfold spec_destination. cbn [fst snd].
      ok_step Hfw. ok_step Hfh. ok_step Har. ok_step Hfdw. ok_step Hpw0'.
      ok_step Hfpw. ok_step Hq0. ok_step Hph0'.
      destruct (decide (ph0 ≤ H)) as [_|Hc]; [reflexivity|lia].
    + lia.
    + lia.
    + left. split; [reflexivity|]. intros Hwide.
      assert (HaN : (a <= IZR pw0)%R).
      { apply Rmult_le_reg_r with (IZR h); [lra|]. rewrite Ha, <- mult_IZR.
        apply IZR_le. exact Hwide. }
      destruct (frounds_int_mono a ar Harr ltac:(lra) pw0) as [_ HAN].
      specialize (HAN HaN). fold A in HAN.
      assert (Hv0ge : (1 <= v0)%R).
      { apply Rmult_le_reg_r with A; [lra|]. rewrite Hv0. lra. }
      destruct (Rlt_le_dec v0 (pow2 53)) as [Hsmall|Hbig].
      * destruct (op_int_mono v0 _ ph0 Hq0r Hsmall Hph0r 1) as [Hge _]. apply Hge. exact Hv0ge.
      * assert (Hlo : (v0 = 0 \/ pow2 (-1022) <= v0)%R).
        { right. apply Rle_trans with 1%R; [|exact Hv0ge].
          change 1%R with (pow2 0). apply pow2_le. lia. }
        pose proof (frounds_rel_err v0 _ Hq0r Hlo Hv0hi) as Herr.
        apply Rabs_bounds in Herr. rewrite pow2_m53 in Herr. rewrite pow2_53 in Hbig.
        assert (1 < IZR ph0 + 1)%R by lra.
        assert (IZR 0 < IZR ph0)%R by (simpl; lra).
        apply lt_IZR in H1. lia.
  - (* height first *)
    assert (Hv0H : (IZR H < v0)%R).
    { destruct (Rlt_le_dec (IZR H) v0) as [|Hc]; [assumption|exfalso].
      destruct (op_int_mono v0 _ ph0 Hq0r ltac:(lra) Hph0r H) as [_ Hle]. specialize (Hle Hc). lia. }
    assert (HHA : (IZR H * A < IZR pw0)%R) by (rewrite <- Hv0; nra).
    assert (Hv1lt : (v1 < IZR pw0)%R) by (unfold v1; nra).
    assert (Hpw1le : pw1 <= pw0).
    { destruct (op_int_mono v1 _ pw1 Hp1r ltac:(lra) Hpw1r pw0) as [_ Hle]. apply Hle. lra. }
    exists ph1, pw1.
    destruct (factor_exact pw1 w fw ltac:(lia) Hw Hfw) as (fa & Hfa & Hdiv & Hfac).
    split; [exact Hs0|]. split; [exact Hs1|]. split; [|split; [|split; [|split]]].
    + unfold fit_plan, Py.mul. cbn [fst snd].
      ok_step Hfw. ok_step Hfh. ok_step Har. ok_step Hfdw. ok_step Hpw0.
      ok_step Hfpw. ok_step Hq0. ok_step Hph0.
      destruct (Z.leb_spec ph0 H) as [Hc|_]; [lia|].
      ok_step Hfdh. ok_step Hph1. ok_step Hfph. ok_step Hpw1. cbn [fst snd].
      ok_step Hfa. ok_step Hdiv. ok_step Hfac.
      unfold plan_for. destruct (pw1 <=? w); reflexivity.
    + unfold spec_destination. cbn [fst snd].
      ok_step Hfw. ok_step Hfh. ok_step Har. ok_step Hfdw. ok_step Hpw0'.
      ok_step Hfpw. ok_step Hq0. ok_step Hph0'.
      destruct (decide (ph0 ≤ H)) as [Hc|_]; [lia|].
      ok_step Hfdh. ok_step Hph1'. ok_step Hfph. ok_step Hpw1'. reflexivity.
    + lia.
    + lia.
    + right. split; [reflexivity|]. intros Htall.
      assert (HR : (IZR h + 1 <= IZR ph1 * IZR w)%R).
      { rewrite <- mult_IZR, <- plus_IZR. apply IZR_le. lia. }
      destruct (op_int_mono v1 _ pw1 Hp1r ltac:(lra) Hpw1r 1) as [Hge _]. apply Hge.
      apply Rmult_le_reg_r with (IZR h); [lra|].
      rewrite pow2_m53, pow2_31 in *.
      assert (IZR w * (1 - / 9007199254740992) <= A * IZR h)%R.
      { rewrite <- Ha. nra. }
      unfold v1. nra.
Qed.

End FitAnalysis.

(** * Centring offsets *)

Lemma two_float : Py.float_of_int64 2 = S754_finite false 4503599627370496 (-51).
Proof. reflexivity. Qed.

Lemma Fmag_two : Fmag (Py.float_of_int64 2) = 2%R.
Proof.
  rewrite two_float. simpl. change (-51) with (- (51)). rewrite pow2_neg, pow2_IZR by lia.
  change (2 ^ 51) with 2251799813685248.
  change 4503599627370496 with (2 * 2251799813685248). rewrite mult_IZR. field.
Qed.

Lemma rounded_sign s v r :
  (pow2 (-1074) <= v)%R -> (v < pow2 1023)%R -> rounded s v r ->
  exists m e, r = S754_finite s m e /\ bounded Py.prec Py.emax m e = true.
Proof.
  intros Hlo Hhi Hr. destruct (rounded_nonzero s v r Hlo Hhi Hr) as (m & e & ->).
  exists m, e. split; [reflexivity|].
  assert (Hv : (0 < v)%R) by (pose proof (pow2_pos (-1074)); lra).
  destruct (mag_exists v Hv) as [g Hg]. specialize (Hr g Hg). simpl in Hr. tauto.
Qed.

(** [int(d / 2)] for an [int64] array element [d]: the quotient truncated
    toward zero. *)
Lemma half_trunc d :
  - 2 ^ 53 < d < 2 ^ 53 ->
  Py.int_of_float (Py.fdiv (Py.float_of_int64 d) (Py.float_of_int64 2)) = Ok (Z.quot d 2).
Proof.
  intros Hd. destruct d as [|p|p].
  - reflexivity.
  - (* positive *)
    destruct (float_of_int_exact (Z.pos p) ltac:(lia)) as (fd & _ & Hfd & Hn & Hm).
    destruct (float_of_int_exact 2 ltac:(lia)) as (f2 & _ & Hf2 & Hn2 & Hm2).
    rewrite Hfd, Hf2.
    pose proof (fdiv_frounds fd f2 Hn Hn2 ltac:(rewrite Hm2; lra)) as Hr.
    rewrite Hm, Hm2 in Hr.
    assert (Hhi : (IZR (Z.pos p) / 2 < pow2 1023)%R).
    { assert (IZR (Z.pos p) < pow2 53)%R by (apply IZR_lt_pow2; lia).
      pose proof pow2_53_1023. assert (0 < IZR (Z.pos p))%R by (apply IZR_lt; lia). lra. }
    assert (Hex : Fmag (Py.fdiv fd f2) = (IZR (Z.pos p) / 2)%R).
    { apply (frounds_exact _ _ (Z.pos p) (-1)); try assumption; try lia.
      change (-1) with (0 - 1). rewrite pow2_pred, pow2_0. lra. }
    destruct (int_of_frounds _ _ Hr Hhi) as (z & Hz1 & Hz2 & Hz3).
    rewrite Hz1. f_equal. rewrite Hex in Hz3.
    assert (H1 : (IZR (2 * z) <= IZR (Z.pos p))%R) by (rewrite mult_IZR; lra).
    assert (H2 : (IZR (Z.pos p) < IZR (2 * z + 2))%R) by (rewrite plus_IZR, mult_IZR; lra).
    apply le_IZR in H1. apply lt_IZR in H2.
    rewrite Z.quot_div_nonneg by lia. apply Z.div_unique with (Z.pos p - 2 * z); lia.
  - (* negative *)
    unfold Py.float_of_int64 at 1. simpl binary_normalize.
    pose proof (binary_round_rounded true p 0) as Hr0. rewrite pow2_0, Rmult_1_r in Hr0.
    assert (Hp1 : (1 <= IZR (Z.pos p))%R) by (apply IZR_le; lia).
    assert (Hp2 : (IZR (Z.pos p) < pow2 53)%R) by (apply IZR_lt_pow2; lia).
    pose proof pow2_53_1023 as H1023.
    assert (Hlo : (pow2 (-1074) <= 1)%R) by (change 1%R with (pow2 0); apply pow2_le; lia).
    assert (Hlo' : (pow2 (-1074) <= IZR (Z.pos p))%R) by lra.
    assert (Hhi' : (IZR (Z.pos p) < pow2 1023)%R) by lra.
    destruct (rounded_sign _ _ _ Hlo' Hhi' Hr0) as (m & e & Hfd & Hb).
    assert (Hm : (IZR (Z.pos m) * pow2 e = IZR (Z.pos p))%R).
    { change (IZR (Z.pos m) * pow2 e)%R with (Fmag (S754_finite true m e)). rewrite <- Hfd.
      apply (rounded_exact true _ _ (Z.pos p) 0); try assumption; try lia.
      rewrite pow2_0. ring. }
    rewrite Hfd, two_float.
    pose proof (SFdiv_rounded true m e false 4503599627370496 (-51)) as Hr.
    change (IZR (Z.pos 4503599627370496) * pow2 (-51))%R
      with (Fmag (S754_finite false 4503599627370496 (-51))) in Hr.
    rewrite <- two_float, Fmag_two, Hm in Hr. rewrite two_float in Hr.
    cbn [xorb] in Hr. fold (Py.fdiv (S754_finite true m e) (S754_finite false 4503599627370496 (-51))) in Hr.
    set (q := Py.fdiv (S754_finite true m e) (S754_finite false 4503599627370496 (-51))) in *.
    assert (Hhalf : (pow2 (-1074) <= IZR (Z.pos p) / 2)%R).
    { apply Rle_trans with (pow2 (-1)); [apply pow2_le; lia|].
      change (-1) with (0 - 1). rewrite pow2_pred, pow2_0. lra. }
    assert (Hhhi : (IZR (Z.pos p) / 2 < pow2 1023)%R) by lra.
    destruct (rounded_sign _ _ _ Hhalf Hhhi Hr) as (mq & eq & Hq & _).
    assert (Hex : Fmag q = (IZR (Z.pos p) / 2)%R).
    { apply (rounded_exact true _ _ (Z.pos p) (-1)); try assumption; try lia.
      change (-1) with (0 - 1). rewrite pow2_pred, pow2_0. lra. }
    destruct (int_of_float_floor q) as (z & Hz1 & Hz2 & Hz3); [rewrite Hq; exact I|].
    rewrite Hz1. f_equal. rewrite Hex in Hz3. rewrite Hq. cbn [Fsign cond_Zopp].
    assert (H1 : (IZR (2 * z) <= IZR (Z.pos p))%R) by (rewrite mult_IZR; lra).
    assert (H2 : (IZR (Z.pos p) < IZR (2 * z + 2))%R) by (rewrite plus_IZR, mult_IZR; lra).
    apply le_IZR in H1. apply lt_IZR in H2.
    change (Z.neg p) with (- Z.pos p). rewrite Z.quot_opp_l by lia. f_equal.
    rewrite Z.quot_div_nonneg by lia. apply Z.div_unique with (Z.pos p - 2 * z); lia.
Qed.

Lemma int64_ok_small z : - 2 ^ 62 < z < 2 ^ 62 -> int64_ok z = true.
Proof.
  intros Hz. unfold int64_ok. apply andb_true_intro. split.
  - apply Z.leb_le. lia.
  - apply Z.ltb_lt. lia.
Qed.

Lemma wrap64_small z : - 2 ^ 63 <= z < 2 ^ 63 -> wrap64 z = z.
Proof. intros Hz. unfold wrap64. rewrite Z.mod_small; lia. Qed.

(** The offsets of [add_pip_vars] in closed form. *)
Lemma pip_of_ok H W ph pw :
  px_ok H -> px_ok W -> px_ok ph -> px_ok pw ->
  pip_of (H, W) (ph, pw) =
  Ok {| x1 := Z.quot (W - pw) 2; x2 := Z.quot (W - pw) 2 + pw;
        y1 := Z.quot (H - ph) 2; y2 := Z.quot (H - ph) 2 + ph |}.
Proof.
  unfold px_ok. intros HH HW Hph Hpw.
  unfold pip_of, np_check_shape, np_asarray, np_half, np_sub. cbn [fst snd].
  rewrite (proj2 (Z.ltb_ge H 0)), (proj2 (Z.ltb_ge W 0)) by lia.
  cbn [orb mbind pyres_mbind pyres_bind]. rewrite !int64_ok_small by lia. cbn [andb mbind pyres_mbind pyres_bind fst snd].
  rewrite !wrap64_small by lia. rewrite !half_trunc by lia.
  cbn [mbind pyres_mbind pyres_bind]. reflexivity.
Qed.

(** * The canvas *)

Lemma is_image_shape a h w c :
  is_image a h w c -> 0 < h -> 0 < w -> shape a = (h, w, c).
Proof.
  intros [Hl Hrows] Hh Hw. unfold shape.
  destruct a as [|row a]; [simpl in Hl; lia|].
  apply Forall_cons in Hrows. destruct Hrows as [[Hr Hpx] _]. cbn [hd].
  destruct row as [|px row]; [simpl in Hr; lia|].
  apply Forall_cons in Hpx. destruct Hpx as [Hp _]. cbn [hd].
  rewrite Hl, Hr, Hp. reflexivity.
Qed.

Lemma is_image_np_full h w c v :
  0 <= h -> 0 <= w -> 0 <= c -> is_image (np_full h w c v) h w c.
Proof.
  intros Hh Hw Hc. unfold is_image, np_full. split.
  - rewrite length_replicate. lia.
  - apply Forall_replicate. split.
    + rewrite length_replicate. lia.
    + apply Forall_replicate. rewrite length_replicate. lia.
Qed.

Lemma pixel_np_full h w c v y x :
  0 <= y < h -> 0 <= x < w ->
  pixel (np_full h w c v) y x = Some (replicate (Z.to_nat c) (v mod 256)).
Proof.
  intros Hy Hx. unfold pixel, np_full.
  rewrite (proj2 (Z.leb_le 0 y)), (proj2 (Z.leb_le 0 x)) by lia. cbn [andb].
  rewrite lookup_replicate_2 by lia. cbn [mbind option_bind].
  rewrite lookup_replicate_2 by lia. reflexivity.
Qed.

Lemma slice_bound_in len i : 0 <= i <= len -> slice_bound len i = i.
Proof.
  intros Hi. unfold slice_bound. destruct (Z.ltb_spec i 0); lia.
Qed.

(** Pasting changes no pixel outside the (normalised) slice. *)
Lemma np_setslice_outside canvas ya yb xa xb src out :
  np_setslice canvas ya yb xa xb src = Ok out ->
  forall y x,
    ~ (slice_bound (shape canvas).1.1 ya <= y < slice_bound (shape canvas).1.1 yb /\
       slice_bound (shape canvas).1.2 xa <= x < slice_bound (shape canvas).1.2 xb) ->
    pixel out y x = pixel canvas y x.
Proof.
  unfold np_setslice. destruct (shape canvas) as [[H W] C]. destruct (shape src) as [[sh sw] sc].
  cbn [fst snd].
  destruct (broadcasts sh _ && broadcasts sw _ && broadcasts sc C); [|discriminate].
  intros Hout y x Hn. injection Hout as <-. unfold pixel.
  destruct ((0 <=? y) && (0 <=? x)) eqn:Hpos; [|reflexivity].
  apply andb_true_iff in Hpos. destruct Hpos as [Hy Hx].
  apply Z.leb_le in Hy, Hx.
  rewrite list_lookup_imap. destruct (canvas !! Z.to_nat y) as [row|]; [|reflexivity].
  cbn [fmap option_fmap option_map mbind option_bind].
  rewrite list_lookup_imap. destruct (row !! Z.to_nat x) as [px|]; [|reflexivity].
  cbn [fmap option_fmap option_map]. rewrite !Z2Nat.id by lia.
  match goal with |- Some (if ?b then _ else _) = _ => destruct b eqn:Hb end; [|reflexivity].
  exfalso. apply Hn. rewrite !andb_true_iff in Hb.
  destruct Hb as [[[H1 H2] H3] H4].
  apply Z.leb_le in H1, H3. apply Z.ltb_lt in H2, H4. lia.
Qed.

Lemma np_setslice_is_image canvas ya yb xa xb src out H W C :
  np_setslice canvas ya yb xa xb src = Ok out ->
  is_image canvas H W C -> is_image src (yb - ya) (xb - xa) C ->
  0 <= ya -> yb <= H -> 0 <= xa -> xb <= W -> 0 < yb - ya -> 0 < xb - xa ->
  is_image out H W C.
Proof.
  intros Hout Hc Hs Hya Hyb Hxa Hxb Hh Hw.
  pose proof (is_image_shape _ _ _ _ Hc ltac:(lia) ltac:(lia)) as Hsc.
  pose proof (is_image_shape _ _ _ _ Hs Hh Hw) as Hss.
  unfold np_setslice in Hout. rewrite Hsc, Hss in Hout.
  rewrite !slice_bound_in in Hout by lia.
  destruct (broadcasts _ _ && broadcasts _ _ && broadcasts C C); [|discriminate].
  injection Hout as <-. destruct Hc as [Hl Hrows]. split.
  - rewrite length_imap. exact Hl.
  - apply Forall_lookup. intros i row' Hi. rewrite list_lookup_imap in Hi.
    destruct (canvas !! i) as [row|] eqn:Hrow; [|discriminate]. injection Hi as <-.
    pose proof (proj1 (Forall_lookup _ _) Hrows i row Hrow) as [Hrl Hrp].
    split; [rewrite length_imap; exact Hrl|].
    apply Forall_lookup. intros j px' Hj. rewrite list_lookup_imap in Hj.
    destruct (row !! j) as [px|] eqn:Hpx; [|discriminate]. injection Hj as <-.
    pose proof (proj1 (Forall_lookup _ _) Hrp j px Hpx) as Hpl.
    match goal with
    | |- context [if (?a && ?b && ?c && ?d) then _ else _] =>
        destruct (a && b && c && d) eqn:Hb
    end; [|exact Hpl].
    rewrite !andb_true_iff in Hb. destruct Hb as [[[H1 H2] H3] H4].
    apply Z.leb_le in H1, H3. apply Z.ltb_lt in H2, H4.
    destruct Hs as [Hsl Hsrows].
    assert (Hne1 : (yb - ya =? 1) = true -> Z.of_nat i - ya = 0) by (intros E; apply Z.eqb_eq in E; lia).
    assert (Hne2 : (xb - xa =? 1) = true -> Z.of_nat j - xa = 0) by (intros E; apply Z.eqb_eq in E; lia).
    unfold bcast_index.
    set (ii := if yb - ya =? 1 then 0%nat else Z.to_nat (Z.of_nat i - ya)).
    set (jj := if xb - xa =? 1 then 0%nat else Z.to_nat (Z.of_nat j - xa)).
    assert (Hii : (ii < length src)%nat) by (unfold ii; destruct (yb - ya =? 1); lia).
    destruct (lookup_lt_is_Some_2 src ii Hii) as [srow Hsrow].
    rewrite (nth_lookup_Some _ _ _ _ Hsrow).
    pose proof (proj1 (Forall_lookup _ _) Hsrows ii srow Hsrow) as [Hsrl Hsrp].
    assert (Hjj : (jj < length srow)%nat) by (unfold jj; destruct (xb - xa =? 1); lia).
    destruct (lookup_lt_is_Some_2 srow jj Hjj) as [spx Hspx].
    rewrite (nth_lookup_Some _ _ _ _ Hspx).
    pose proof (proj1 (Forall_lookup _ _) Hsrp jj spx Hspx) as Hspl.
    unfold bcast_pixel. destruct (Z.of_nat (length spx) =? 1) eqn:E1; [|exact Hspl].
    rewrite length_replicate. apply Z.eqb_eq in E1. cbv beta in Hspl. lia.
Qed.

Lemma np_setslice_succeeds canvas ya yb xa xb src H W C :
  is_image canvas H W C -> is_image src (yb - ya) (xb - xa) C ->
  0 <= ya -> yb <= H -> 0 <= xa -> xb <= W -> 0 < yb - ya -> 0 < xb - xa ->
  exists out, np_setslice canvas ya yb xa xb src = Ok out.
Proof.
  intros Hc Hs Hya Hyb Hxa Hxb Hh Hw.
  pose proof (is_image_shape _ _ _ _ Hc ltac:(lia) ltac:(lia)) as Hsc.
  pose proof (is_image_shape _ _ _ _ Hs Hh Hw) as Hss.
  unfold np_setslice. rewrite Hsc, Hss. rewrite !slice_bound_in by lia.
  unfold broadcasts. rewrite !Z.max_r by lia. rewrite !Z.eqb_refl. cbn [orb andb].
  eexists. reflexivity.
Qed.

(** * The claims *)

Lemma screen_factor_ok : factor_ok screen_factor.
Proof.
  unfold factor_ok. vm_compute. repeat split; intros; discriminate.
Qed.

Lemma shape2_image img h w c :
  shape img = (h, w, c) -> shape2 (val_of_imread (Some img)) = Ok (h, w).
Proof. intros Hs. cbn [shape2 val_of_imread]. rewrite Hs. reflexivity. Qed.

Section Planner.

Variables (cv : opencv) (file_path : string) (img : ndarray) (h w c : Z).
Variables (H W : Z) (sf : Py.float) (tol : pynum).
Hypothesis Hread : cv2_imread cv file_path = Some img.
Hypothesis Hshape : shape img = (h, w, c).
Hypothesis Hh : dim_ok h.
Hypothesis Hw : dim_ok w.
Hypothesis HH : dim_ok H.
Hypothesis HW : dim_ok W.
Hypothesis Hsf : factor_ok sf.

(** The plan of a well-formed call, whatever the world it runs in. *)
Lemma planFit_ok w0 :
  exists pw0 ph1 ph pw : Z,
    scaled_frame sf W = Ok pw0 /\ scaled_frame sf H = Ok ph1 /\
    planFit cv file_path (H, W) sf tol w0 = Ok (plan_for w tol ph pw) /\
    spec_destination (h, w) (H, W) sf = Ok (ph, pw) /\
    0 <= ph <= H /\ 0 <= pw <= W /\
    ((pw = pw0 /\ (w <= pw0 * h -> 1 <= ph)) \/
     (ph = ph1 /\ (h < ph1 * w -> 1 <= pw))).
Proof.
  destruct (fit_plan_ok h w H W sf tol Hh Hw HH HW Hsf)
    as (pw0 & ph1 & ph & pw & H1 & H2 & H3 & H4 & H5 & H6 & H7).
  exists pw0, ph1, ph, pw. repeat (split; [assumption|]).
  split; [|repeat (split; [assumption|]); assumption].
  rewrite planFit_pure, Hread, (shape2_image img h w c Hshape). exact H3.
Qed.

End Planner.

Lemma dim_ok_1920 : dim_ok 1920.
Proof. unfold dim_ok. lia. Qed.

Lemma dim_ok_1080 : dim_ok 1080.
Proof. unfold dim_ok. lia. Qed.

Lemma scaled_1080 : scaled_frame screen_factor 1080 = Ok 810.
Proof. vm_compute. reflexivity. Qed.

Lemma scaled_1920 : scaled_frame screen_factor 1920 = Ok 1440.
Proof. vm_compute. reflexivity. Qed.

(** C1 — fit invariant.  With the frame (1920, 1080) and the screen factor
    0.75 of the module, every image of positive height and width gets a
    destination that is at most 1920 high and at most 1080 wide. *)
Theorem destination_fits_frame cv file_path img h w c w0 :
  cv2_imread cv file_path = Some img -> shape img = (h, w, c) ->
  dim_ok h -> dim_ok w ->
  exists p,
    planFit cv file_path ig_defined_res screen_factor scale_tolerance w0 = Ok p /\
    (destinationDimensions p).1 <= ig_defined_res.1 /\
    (destinationDimensions p).2 <= ig_defined_res.2.
Proof.
  intros Hread Hshape Hh Hw. change ig_defined_res with (1920, 1080).
  destruct (planFit_ok cv file_path img h w c 1920 1080 screen_factor scale_tolerance
              Hread Hshape Hh Hw dim_ok_1920 dim_ok_1080 screen_factor_ok w0)
    as (pw0 & ph1 & ph & pw & _ & _ & Hp & _ & Hph & Hpw & _).
  exists (plan_for w scale_tolerance ph pw). split; [exact Hp|].
  cbn [plan_for destinationDimensions fst snd]. lia.
Qed.

Lemma destination_fits_frame_witness :
  cv2_imread (solid_cv 100 100) "meme.jpg" = Some (solid_image 100 100) /\
  shape (solid_image 100 100) = (100, 100, 3) /\ dim_ok 100 /\
  exists p,
    planFit (solid_cv 100 100) "meme.jpg" ig_defined_res screen_factor scale_tolerance
      empty_world = Ok p /\
    (destinationDimensions p).1 <= ig_defined_res.1 /\
    (destinationDimensions p).2 <= ig_defined_res.2.
Proof.
  assert (Hd : dim_ok 100) by (unfold dim_ok; lia).
  split; [reflexivity|]. split; [reflexivity|]. split; [exact Hd|].
  apply (destination_fits_frame (solid_cv 100 100) "meme.jpg" (solid_image 100 100) 100 100 3);
    [reflexivity|reflexivity|exact Hd|exact Hd].
Defined.

(** C2 — the algorithm.  On well-formed inputs the destination that
    [planFit] returns is the one the specification's steps compute: the
    float aspect ratio, the width-first candidate with floors, and the
    height-first fallback when the candidate height exceeds the frame. *)
Theorem destination_as_specified cv file_path img h w c H W sf tol w0 :
  cv2_imread cv file_path = Some img -> shape img = (h, w, c) ->
  dim_ok h -> dim_ok w -> dim_ok H -> dim_ok W -> factor_ok sf ->
  exists p,
    planFit cv file_path (H, W) sf tol w0 = Ok p /\
    spec_destination (h, w) (H, W) sf = Ok (destinationDimensions p).
Proof.
  intros Hread Hshape Hh Hw HH HW Hsf.
  destruct (planFit_ok cv file_path img h w c H W sf tol Hread Hshape Hh Hw HH HW Hsf w0)
    as (pw0 & ph1 & ph & pw & _ & _ & Hp & Hs & _).
  exists (plan_for w tol ph pw). split; [exact Hp|exact Hs].
Qed.

Lemma destination_as_specified_witness :
  cv2_imread (solid_cv 11 9) "meme.jpg" = Some (solid_image 11 9) /\
  shape (solid_image 11 9) = (11, 9, 3) /\
  dim_ok 11 /\ dim_ok 9 /\ dim_ok 1920 /\ dim_ok 1080 /\ factor_ok screen_factor /\
  exists p,
    planFit (solid_cv 11 9) "meme.jpg" (1920, 1080) screen_factor scale_tolerance
      empty_world = Ok p /\
    spec_destination (11, 9) (1920, 1080) screen_factor = Ok (destinationDimensions p).
Proof.
  assert (H11 : dim_ok 11) by (unfold dim_ok; lia).
  assert (H9 : dim_ok 9) by (unfold dim_ok; lia).
  split; [reflexivity|]. split; [reflexivity|].
  split; [exact H11|]. split; [exact H9|].
  split; [exact dim_ok_1920|]. split; [exact dim_ok_1080|]. split; [exact screen_factor_ok|].
  apply (destination_as_specified (solid_cv 11 9) "meme.jpg" (solid_image 11 9) 11 9 3);
    [reflexivity|reflexivity|exact H11|exact H9|exact dim_ok_1920|exact dim_ok_1080
    |exact screen_factor_ok].
Defined.

(** The float aspect ratio matters: for an 11 x 9 source the code, like
    the specification's float steps, yields height 989, where the exact
    quotient 810 * 11 / 9 is 990. *)
Example float_ratio_11_9 :
  spec_destination (11, 9) (1920, 1080) screen_factor = Ok (989, 810) /\
  810 * 11 / 9 = 990.
Proof. split; vm_compute; reflexivity. Qed.

(** C3 — direction and validity.  The plan says Shrink exactly when the
    destination width is at most the source width (equality included), and
    its validity is a boolean exactly when it says Scale; it is None when
    it says Shrink. *)
Theorem direction_and_validity cv file_path img h w c H W sf tol w0 :
  cv2_imread cv file_path = Some img -> shape img = (h, w, c) ->
  dim_ok h -> dim_ok w -> dim_ok H -> dim_ok W -> factor_ok sf ->
  exists p,
    planFit cv file_path (H, W) sf tol w0 = Ok p /\
    (direction p = Shrink <-> (destinationDimensions p).2 <= w) /\
    (isValid p <> None <-> direction p = Scale) /\
    (direction p = Shrink -> isValid p = None).
Proof.
  intros Hread Hshape Hh Hw HH HW Hsf.
  destruct (planFit_ok cv file_path img h w c H W sf tol Hread Hshape Hh Hw HH HW Hsf w0)
    as (pw0 & ph1 & ph & pw & _ & _ & Hp & _).
  exists (plan_for w tol ph pw). split; [exact Hp|].
  cbn [plan_for destinationDimensions direction isValid fst snd].
  destruct (Z.leb_spec pw w) as [Hle|Hgt].
  - repeat split; intros; try lia; try reflexivity; try congruence; try discriminate.
  - repeat split; intros; try lia; try reflexivity; try congruence; try discriminate.
Qed.

Lemma direction_and_validity_witness :
  cv2_imread (solid_cv 100 100) "meme.jpg" = Some (solid_image 100 100) /\
  shape (solid_image 100 100) = (100, 100, 3) /\
  dim_ok 100 /\ dim_ok 1920 /\ dim_ok 1080 /\ factor_ok screen_factor /\
  exists p,
    planFit (solid_cv 100 100) "meme.jpg" (1920, 1080) screen_factor scale_tolerance
      empty_world = Ok p /\
    (direction p = Shrink <-> (destinationDimensions p).2 <= 100) /\
    (isValid p <> None <-> direction p = Scale) /\
    (direction p = Shrink -> isValid p = None).
Proof.
  assert (Hd : dim_ok 100) by (unfold dim_ok; lia).
  split; [reflexivity|]. split; [reflexivity|]. split; [exact Hd|].
  split; [exact dim_ok_1920|]. split; [exact dim_ok_1080|]. split; [exact screen_factor_ok|].
  apply (direction_and_validity (solid_cv 100 100) "meme.jpg" (solid_image 100 100) 100 100 3);
    [reflexivity|reflexivity|exact Hd|exact Hd|exact dim_ok_1920|exact dim_ok_1080
    |exact screen_factor_ok].
Defined.

(** C4 — resize factor.  The resize factor is the integer quotient of the
    destination width by the source width, and a Scale plan is valid
    exactly when that factor is at most the tolerance; a 100 x 100 source
    in the module's configuration gets destination (810, 810), Scale,
    factor 8 and validity false. *)
Theorem resize_factor_and_tolerance cv file_path img h w c H W sf tol w0 :
  cv2_imread cv file_path = Some img -> shape img = (h, w, c) ->
  dim_ok h -> dim_ok w -> dim_ok H -> dim_ok W -> factor_ok sf ->
  (exists p,
     planFit cv file_path (H, W) sf tol w0 = Ok p /\
     resizeFactor p = (destinationDimensions p).2 / w /\
     (direction p = Scale ->
      isValid p = Some (num_le (NInt (resizeFactor p)) tol))) /\
  planFit (solid_cv 100 100) "meme.jpg" ig_defined_res screen_factor scale_tolerance
    empty_world =
  Ok {| destinationDimensions := (810, 810); direction := Scale;
        resizeFactor := 8; isValid := Some false |}.
Proof.
  intros Hread Hshape Hh Hw HH HW Hsf. split.
  - destruct (planFit_ok cv file_path img h w c H W sf tol Hread Hshape Hh Hw HH HW Hsf w0)
      as (pw0 & ph1 & ph & pw & _ & _ & Hp & _).
    exists (plan_for w tol ph pw). split; [exact Hp|].
    cbn [plan_for destinationDimensions direction isValid resizeFactor fst snd].
    split; [reflexivity|]. destruct (pw <=? w); [discriminate|reflexivity].
  - vm_compute. reflexivity.
Qed.

(** A destination one and a half times as wide as the source has factor 1:
    540 x 540 goes to (810, 810), within the tolerance of 2. *)
Example factor_truncates_to_one :
  planFit (solid_cv 540 540) "meme.jpg" ig_defined_res screen_factor scale_tolerance
    empty_world =
  Ok {| destinationDimensions := (810, 810); direction := Scale;
        resizeFactor := 1; isValid := Some true |}.
Proof. vm_compute. reflexivity. Qed.

(** A square source of side 1000 is shrunk: destination (810, 810), no
    validity. *)
Example square_1000_shrinks :
  planFit (solid_cv 1000 1000) "meme.jpg" ig_defined_res screen_factor scale_tolerance
    empty_world =
  Ok {| destinationDimensions := (810, 810); direction := Shrink;
        resizeFactor := 0; isValid := None |}.
Proof. vm_compute. reflexivity. Qed.

Lemma resize_factor_and_tolerance_witness :
  cv2_imread (solid_cv 300 500) "meme.jpg" = Some (solid_image 300 500) /\
  shape (solid_image 300 500) = (300, 500, 3) /\
  dim_ok 300 /\ dim_ok 500 /\ dim_ok 1920 /\ dim_ok 1080 /\ factor_ok screen_factor /\
  exists p,
    planFit (solid_cv 300 500) "meme.jpg" (1920, 1080) screen_factor scale_tolerance
      empty_world = Ok p /\
    resizeFactor p = (destinationDimensions p).2 / 500 /\
    (direction p = Scale ->
     isValid p = Some (num_le (NInt (resizeFactor p)) scale_tolerance)).
Proof.
  assert (H3 : dim_ok 300) by (unfold dim_ok; lia).
  assert (H5 : dim_ok 500) by (unfold dim_ok; lia).
  split; [reflexivity|]. split; [reflexivity|]. split; [exact H3|]. split; [exact H5|].
  split; [exact dim_ok_1920|]. split; [exact dim_ok_1080|]. split; [exact screen_factor_ok|].
  apply (resize_factor_and_tolerance (solid_cv 300 500) "meme.jpg" (solid_image 300 500)
           300 500 3 1920 1080 screen_factor scale_tolerance empty_world);
    [reflexivity|reflexivity|exact H3|exact H5|exact dim_ok_1920|exact dim_ok_1080
    |exact screen_factor_ok].
Defined.

(** C5 — positivity fails for extreme aspect ratios: a source 1441 high and
    1 wide gets the destination (1440, 0). *)
Lemma destination_zero_width :
  cv2_imread (solid_cv 1441 1) "tall.jpg" = Some (solid_image 1441 1) /\
  shape (solid_image 1441 1) = (1441, 1, 3) /\
  exists p,
    planFit (solid_cv 1441 1) "tall.jpg" ig_defined_res screen_factor scale_tolerance
      empty_world = Ok p /\
    destinationDimensions p = (1440, 0) /\
    ~ (0 < (destinationDimensions p).1 /\ 0 < (destinationDimensions p).2).
Proof.
  split; [reflexivity|]. split; [reflexivity|].
  eexists. split; [vm_compute; reflexivity|].
  split; [reflexivity|]. cbn [destinationDimensions fst snd]. lia.
Qed.

(** C5, amended — the destination components are never negative, and both
    are strictly positive when the source is no wider than
    [cw : 1] and less tall than [1 : ch], where [cw] and [ch] are the
    frame sides scaled by the screen factor (810 and 1440 for the
    module's configuration). *)
Theorem destination_nonnegative cv file_path img h w c H W sf tol w0 :
  cv2_imread cv file_path = Some img -> shape img = (h, w, c) ->
  dim_ok h -> dim_ok w -> dim_ok H -> dim_ok W -> factor_ok sf ->
  exists p cw ch,
    planFit cv file_path (H, W) sf tol w0 = Ok p /\
    scaled_frame sf W = Ok cw /\ scaled_frame sf H = Ok ch /\
    0 <= (destinationDimensions p).1 /\ 0 <= (destinationDimensions p).2 /\
    (0 < ch -> w <= cw * h -> h < ch * w ->
     0 < (destinationDimensions p).1 /\ 0 < (destinationDimensions p).2) /\
    scaled_frame screen_factor ig_defined_res.2 = Ok 810 /\
    scaled_frame screen_factor ig_defined_res.1 = Ok 1440.
Proof.
  intros Hread Hshape Hh Hw HH HW Hsf.
  destruct (planFit_ok cv file_path img h w c H W sf tol Hread Hshape Hh Hw HH HW Hsf w0)
    as (pw0 & ph1 & ph & pw & Hs0 & Hs1 & Hp & _ & Hph & Hpw & Hbr).
  exists (plan_for w tol ph pw), pw0, ph1.
  cbn [plan_for destinationDimensions fst snd].
  split; [exact Hp|]. split; [exact Hs0|]. split; [exact Hs1|].
  split; [lia|]. split; [lia|]. split; [|split; [exact scaled_1080|exact scaled_1920]].
  intros Hch Hwide Htall. unfold dim_ok in Hh, Hw.
  destruct Hbr as [[-> Hpos]|[-> Hpos]].
  - specialize (Hpos Hwide). split; [lia|].
    destruct (Z.eq_dec pw0 0) as [->|]; lia.
  - specialize (Hpos Htall). lia.
Qed.

Lemma destination_nonnegative_witness :
  cv2_imread (solid_cv 300 500) "meme.jpg" = Some (solid_image 300 500) /\
  shape (solid_image 300 500) = (300, 500, 3) /\
  dim_ok 300 /\ dim_ok 500 /\ dim_ok 1920 /\ dim_ok 1080 /\ factor_ok screen_factor /\
  exists p cw ch,
    planFit (solid_cv 300 500) "meme.jpg" (1920, 1080) screen_factor scale_tolerance
      empty_world = Ok p /\
    scaled_frame screen_factor 1080 = Ok cw /\ scaled_frame screen_factor 1920 = Ok ch /\
    0 <= (destinationDimensions p).1 /\ 0 <= (destinationDimensions p).2 /\
    (0 < ch -> 500 <= cw * 300 -> 300 < ch * 500 ->
     0 < (destinationDimensions p).1 /\ 0 < (destinationDimensions p).2) /\
    scaled_frame screen_factor ig_defined_res.2 = Ok 810 /\
    scaled_frame screen_factor ig_defined_res.1 = Ok 1440.
Proof.
  assert (H3 : dim_ok 300) by (unfold dim_ok; lia).
  assert (H5 : dim_ok 500) by (unfold dim_ok; lia).
  split; [reflexivity|]. split; [reflexivity|]. split; [exact H3|]. split; [exact H5|].
  split; [exact dim_ok_1920|]. split; [exact dim_ok_1080|]. split; [exact screen_factor_ok|].
  apply (destination_nonnegative (solid_cv 300 500) "meme.jpg" (solid_image 300 500)
           300 500 3 1920 1080 screen_factor scale_tolerance empty_world);
    [reflexivity|reflexivity|exact H3|exact H5|exact dim_ok_1920|exact dim_ok_1080
    |exact screen_factor_ok].
Defined.

(** C6 — the offsets are not floors when the destination exceeds the
    frame: for a frame (10, 10) and a destination (13, 13) the code
    yields y1 = -1, the floor of -3/2 is -2. *)
Lemma offsets_truncate_toward_zero :
  composeOffsets (10, 10) (13, 13) empty_world =
    Ok {| x1 := -1; x2 := 12; y1 := -1; y2 := 12 |} /\
  (10 - 13) / 2 = -2.
Proof. split; vm_compute; reflexivity. Qed.

(** C6, amended — [composeOffsets] returns the half differences truncated
    toward zero, which are the floors whenever the destination does not
    exceed the frame; x2 - x1 and y2 - y1 are the destination width and
    height exactly, and a destination within the frame gives a rectangle
    whose pixels all lie in the frame. *)
Theorem offsets_centre_destination fh fw dh dw w0 :
  px_ok fh -> px_ok fw -> px_ok dh -> px_ok dw ->
  exists r,
    composeOffsets (fh, fw) (dh, dw) w0 = Ok r /\
    y1 r = Z.quot (fh - dh) 2 /\ x1 r = Z.quot (fw - dw) 2 /\
    x2 r = x1 r + dw /\ y2 r = y1 r + dh /\
    x2 r - x1 r = dw /\ y2 r - y1 r = dh /\
    (dh <= fh -> dw <= fw ->
     y1 r = (fh - dh) / 2 /\ x1 r = (fw - dw) / 2 /\
     0 <= x1 r /\ x2 r <= fw /\ 0 <= y1 r /\ y2 r <= fh /\
     forall y x, y1 r <= y < y2 r -> x1 r <= x < x2 r -> 0 <= y < fh /\ 0 <= x < fw).
Proof.
  intros Hfh Hfw Hdh Hdw. rewrite composeOffsets_pure, pip_of_ok by assumption.
  eexists. split; [reflexivity|]. cbn [x1 x2 y1 y2].
  repeat (split; [first [reflexivity|lia]|]).
  intros Hh Hw. unfold px_ok in *.
  rewrite !Z.quot_div_nonneg by lia.
  pose proof (Z.div_mod (fh - dh) 2 ltac:(lia)) as Ey.
  pose proof (Z.mod_pos_bound (fh - dh) 2 ltac:(lia)) as By.
  pose proof (Z.div_mod (fw - dw) 2 ltac:(lia)) as Ex.
  pose proof (Z.mod_pos_bound (fw - dw) 2 ltac:(lia)) as Bx.
  repeat split; intros; lia.
Qed.

Lemma offsets_centre_destination_witness :
  px_ok 1920 /\ px_ok 1080 /\ px_ok 989 /\ px_ok 810 /\
  exists r,
    composeOffsets (1920, 1080) (989, 810) empty_world = Ok r /\
    y1 r = Z.quot (1920 - 989) 2 /\ x1 r = Z.quot (1080 - 810) 2 /\
    x2 r = x1 r + 810 /\ y2 r = y1 r + 989 /\
    x2 r - x1 r = 810 /\ y2 r - y1 r = 989 /\
    (989 <= 1920 -> 810 <= 1080 ->
     y1 r = (1920 - 989) / 2 /\ x1 r = (1080 - 810) / 2 /\
     0 <= x1 r /\ x2 r <= 1080 /\ 0 <= y1 r /\ y2 r <= 1920 /\
     forall y x, y1 r <= y < y2 r -> x1 r <= x < x2 r -> 0 <= y < 1920 /\ 0 <= x < 1080).
Proof.
  assert (Ha : px_ok 1920) by (unfold px_ok; lia).
  assert (Hb : px_ok 1080) by (unfold px_ok; lia).
  assert (Hc : px_ok 989) by (unfold px_ok; lia).
  assert (Hd : px_ok 810) by (unfold px_ok; lia).
  split; [exact Ha|]. split; [exact Hb|]. split; [exact Hc|]. split; [exact Hd|].
  apply (offsets_centre_destination 1920 1080 989 810 empty_world Ha Hb Hc Hd).
Defined.

(** C7 — centring symmetry.  For a destination within the frame the left
    margin x1 and the right margin frameWidth - destinationWidth - x1
    differ by at most one pixel, and so do the top and bottom margins. *)
Theorem offsets_symmetric fh fw dh dw w0 :
  px_ok fh -> px_ok fw -> px_ok dh -> px_ok dw -> dh <= fh -> dw <= fw ->
  exists r,
    composeOffsets (fh, fw) (dh, dw) w0 = Ok r /\
    Z.abs (x1 r - (fw - dw - x1 r)) <= 1 /\
    Z.abs (y1 r - (fh - dh - y1 r)) <= 1.
Proof.
  intros Hfh Hfw Hdh Hdw Hh Hw. rewrite composeOffsets_pure, pip_of_ok by assumption.
  eexists. split; [reflexivity|]. cbn [x1 x2 y1 y2]. unfold px_ok in *.
  rewrite !Z.quot_div_nonneg by lia.
  pose proof (Z.div_mod (fh - dh) 2 ltac:(lia)) as Ey.
  pose proof (Z.mod_pos_bound (fh - dh) 2 ltac:(lia)) as By.
  pose proof (Z.div_mod (fw - dw) 2 ltac:(lia)) as Ex.
  pose proof (Z.mod_pos_bound (fw - dw) 2 ltac:(lia)) as Bx.
  split; lia.
Qed.

Lemma offsets_symmetric_witness :
  px_ok 1920 /\ px_ok 1080 /\ px_ok 989 /\ px_ok 810 /\ 989 <= 1920 /\ 810 <= 1080 /\
  exists r,
    composeOffsets (1920, 1080) (989, 810) empty_world = Ok r /\
    Z.abs (x1 r - (1080 - 810 - x1 r)) <= 1 /\
    Z.abs (y1 r - (1920 - 989 - y1 r)) <= 1.
Proof.
  assert (Ha : px_ok 1920) by (unfold px_ok; lia).
  assert (Hb : px_ok 1080) by (unfold px_ok; lia).
  assert (Hc : px_ok 989) by (unfold px_ok; lia).
  assert (Hd : px_ok 810) by (unfold px_ok; lia).
  split; [exact Ha|]. split; [exact Hb|]. split; [exact Hc|]. split; [exact Hd|].
  split; [lia|]. split; [lia|].
  apply (offsets_symmetric 1920 1080 989 810 empty_world Ha Hb Hc Hd); lia.
Defined.

(** A source with a zero side stops at a division by zero. *)
Lemma fit_plan_zero h w H W sf tol :
  px_ok h -> px_ok w -> dim_ok H -> dim_ok W -> factor_ok sf ->
  h = 0 \/ w = 0 ->
  fit_plan (h, w) (H, W) sf tol = Raise ZeroDivisionError.
Proof.
  intros Hh Hw HH HW Hsf Hz. unfold px_ok in Hh, Hw.
  destruct (small_float w ltac:(lia)) as (fw & Hfw & Hwn & Hwm & _).
  unfold fit_plan. cbn [fst snd]. rewrite Hfw. cbn [mbind pyres_mbind pyres_bind].
  destruct (Z.eq_dec h 0) as [->|Hh0].
  - reflexivity.
  - assert (Hw0 : w = 0) by lia. subst w.
    assert (Hfw0 : fw = S754_zero false) by (vm_compute in Hfw; congruence). subst fw.
    destruct (float_of_int_exact h ltac:(lia)) as (fh & Hfh & _ & Hhn & Hhm).
    rewrite Hfh. cbn [mbind pyres_mbind pyres_bind].
    assert (Hhpos : (0 < Fmag fh)%R) by (rewrite Hhm; apply IZR_lt; lia).
    destruct (Fmag_pos_finite fh Hhpos) as (s & m & e & ->).
    cbn [Py.truediv Py.is_zero mbind pyres_mbind pyres_bind Py.fdiv SFdiv].
    destruct (scaled_dim sf W Hsf HW) as (fdw & pw0 & Hfdw & Hpw0 & _ & Hpw0r).
    rewrite Hfdw. cbn [mbind pyres_mbind pyres_bind Py.mul]. rewrite Hpw0.
    cbn [mbind pyres_mbind pyres_bind].
    unfold dim_ok in HW.
    destruct (small_float pw0 ltac:(lia)) as (fpw & Hfpw & _).
    rewrite Hfpw. reflexivity.
Qed.

(** C9 — totality.  On well-formed inputs (positive source sides, positive
    frame sides, a screen factor in (0, 1], any tolerance) [planFit]
    returns a plan; it raises ZeroDivisionError exactly when the source
    height or width is 0. *)
Theorem planFit_total cv file_path img h w c H W sf tol w0 :
  cv2_imread cv file_path = Some img -> shape img = (h, w, c) ->
  px_ok h -> px_ok w -> dim_ok H -> dim_ok W -> factor_ok sf ->
  (0 < h -> 0 < w -> exists p, planFit cv file_path (H, W) sf tol w0 = Ok p) /\
  (planFit cv file_path (H, W) sf tol w0 = Raise ZeroDivisionError <-> h = 0 \/ w = 0).
Proof.
  intros Hread Hshape Hh Hw HH HW Hsf.
  assert (Hpos : 0 < h -> 0 < w -> exists p, planFit cv file_path (H, W) sf tol w0 = Ok p).
  { intros Hh0 Hw0. unfold px_ok in Hh, Hw.
    destruct (planFit_ok cv file_path img h w c H W sf tol Hread Hshape
                ltac:(unfold dim_ok; lia) ltac:(unfold dim_ok; lia) HH HW Hsf w0)
      as (pw0 & ph1 & ph & pw & _ & _ & Hp & _).
    eauto. }
  split; [exact Hpos|]. split.
  - intros Hraise. unfold px_ok in Hh, Hw.
    destruct (Z.eq_dec h 0) as [|Hh0]; [left; assumption|].
    destruct (Z.eq_dec w 0) as [|Hw0]; [right; assumption|].
    destruct (Hpos ltac:(lia) ltac:(lia)) as [p Hp]. congruence.
  - intros Hz. rewrite planFit_pure, Hread, (shape2_image img h w c Hshape).
    apply fit_plan_zero; assumption.
Qed.

Lemma planFit_total_witness :
  cv2_imread (solid_cv 300 500) "meme.jpg" = Some (solid_image 300 500) /\
  shape (solid_image 300 500) = (300, 500, 3) /\
  px_ok 300 /\ px_ok 500 /\ dim_ok 1920 /\ dim_ok 1080 /\ factor_ok screen_factor /\
  (0 < 300 -> 0 < 500 ->
   exists p, planFit (solid_cv 300 500) "meme.jpg" (1920, 1080) screen_factor
               scale_tolerance empty_world = Ok p) /\
  (planFit (solid_cv 300 500) "meme.jpg" (1920, 1080) screen_factor scale_tolerance
     empty_world = Raise ZeroDivisionError <-> 300 = 0 \/ 500 = 0).
Proof.
  assert (H3 : px_ok 300) by (unfold px_ok; lia).
  assert (H5 : px_ok 500) by (unfold px_ok; lia).
  split; [reflexivity|]. split; [reflexivity|]. split; [exact H3|]. split; [exact H5|].
  split; [exact dim_ok_1920|]. split; [exact dim_ok_1080|]. split; [exact screen_factor_ok|].
  apply (planFit_total (solid_cv 300 500) "meme.jpg" (solid_image 300 500)
           300 500 3 1920 1080 screen_factor scale_tolerance empty_world);
    [reflexivity|reflexivity|exact H3|exact H5|exact dim_ok_1920|exact dim_ok_1080
    |exact screen_factor_ok].
Defined.

(** C10 — purity.  The plan of a call depends on its arguments only: it
    is the same in every world, in particular in the world a previous
    call with the same arguments left behind, although every call writes
    into the one shared dictionary. *)
Theorem planFit_idempotent cv file_path defined_res sf tol :
  (forall w1 w2,
     planFit cv file_path defined_res sf tol w1 =
     planFit cv file_path defined_res sf tol w2) /\
  (forall w,
     planFit cv file_path defined_res sf tol
       (resize_type cv file_path defined_res sf tol w).2 =
     planFit cv file_path defined_res sf tol w) /\
  (forall w file_dest,
     planFit cv file_path defined_res sf tol
       ((resize_type cv file_path defined_res sf tol;;
         add_pip_vars;; process_image cv file_dest) w).2 =
     planFit cv file_path defined_res sf tol w).
Proof.
  repeat split; intros; rewrite !planFit_pure; reflexivity.
Qed.

(** C8 — the canvas.  For an image that is processed, the canvas is made
    anew with the frame's height and width and three channels, every
    pixel (128, 128, 128); the resized image is pasted into the offset
    rectangle, and every pixel of the written canvas outside that
    rectangle is still (128, 128, 128). *)
Theorem canvas_gray_outside_paste cv file_path img h w c H W sf tol file_dest w0 p resized :
  cv2_imread cv file_path = Some img -> shape img = (h, w, c) ->
  dim_ok h -> dim_ok w -> dim_ok H -> dim_ok W -> factor_ok sf ->
  planFit cv file_path (H, W) sf tol w0 = Ok p ->
  0 < (destinationDimensions p).1 -> 0 < (destinationDimensions p).2 ->
  cv2_resize cv img ((destinationDimensions p).2, (destinationDimensions p).1) = Ok resized ->
  is_image resized (destinationDimensions p).1 (destinationDimensions p).2 3 ->
  exists w1 r out,
    (resize_type cv file_path (H, W) sf tol;; add_pip_vars;; process_image cv file_dest) w0
      = (Ok tt, w1) /\
    composeOffsets (H, W) (destinationDimensions p) w0 = Ok r /\
    np_setslice (np_full H W 3 128) (y1 r) (y2 r) (x1 r) (x2 r) resized = Ok out /\
    written w1 = written w0 ++ [(file_dest, out)] /\
    img_vars w1 !! "canvas" = Some (VArr out) /\
    is_image (np_full H W 3 128) H W 3 /\
    (forall y x, 0 <= y < H -> 0 <= x < W ->
       pixel (np_full H W 3 128) y x = Some [128; 128; 128]) /\
    is_image out H W 3 /\
    (forall y x, 0 <= y < H -> 0 <= x < W ->
       ~ (y1 r <= y < y2 r /\ x1 r <= x < x2 r) ->
       pixel out y x = Some [128; 128; 128]).
Proof.
  intros Hread Hshape Hh Hw HH HW Hsf Hplan Hph0 Hpw0 Hres Himg.
  destruct (planFit_ok cv file_path img h w c H W sf tol Hread Hshape Hh Hw HH HW Hsf w0)
    as (pw0 & ph1 & ph & pw & _ & _ & Hp & _ & Hph & Hpw & _).
  rewrite Hplan in Hp. injection Hp as ->.
  cbn [plan_for destinationDimensions fst snd] in *.
  pose proof (resize_type_run cv file_path (H, W) sf tol w0) as Hrun.
  rewrite <- (planFit_pure cv file_path (H, W) sf tol w0), Hplan in Hrun.
  destruct Hrun as (w' & Hrt & Hwr & Hobj & Hdr & Hpr & _).
  rewrite Hread in Hobj. cbn [val_of_imread plan_for destinationDimensions fst snd] in *.
  assert (HpH : px_ok H) by (unfold dim_ok, px_ok in *; lia).
  assert (HpW : px_ok W) by (unfold dim_ok, px_ok in *; lia).
  assert (Hpph : px_ok ph) by (unfold dim_ok, px_ok in *; lia).
  assert (Hppw : px_ok pw) by (unfold dim_ok, px_ok in *; lia).
  pose proof (add_pip_vars_run w' H W ph pw Hdr Hpr) as Hadd.
  rewrite (pip_of_ok H W ph pw HpH HpW Hpph Hppw) in Hadd.
  set (r := {| x1 := Z.quot (W - pw) 2; x2 := Z.quot (W - pw) 2 + pw;
               y1 := Z.quot (H - ph) 2; y2 := Z.quot (H - ph) 2 + ph |}) in *.
  unfold px_ok, dim_ok in *.
  assert (Hy1 : 0 <= y1 r /\ y2 r <= H /\ y2 r - y1 r = ph).
  { cbn [r y1 y2]. rewrite Z.quot_div_nonneg by lia.
    pose proof (Z.div_mod (H - ph) 2 ltac:(lia)).
    pose proof (Z.mod_pos_bound (H - ph) 2 ltac:(lia)). lia. }
  assert (Hx1 : 0 <= x1 r /\ x2 r <= W /\ x2 r - x1 r = pw).
  { cbn [r x1 x2]. rewrite Z.quot_div_nonneg by lia.
    pose proof (Z.div_mod (W - pw) 2 ltac:(lia)).
    pose proof (Z.mod_pos_bound (W - pw) 2 ltac:(lia)). lia. }
  destruct Hy1 as (Hy1a & Hy1b & Hy1c). destruct Hx1 as (Hx1a & Hx1b & Hx1c).
  assert (Hcan : is_image (np_full H W 3 128) H W 3) by (apply is_image_np_full; lia).
  assert (Hsrc : is_image resized (y2 r - y1 r) (x2 r - x1 r) 3) by (rewrite Hy1c, Hx1c; exact Himg).
  destruct (np_setslice_succeeds (np_full H W 3 128) (y1 r) (y2 r) (x1 r) (x2 r) resized
              H W 3 Hcan Hsrc) as [out Hout]; try lia.
  set (w'' := {| img_vars := <["pip_coords" := VPip r]>
                               (<["canvas" := VArr (np_full H W 3 128)]> (img_vars w'));
                 written := written w' |}) in *.
  assert (Hproc : process_image cv file_dest w'' =
                  (Ok tt, {| img_vars := <["canvas" := VArr out]> (img_vars w'');
                             written := written w'' ++ [(file_dest, out)] |})).
  { apply (process_image_run cv file_dest w'' img ph pw (np_full H W 3 128) r resized out);
      cbn [w'' img_vars]; try assumption.
    - rewrite !lookup_insert_ne by discriminate. exact Hobj.
    - rewrite !lookup_insert_ne by discriminate. exact Hpr.
    - rewrite lookup_insert_ne by discriminate. apply lookup_insert_eq.
    - apply lookup_insert_eq. }
  eexists _, r, out. split.
  { unfold mbind, run_bind. rewrite Hrt, Hadd. fold w''. rewrite Hproc. reflexivity. }
  split; [rewrite composeOffsets_pure; apply pip_of_ok; unfold px_ok; lia|].
  split; [exact Hout|]. cbn [written img_vars w''].
  split; [rewrite Hwr; reflexivity|].
  split; [apply lookup_insert_eq|].
  split; [exact Hcan|].
  assert (Hgray : forall y x, 0 <= y < H -> 0 <= x < W ->
                    pixel (np_full H W 3 128) y x = Some [128; 128; 128]).
  { intros y x Hy Hx. rewrite pixel_np_full by assumption. reflexivity. }
  split; [exact Hgray|].
  split.
  { apply (np_setslice_is_image _ _ _ _ _ _ _ H W 3 Hout Hcan Hsrc); lia. }
  intros y x Hy Hx Hn.
  rewrite (np_setslice_outside _ _ _ _ _ _ _ Hout); [apply Hgray; assumption|].
  rewrite (is_image_shape _ _ _ _ Hcan) by lia. cbn [fst snd].
  rewrite !slice_bound_in by lia. exact Hn.
Qed.

Lemma canvas_gray_outside_paste_witness :
  cv2_imread (solid_cv 2 2) "meme.jpg" = Some (solid_image 2 2) /\
  shape (solid_image 2 2) = (2, 2, 3) /\
  dim_ok 2 /\ dim_ok 8 /\ dim_ok 6 /\ factor_ok screen_factor /\
  planFit (solid_cv 2 2) "meme.jpg" (8, 6) screen_factor scale_tolerance empty_world =
    Ok (plan_for 2 scale_tolerance 4 4) /\
  cv2_resize (solid_cv 2 2) (solid_image 2 2) (4, 4) = Ok (np_full 4 4 3 200) /\
  is_image (np_full 4 4 3 200) 4 4 3 /\
  exists w1 r out,
    (resize_type (solid_cv 2 2) "meme.jpg" (8, 6) screen_factor scale_tolerance;;
     add_pip_vars;; process_image (solid_cv 2 2) "out_0.jpg") empty_world = (Ok tt, w1) /\
    composeOffsets (8, 6) (4, 4) empty_world = Ok r /\
    np_setslice (np_full 8 6 3 128) (y1 r) (y2 r) (x1 r) (x2 r) (np_full 4 4 3 200) = Ok out /\
    written w1 = written empty_world ++ [("out_0.jpg", out)] /\
    img_vars w1 !! "canvas" = Some (VArr out) /\
    is_image (np_full 8 6 3 128) 8 6 3 /\
    (forall y x, 0 <= y < 8 -> 0 <= x < 6 ->
       pixel (np_full 8 6 3 128) y x = Some [128; 128; 128]) /\
    is_image out 8 6 3 /\
    (forall y x, 0 <= y < 8 -> 0 <= x < 6 ->
       ~ (y1 r <= y < y2 r /\ x1 r <= x < x2 r) ->
       pixel out y x = Some [128; 128; 128]).
Proof.
  assert (H2 : dim_ok 2) by (unfold dim_ok; lia).
  assert (H8 : dim_ok 8) by (unfold dim_ok; lia).
  assert (H6 : dim_ok 6) by (unfold dim_ok; lia).
  assert (Hplan : planFit (solid_cv 2 2) "meme.jpg" (8, 6) screen_factor scale_tolerance
                    empty_world = Ok (plan_for 2 scale_tolerance 4 4))
    by (vm_compute; reflexivity).
  assert (Himg : is_image (np_full 4 4 3 200) 4 4 3) by (apply is_image_np_full; lia).
  split; [reflexivity|]. split; [reflexivity|]. split; [exact H2|]. split; [exact H8|].
  split; [exact H6|]. split; [exact screen_factor_ok|]. split; [exact Hplan|].
  split; [reflexivity|]. split; [exact Himg|].
  apply (canvas_gray_outside_paste (solid_cv 2 2) "meme.jpg" (solid_image 2 2) 2 2 3 8 6
           screen_factor scale_tolerance "out_0.jpg" empty_world
           (plan_for 2 scale_tolerance 4 4) (np_full 4 4 3 200));
    [reflexivity|reflexivity|exact H2|exact H2|exact H8|exact H6|exact screen_factor_ok
    |exact Hplan|cbn; lia|cbn; lia|reflexivity|exact Himg].
Defined.

(** * Paths of the batch *)

Lemma append_length (s t : string) :
  String.length (s +:+ t) = (String.length s + String.length t)%nat.
Proof.
  induction s as [|c s IH]; [reflexivity|].
  change (String c s +:+ t) with (String c (s +:+ t)). cbn. f_equal. exact IH.
Qed.

Lemma append_cons (c : Ascii.ascii) (s t : string) : String c s +:+ t = String c (s +:+ t).
Proof. reflexivity. Qed.

Lemma append_inv_tail (s t u : string) : s +:+ u = t +:+ u -> s = t.
Proof.
  revert t. induction s as [|c s IH]; intros [|d t] Heq.
  - reflexivity.
  - apply (f_equal String.length) in Heq. rewrite !append_length in Heq. cbn in Heq. lia.
  - apply (f_equal String.length) in Heq. rewrite !append_length in Heq. cbn in Heq. lia.
  - rewrite !append_cons in Heq. injection Heq as -> Heq. rewrite (IH t Heq). reflexivity.
Qed.


(** Whether a file name starts with a slash is decided by the time stamp. *)
Lemma file_name_slash (stamp t : string) :
  starts_with_slash (stamp +:+ "_" +:+ t) = starts_with_slash stamp.
Proof. destruct stamp as [|c stamp]; reflexivity. Qed.

(** For names that start alike, [os.path.join] is injective. *)
Lemma path_join_inj (a b1 b2 : string) :
  starts_with_slash b1 = starts_with_slash b2 ->
  path_join a b1 = path_join a b2 -> b1 = b2.
Proof.
  unfold path_join. intros <-.
  destruct (starts_with_slash b1); [intros H; exact H|].
  destruct (String.eqb a "" || ends_with_slash a); intros Heq.
  - exact (String.app_inj a _ _ Heq).
  - apply (String.app_inj a) in Heq. exact (String.app_inj "/" _ _ Heq).
Qed.


(** X1 — output names.  Within one run (one output directory, one time
    stamp) the destination paths of two images are equal only if their
    sequence indices are: no output file overwrites another. *)
Theorem file_dest_injective (output_dir stamp : string) (i j : nat) :
  file_dest output_dir stamp i = file_dest output_dir stamp j <-> i = j.
Proof.
  split; [|intros ->; reflexivity].
  unfold file_dest. intros Heq.
  apply path_join_inj in Heq; [|rewrite !file_name_slash; reflexivity].
  apply (String.app_inj stamp), (String.app_inj "_"), append_inv_tail in Heq.
  apply (f_equal NilEmpty.uint_of_string) in Heq. unfold py_str in Heq.
  rewrite !NilEmpty.usu in Heq. injection Heq as Heq.
  rewrite <- (Unsigned.of_to i), <- (Unsigned.of_to j), Heq. reflexivity.
Qed.

(** X2 — input paths.  [list_of_memes] returns one path per directory
    entry, in listing order, and distinct entry names (which, as
    [os.listdir] gives them, do not start with a slash) get distinct
    paths. *)
Theorem list_of_memes_distinct (listing : list string) (extract_dir : string) :
  Forall (fun n => starts_with_slash n = false) listing ->
  NoDup listing ->
  length (list_of_memes listing extract_dir) = length listing /\
  (forall i n, listing !! i = Some n ->
     list_of_memes listing extract_dir !! i = Some (path_join extract_dir n)) /\
  NoDup (list_of_memes listing extract_dir).
Proof.
  intros Hrel Hnd. unfold list_of_memes. split; [apply length_fmap|]. split.
  - intros i n Hi. rewrite list_lookup_fmap, Hi. reflexivity.
  - apply NoDup_fmap_2_strong; [|exact Hnd].
    intros x y Hx Hy Heq. rewrite Forall_forall in Hrel.
    apply (path_join_inj extract_dir); [|exact Heq].
    rewrite (Hrel x Hx), (Hrel y Hy). reflexivity.
Qed.

Lemma list_of_memes_distinct_witness :
  length (list_of_memes ["a.jpg"; "b.png"] "/data/memes") = 2%nat /\
  (forall i n, ["a.jpg"; "b.png"] !! i = Some n ->
     list_of_memes ["a.jpg"; "b.png"] "/data/memes" !! i = Some (path_join "/data/memes" n)) /\
  NoDup (list_of_memes ["a.jpg"; "b.png"] "/data/memes").
Proof.
  apply (list_of_memes_distinct ["a.jpg"; "b.png"] "/data/memes").
  - repeat constructor.
  - refine (bool_decide_unpack (NoDup _) _). vm_compute. exact I.
Defined.

(** * Footprints of the application functions *)

Lemma readonly_ret {A : Type} (a : A) : readonly (mret a : Run A).
Proof. intros w. reflexivity. Qed.

Lemma readonly_lift {A : Type} (r : pyres A) : readonly (lift r).
Proof. intros w. reflexivity. Qed.

Lemma readonly_getitem (k : string) : readonly (getitem k).
Proof. intros w. unfold getitem. destruct (img_vars w !! k); reflexivity. Qed.


Lemma readonly_footprint {A : Type} (K : list string) (m : Run A) :
  readonly m -> footprint K m.
Proof. intros Hm w. rewrite (Hm w). split; [reflexivity|intros; reflexivity]. Qed.

Lemma footprint_setitem (K : list string) (k : string) (v : pyval) :
  k ∈ K -> footprint K (setitem k v).
Proof.
  intros Hk w. cbn. split; [reflexivity|].
  intros k' Hk'. apply lookup_insert_ne. intros ->. exact (Hk' Hk).
Qed.

Lemma footprint_bind {A B : Type} (K : list string) (m : Run A) (f : A -> Run B) :
  footprint K m -> (forall a, footprint K (f a)) -> footprint K (m ≫= f).
Proof.
  intros Hm Hf w. unfold mbind, run_bind. specialize (Hm w).
  destruct (m w) as [[a|e] w1]; cbn in Hm; [|exact Hm].
  destruct Hm as [Hw Hk]. destruct (Hf a w1) as [Hw' Hk'].
  split; [congruence|]. intros k Hn. rewrite (Hk' k Hn). exact (Hk k Hn).
Qed.

Lemma footprint_mono {A : Type} (K K' : list string) (m : Run A) :
  K ⊆ K' -> footprint K m -> footprint K' m.
Proof.
  intros Hsub Hm w. destruct (Hm w) as [Hw Hk]. split; [exact Hw|].
  intros k Hn. apply Hk. intros Hin. exact (Hn (Hsub k Hin)).
Qed.


Ltac footprint_step :=
  first
    [ apply footprint_setitem; apply (bool_decide_unpack _); vm_compute; exact I
    | apply readonly_footprint;
      first [apply readonly_ret | apply readonly_lift | apply readonly_getitem]
    | apply footprint_bind; [|intros]
    | match goal with
      | |- footprint _ (if ?b then _ else _) => destruct b
      | |- footprint _ (let '(_, _) := ?x in _) => destruct x
      end ].


(** X3 — footprint of [resize_type].  Whatever the file, the
    configuration and the dictionary it starts from, and whether it
    returns or raises, [resize_type] writes no file and assigns no key of
    [img_vars] other than its ten. *)
Theorem resize_type_footprint cv file_path defined_res sf tol :
  footprint resize_keys (resize_type cv file_path defined_res sf tol).
Proof.
  unfold resize_type. repeat footprint_step.
Qed.

(** X4 — footprint of [add_pip_vars].  Whether it returns or raises,
    [add_pip_vars] writes no file and assigns no key other than
    ["canvas"] and ["pip_coords"]: the plan that [resize_type] stored is
    left as it was. *)
Theorem add_pip_vars_footprint :
  footprint ["canvas"; "pip_coords"] add_pip_vars.
Proof.
  unfold add_pip_vars. repeat footprint_step.
Qed.


(** * The batch *)

Section BatchRun.

Variable cv : opencv.

(** [process_image] on a dictionary that holds what it reads. *)
Lemma process_image_run_all file w img ph pw cvs c :
  img_vars w !! "img_obj" = Some (VArr img) ->
  img_vars w !! "proposed_res" = Some (VPair ph pw) ->
  img_vars w !! "canvas" = Some (VArr cvs) ->
  img_vars w !! "pip_coords" = Some (VPip c) ->
  process_image cv file w =
  match (resized ← cv2_resize cv img (pw, ph);
         np_setslice cvs (y1 c) (y2 c) (x1 c) (x2 c) resized) with
  | Ok out => (Ok tt, {| img_vars := <["canvas" := VArr out]> (img_vars w);
                         written := written w ++ [(file, out)] |})
  | Raise e => (Raise e, w)
  end.
Proof.
  destruct w as [d wr]. cbn [img_vars written]. intros Hi Hp Hc Hk.
  remember (process_image cv file {| img_vars := d; written := wr |}) as R eqn:HR.
  unfold process_image in HR. run_unfold_in HR.
  destruct (cv2_resize cv img (pw, ph)) as [resized|e] eqn:Hr;
    [destruct (np_setslice cvs (y1 c) (y2 c) (x1 c) (x2 c) resized) as [out|e] eqn:Hs|].
  all: repeat run_step HR.
  all: subst R; reflexivity.
Qed.

(** The tolerance decides nothing but the validity. *)
Lemma fit_plan_tol res dr sf tol tol' :
  match fit_plan res dr sf tol, fit_plan res dr sf tol' with
  | Ok p, Ok p' => destinationDimensions p = destinationDimensions p'
  | Raise e, Raise e' => e = e'
  | _, _ => False
  end.
Proof.
  unfold fit_plan. cbv [mbind pyres_mbind pyres_bind].
  repeat match goal with
         | |- context [match ?t with Ok _ => _ | Raise _ => _ end] =>
             lazymatch t with
             | context [match _ with _ => _ end] => fail
             | _ => destruct t
             end
         | |- context [if ?b then _ else _] =>
             lazymatch b with
             | context [match _ with _ => _ end] => fail
             | _ => destruct b
             end
         end; reflexivity.
Qed.

Lemma process_all_cons dr sf tol dest i path rest w :
  process_all cv dr sf tol dest i (path :: rest) w =
  match one_image cv dr sf tol path (dest i) w with
  | (Ok _, w1) => process_all cv dr sf tol dest (S i) rest w1
  | (Raise e, w1) => (Raise e, w1)
  end.
Proof.
  cbn [process_all]. unfold one_image, mbind, run_bind.
  destruct (resize_type cv path dr sf tol w) as [[[]|e] w1]; [|reflexivity].
  destruct (add_pip_vars w1) as [[[]|e] w2]; [|reflexivity].
  destruct (process_image cv (dest i) w2) as [[[]|e] w3]; reflexivity.
Qed.

(** One turn of the loop: its status and the file it writes are the same
    for every tolerance and every dictionary it starts from. *)
Lemma one_image_run dr sf path file :
  exists (r : pyres unit) (new : list (string * ndarray)),
    (forall tol w, exists w',
       one_image cv dr sf tol path file w = (r, w') /\ written w' = written w ++ new) /\
    match r with
    | Ok _ => exists out, new = [(file, out)]
    | Raise _ => new = []
    end.
Proof.
  destruct dr as [H W].
  assert (Hfr : forall tol, footprint resize_keys (resize_type cv path (H, W) sf tol))
    by (intros tol; unfold resize_type; repeat footprint_step).
  assert (Hfa : footprint ["canvas"; "pip_coords"] add_pip_vars)
    by (unfold add_pip_vars; repeat footprint_step).
  assert (Hraise : forall e tol w,
            (res ← shape2 (val_of_imread (cv2_imread cv path)); fit_plan res (H, W) sf tol)
              = Raise e ->
            exists w', one_image cv (H, W) sf tol path file w = (Raise e, w') /\
                       written w' = written w ++ []).
  { intros e tol w He. pose proof (resize_type_run cv path (H, W) sf tol w) as Hrun.
    rewrite He in Hrun. destruct Hrun as (w' & Hrt). exists w'.
    unfold one_image, mbind, run_bind. rewrite Hrt. split; [reflexivity|].
    rewrite app_nil_r. destruct (Hfr tol w) as [Hw _]. rewrite Hrt in Hw. exact Hw. }
  destruct (shape2 (val_of_imread (cv2_imread cv path))) as [res|e] eqn:Hs.
  2: { exists (Raise e), []. split; [|reflexivity]. intros tol w. apply Hraise. reflexivity. }
  destruct (cv2_imread cv path) as [img|] eqn:Hread; [|discriminate].
  cbn [val_of_imread] in *.
  destruct (fit_plan res (H, W) sf (NInt 0)) as [p0|e] eqn:Hf.
  2: { exists (Raise e), []. split; [|reflexivity]. intros tol w. apply Hraise.
       cbn [mbind pyres_mbind pyres_bind].
       pose proof (fit_plan_tol res (H, W) sf tol (NInt 0)) as Ht. rewrite Hf in Ht.
       destruct (fit_plan res (H, W) sf tol); [contradiction|subst; reflexivity]. }
  destruct (destinationDimensions p0) as [ph pw] eqn:Hdest.
  assert (Hok : forall tol w, exists w1,
            resize_type cv path (H, W) sf tol w = (Ok tt, w1) /\
            written w1 = written w /\
            img_vars w1 !! "img_obj" = Some (VArr img) /\
            img_vars w1 !! "defined_res" = Some (VPair H W) /\
            img_vars w1 !! "proposed_res" = Some (VPair ph pw)).
  { intros tol w. pose proof (resize_type_run cv path (H, W) sf tol w) as Hrun.
    rewrite Hread in Hrun. cbn [val_of_imread] in Hrun. rewrite Hs in Hrun.
    cbn [mbind pyres_mbind pyres_bind] in Hrun.
    pose proof (fit_plan_tol res (H, W) sf tol (NInt 0)) as Ht. rewrite Hf in Ht.
    destruct (fit_plan res (H, W) sf tol) as [p|]; [|contradiction].
    rewrite Hdest in Ht. destruct Hrun as (w1 & Hrt & Hwr & Hobj & Hdr & Hpr & _).
    rewrite Ht in Hpr. exists w1. repeat split; assumption. }
  destruct (pip_of (H, W) (ph, pw)) as [c|e] eqn:Hpip.
  2: { exists (Raise e), []. split; [|reflexivity]. intros tol w.
       destruct (Hok tol w) as (w1 & Hrt & Hwr & Hobj & Hdr & Hpr).
       pose proof (add_pip_vars_run w1 H W ph pw Hdr Hpr) as Hadd. rewrite Hpip in Hadd.
       destruct Hadd as (w2 & Hadd). exists w2.
       unfold one_image, mbind, run_bind. rewrite Hrt, Hadd. split; [reflexivity|].
       rewrite app_nil_r, <- Hwr. destruct (Hfa w1) as [Hw _]. rewrite Hadd in Hw. exact Hw. }
  assert (Hproc : forall tol w, exists w2,
            (resize_type cv path (H, W) sf tol;; add_pip_vars) w = (Ok tt, w2) /\
            written w2 = written w /\
            process_image cv file w2 =
            match (resized ← cv2_resize cv img (pw, ph);
                   np_setslice (np_full H W 3 128) (y1 c) (y2 c) (x1 c) (x2 c) resized) with
            | Ok out => (Ok tt, {| img_vars := <["canvas" := VArr out]> (img_vars w2);
                                   written := written w2 ++ [(file, out)] |})
            | Raise e => (Raise e, w2)
            end).
  { intros tol w. destruct (Hok tol w) as (w1 & Hrt & Hwr & Hobj & Hdr & Hpr).
    pose proof (add_pip_vars_run w1 H W ph pw Hdr Hpr) as Hadd. rewrite Hpip in Hadd.
    eexists. split; [unfold mbind, run_bind; rewrite Hrt, Hadd; reflexivity|].
    split; [exact Hwr|].
    apply (process_image_run_all file _ img ph pw (np_full H W 3 128) c); cbn [img_vars].
    - rewrite !lookup_insert_ne by discriminate. exact Hobj.
    - rewrite !lookup_insert_ne by discriminate. exact Hpr.
    - rewrite lookup_insert_ne by discriminate. apply lookup_insert_eq.
    - apply lookup_insert_eq. }
  destruct (resized ← cv2_resize cv img (pw, ph);
            np_setslice (np_full H W 3 128) (y1 c) (y2 c) (x1 c) (x2 c) resized)
    as [out|e] eqn:Hpaste.
  - exists (Ok tt), [(file, out)]. split; [|exists out; reflexivity]. intros tol w.
    destruct (Hproc tol w) as (w2 & Hpre & Hwr & Hpi). eexists.
    unfold one_image. unfold mbind, run_bind in Hpre |- *.
    destruct (resize_type cv path (H, W) sf tol w) as [[[]|e1] w1]; [|discriminate].
    rewrite Hpre, Hpi. split; [reflexivity|]. cbn [written]. rewrite Hwr. reflexivity.
  - exists (Raise e), []. split; [|reflexivity]. intros tol w.
    destruct (Hproc tol w) as (w2 & Hpre & Hwr & Hpi). exists w2.
    unfold one_image. unfold mbind, run_bind in Hpre |- *.
    destruct (resize_type cv path (H, W) sf tol w) as [[[]|e1] w1]; [|discriminate].
    rewrite Hpre, Hpi. split; [reflexivity|]. rewrite app_nil_r. exact Hwr.
Qed.

(** The whole loop: status and files written, for every tolerance and
    every dictionary it starts from. *)
Lemma process_all_run dr sf dest meme_list i :
  exists (r : pyres unit) (new : list (string * ndarray)),
    (forall tol w, exists w',
       process_all cv dr sf tol dest i meme_list w = (r, w') /\
       written w' = written w ++ new) /\
    match r with
    | Ok _ => new.*1 = dest <$> seq i (length meme_list)
    | Raise _ => exists k, (k < length meme_list)%nat /\ new.*1 = dest <$> seq i k
    end.
Proof.
  revert i. induction meme_list as [|path rest IH]; intros i.
  - exists (Ok tt), []. split; [|reflexivity]. intros tol w. exists w.
    split; [reflexivity|]. rewrite app_nil_r. reflexivity.
  - destruct (one_image_run dr sf path (dest i)) as (r1 & new1 & H1 & Hn1).
    destruct r1 as [[]|e].
    + destruct Hn1 as (out & ->).
      destruct (IH (S i)) as (r2 & new2 & H2 & Hn2).
      exists r2, ((dest i, out) :: new2). split.
      * intros tol w. destruct (H1 tol w) as (w1 & Hrun1 & Hw1).
        destruct (H2 tol w1) as (w2 & Hrun2 & Hw2). exists w2.
        rewrite process_all_cons, Hrun1, Hrun2. split; [reflexivity|].
        rewrite Hw2, Hw1, <- app_assoc. reflexivity.
      * destruct r2 as [[]|e].
        -- cbn [length seq fmap list_fmap]. rewrite Hn2. reflexivity.
        -- destruct Hn2 as (k & Hk & Hn2). exists (S k). cbn [length]. split; [lia|].
           cbn [seq fmap list_fmap]. rewrite Hn2. reflexivity.
    + subst new1. exists (Raise e), []. split.
      * intros tol w. destruct (H1 tol w) as (w1 & Hrun1 & Hw1). exists w1.
        rewrite process_all_cons, Hrun1. split; [reflexivity|exact Hw1].
      * exists 0%nat. cbn [length]. split; [lia|reflexivity].
Qed.

End BatchRun.


(** X6 — an unreadable file.  When [cv2.imread] gives [None] for a path,
    [resize_type] raises [AttributeError] at the [.shape] access, having
    stored [None] under ["img_obj"] and nothing else, and the batch stops
    there: no later path is processed and nothing more is written. *)
Theorem unreadable_file_stops_batch cv dr sf tol dest i path rest w :
  cv2_imread cv path = None ->
  resize_type cv path dr sf tol w =
    (Raise AttributeError,
     {| img_vars := <["img_obj" := VNone]> (img_vars w); written := written w |}) /\
  process_all cv dr sf tol dest i (path :: rest) w =
    (Raise AttributeError,
     {| img_vars := <["img_obj" := VNone]> (img_vars w); written := written w |}).
Proof.
  intros Hread.
  assert (Hrt : resize_type cv path dr sf tol w =
                (Raise AttributeError,
                 {| img_vars := <["img_obj" := VNone]> (img_vars w); written := written w |})).
  { unfold resize_type. rewrite Hread. unfold mbind at 1, run_bind at 1.
    cbn [setitem val_of_imread]. unfold mbind at 1, run_bind at 1, getitem at 1.
    cbn [img_vars]. rewrite lookup_insert_eq.
    unfold mbind at 1, run_bind at 1. reflexivity. }
  split; [exact Hrt|].
  cbn [process_all]. unfold mbind at 1, run_bind at 1. rewrite Hrt. reflexivity.
Qed.

Lemma unreadable_file_stops_batch_witness :
  resize_type (picky_cv 2 2) "broken.jpg" (8, 6) screen_factor scale_tolerance empty_world =
    (Raise AttributeError,
     {| img_vars := <["img_obj" := VNone]> (img_vars empty_world);
        written := written empty_world |}) /\
  process_all (picky_cv 2 2) (8, 6) screen_factor scale_tolerance (file_dest "out" "20240101_0000")
    0 ["broken.jpg"; "meme.jpg"] empty_world =
    (Raise AttributeError,
     {| img_vars := <["img_obj" := VNone]> (img_vars empty_world);
        written := written empty_world |}).
Proof.
  apply (unreadable_file_stops_batch (picky_cv 2 2) (8, 6) screen_factor scale_tolerance
           (file_dest "out" "20240101_0000") 0 "broken.jpg" ["meme.jpg"] empty_world).
  reflexivity.
Defined.

(** X7 — the loop is sequential and stops at the first failure.  Running
    the batch over [l1 ++ l2] is running it over [l1] and then, if that
    returned, over [l2] with the sequence index moved on by the length of
    [l1], in the world the first part left; if the first part raised, the
    whole batch raises the same exception in the same world and [l2] is
    not looked at. *)
Theorem process_all_app cv dr sf tol dest i l1 l2 w :
  process_all cv dr sf tol dest i (l1 ++ l2) w =
  match process_all cv dr sf tol dest i l1 w with
  | (Ok _, w1) => process_all cv dr sf tol dest (i + length l1) l2 w1
  | (Raise e, w1) => (Raise e, w1)
  end.
Proof.
  revert i w. induction l1 as [|path rest IH]; intros i w.
  - cbn [app length process_all mret run_ret]. rewrite Nat.add_0_r. reflexivity.
  - change ((path :: rest) ++ l2) with (path :: (rest ++ l2)).
    rewrite !process_all_cons.
    destruct (one_image cv dr sf tol path (dest i) w) as [[[]|e] w1]; [|reflexivity].
    rewrite IH. cbn [length]. rewrite Nat.add_succ_r. reflexivity.
Qed.

(** X8 — what a batch writes.  The status of a batch, the names and the
    contents of the files it hands to [cv2.imwrite] are the same for any
    two tolerances and any two dictionaries it starts from: the validity
    that [resize_type] computes is never acted upon, and nothing that an
    earlier call left in the shared [img_vars] reaches the output. *)
Theorem batch_ignores_tolerance_and_state cv dr sf dest i meme_list tol1 tol2 w1 w2 :
  (process_all cv dr sf tol1 dest i meme_list w1).1 =
  (process_all cv dr sf tol2 dest i meme_list w2).1 /\
  exists new,
    written (process_all cv dr sf tol1 dest i meme_list w1).2 = written w1 ++ new /\
    written (process_all cv dr sf tol2 dest i meme_list w2).2 = written w2 ++ new.
Proof.
  destruct (process_all_run cv dr sf dest meme_list i) as (r & new & Hrun & _).
  destruct (Hrun tol1 w1) as (w1' & -> & Hw1).
  destruct (Hrun tol2 w2) as (w2' & -> & Hw2).
  split; [reflexivity|]. exists new. split; assumption.
Qed.


(** * The pasted image *)

(** Inside the slice the pasted array holds the source. *)
Lemma np_setslice_inside canvas ya yb xa xb src out H W C :
  np_setslice canvas ya yb xa xb src = Ok out ->
  is_image canvas H W C -> is_image src (yb - ya) (xb - xa) C ->
  0 <= ya -> yb <= H -> 0 <= xa -> xb <= W ->
  forall y x, ya <= y < yb -> xa <= x < xb ->
    pixel out y x = pixel src (y - ya) (x - xa).
Proof.
  intros Hout Hc Hs Hya Hyb Hxa Hxb y x Hy Hx.
  pose proof (is_image_shape _ _ _ _ Hc ltac:(lia) ltac:(lia)) as Hsc.
  pose proof (is_image_shape _ _ _ _ Hs ltac:(lia) ltac:(lia)) as Hss.
  unfold np_setslice in Hout. rewrite Hsc, Hss in Hout.
  rewrite !slice_bound_in in Hout by lia.
  destruct (broadcasts _ _ && broadcasts _ _ && broadcasts C C); [|discriminate].
  injection Hout as <-. destruct Hc as [Hl Hrows]. destruct Hs as [Hsl Hsrows].
  unfold pixel.
  rewrite (proj2 (Z.leb_le 0 y)), (proj2 (Z.leb_le 0 x)) by lia.
  rewrite (proj2 (Z.leb_le 0 (y - ya))), (proj2 (Z.leb_le 0 (x - xa))) by lia.
  cbn [andb].
  rewrite list_lookup_imap.
  assert (Hyl : (Z.to_nat y < length canvas)%nat) by lia.
  destruct (lookup_lt_is_Some_2 canvas _ Hyl) as [row Hrow]. rewrite Hrow.
  cbn [fmap option_fmap option_map mbind option_bind].
  pose proof (proj1 (Forall_lookup _ _) Hrows _ row Hrow) as [Hrl Hrp]. cbv beta in Hrl.
  rewrite list_lookup_imap.
  assert (Hxl : (Z.to_nat x < length row)%nat) by lia.
  destruct (lookup_lt_is_Some_2 row _ Hxl) as [px Hpx]. rewrite Hpx.
  cbn [fmap option_fmap option_map]. rewrite !Z2Nat.id by lia.
  rewrite (proj2 (Z.leb_le ya y)), (proj2 (Z.ltb_lt y yb)) by lia.
  rewrite (proj2 (Z.leb_le xa x)), (proj2 (Z.ltb_lt x xb)) by lia.
  cbn [andb].
  assert (Hii : bcast_index (yb - ya) (Z.to_nat (y - ya)) = Z.to_nat (y - ya)).
  { unfold bcast_index. destruct (Z.eqb_spec (yb - ya) 1) as [E|]; [|reflexivity].
    replace (y - ya) with 0 by lia. reflexivity. }
  assert (Hjj : bcast_index (xb - xa) (Z.to_nat (x - xa)) = Z.to_nat (x - xa)).
  { unfold bcast_index. destruct (Z.eqb_spec (xb - xa) 1) as [E|]; [|reflexivity].
    replace (x - xa) with 0 by lia. reflexivity. }
  rewrite Hii, Hjj.
  assert (Hsy : (Z.to_nat (y - ya) < length src)%nat) by lia.
  destruct (lookup_lt_is_Some_2 src _ Hsy) as [srow Hsrow].
  rewrite (nth_lookup_Some _ _ _ _ Hsrow), Hsrow. cbn [mbind option_bind].
  pose proof (proj1 (Forall_lookup _ _) Hsrows _ srow Hsrow) as [Hsrl Hsrp]. cbv beta in Hsrl.
  assert (Hsx : (Z.to_nat (x - xa) < length srow)%nat) by lia.
  destruct (lookup_lt_is_Some_2 srow _ Hsx) as [spx Hspx].
  rewrite (nth_lookup_Some _ _ _ _ Hspx), Hspx. f_equal.
  pose proof (proj1 (Forall_lookup _ _) Hsrp _ spx Hspx) as Hspl. cbv beta in Hspl.
  unfold bcast_pixel. destruct (Z.eqb_spec (Z.of_nat (length spx)) 1) as [E|]; [|reflexivity].
  destruct spx as [|v [|v' spx]]; cbn [length] in E; try lia.
  rewrite <- Hspl. reflexivity.
Qed.

Section OneImage.

Variables (cv : opencv) (file_path : string) (img : ndarray) (h w c : Z).
Variables (H W : Z) (sf : Py.float) (tol : pynum).
Hypothesis Hread : cv2_imread cv file_path = Some img.
Hypothesis Hshape : shape img = (h, w, c).
Hypothesis HH : dim_ok H.
Hypothesis HW : dim_ok W.

(** One turn of the loop on a well-formed image whose destination has
    positive sides and is resampled to that size. *)
Lemma one_image_ok file w0 ph pw resized :
  fit_plan (h, w) (H, W) sf tol = Ok (plan_for w tol ph pw) ->
  0 < ph <= H -> 0 < pw <= W ->
  cv2_resize cv img (pw, ph) = Ok resized ->
  is_image resized ph pw 3 ->
  let r := {| x1 := Z.quot (W - pw) 2; x2 := Z.quot (W - pw) 2 + pw;
              y1 := Z.quot (H - ph) 2; y2 := Z.quot (H - ph) 2 + ph |} in
  exists w1 out,
    one_image cv (H, W) sf tol file_path file w0 = (Ok tt, w1) /\
    written w1 = written w0 ++ [(file, out)] /\
    pip_of (H, W) (ph, pw) = Ok r /\
    np_setslice (np_full H W 3 128) (y1 r) (y2 r) (x1 r) (x2 r) resized = Ok out /\
    (0 <= y1 r /\ y2 r <= H /\ y2 r - y1 r = ph) /\
    (0 <= x1 r /\ x2 r <= W /\ x2 r - x1 r = pw).
Proof.
  intros Hplan Hph Hpw Hres Himg r.
  pose proof (resize_type_run cv file_path (H, W) sf tol w0) as Hrun.
  rewrite Hread, (shape2_image img h w c Hshape) in Hrun.
  cbn [mbind pyres_mbind pyres_bind] in Hrun. rewrite Hplan in Hrun.
  destruct Hrun as (w' & Hrt & Hwr & Hobj & Hdr & Hpr & _).
  cbn [val_of_imread plan_for destinationDimensions fst snd] in *.
  assert (HpH : px_ok H) by (unfold dim_ok, px_ok in *; lia).
  assert (HpW : px_ok W) by (unfold dim_ok, px_ok in *; lia).
  assert (Hpph : px_ok ph) by (unfold dim_ok, px_ok in *; lia).
  assert (Hppw : px_ok pw) by (unfold dim_ok, px_ok in *; lia).
  pose proof (add_pip_vars_run w' H W ph pw Hdr Hpr) as Hadd.
  pose proof (pip_of_ok H W ph pw HpH HpW Hpph Hppw) as Hpip. fold r in Hpip.
  rewrite Hpip in Hadd.
  unfold px_ok, dim_ok in *.
  assert (Hy1 : 0 <= y1 r /\ y2 r <= H /\ y2 r - y1 r = ph).
  { cbn [r y1 y2]. rewrite Z.quot_div_nonneg by lia.
    pose proof (Z.div_mod (H - ph) 2 ltac:(lia)).
    pose proof (Z.mod_pos_bound (H - ph) 2 ltac:(lia)). lia. }
  assert (Hx1 : 0 <= x1 r /\ x2 r <= W /\ x2 r - x1 r = pw).
  { cbn [r x1 x2]. rewrite Z.quot_div_nonneg by lia.
    pose proof (Z.div_mod (W - pw) 2 ltac:(lia)).
    pose proof (Z.mod_pos_bound (W - pw) 2 ltac:(lia)). lia. }
  assert (Hcan : is_image (np_full H W 3 128) H W 3) by (apply is_image_np_full; lia).
  assert (Hsrc : is_image resized (y2 r - y1 r) (x2 r - x1 r) 3).
  { destruct Hy1 as (_ & _ & ->). destruct Hx1 as (_ & _ & ->). exact Himg. }
  destruct (np_setslice_succeeds (np_full H W 3 128) (y1 r) (y2 r) (x1 r) (x2 r) resized
              H W 3 Hcan Hsrc) as [out Hout]; try lia.
  set (w'' := {| img_vars := <["pip_coords" := VPip r]>
                               (<["canvas" := VArr (np_full H W 3 128)]> (img_vars w'));
                 written := written w' |}) in *.
  assert (Hproc : process_image cv file w'' =
                  (Ok tt, {| img_vars := <["canvas" := VArr out]> (img_vars w'');
                             written := written w'' ++ [(file, out)] |})).
  { apply (process_image_run cv file w'' img ph pw (np_full H W 3 128) r resized out);
      cbn [w'' img_vars]; try assumption.
    - rewrite !lookup_insert_ne by discriminate. exact Hobj.
    - rewrite !lookup_insert_ne by discriminate. exact Hpr.
    - rewrite lookup_insert_ne by discriminate. apply lookup_insert_eq.
    - apply lookup_insert_eq. }
  eexists _, out. split.
  { unfold one_image, mbind, run_bind. rewrite Hrt, Hadd. fold w''. rewrite Hproc. reflexivity. }
  cbn [written w'']. rewrite Hwr.
  split; [reflexivity|]. split; [exact Hpip|]. split; [exact Hout|]. split; assumption.
Qed.

End OneImage.

(** X10 — the pasted region.  For an image that is processed, every
    pixel of the written canvas inside the offset rectangle is the pixel
    of the resized image at the same place counted from the rectangle's
    top left corner: the resized image is pasted whole, unscaled and
    unshifted. *)
Theorem canvas_holds_resized_image cv file_path img h w c H W sf tol file_dest w0 p resized :
  cv2_imread cv file_path = Some img -> shape img = (h, w, c) ->
  dim_ok h -> dim_ok w -> dim_ok H -> dim_ok W -> factor_ok sf ->
  planFit cv file_path (H, W) sf tol w0 = Ok p ->
  0 < (destinationDimensions p).1 -> 0 < (destinationDimensions p).2 ->
  cv2_resize cv img ((destinationDimensions p).2, (destinationDimensions p).1) = Ok resized ->
  is_image resized (destinationDimensions p).1 (destinationDimensions p).2 3 ->
  exists w1 r out,
    one_image cv (H, W) sf tol file_path file_dest w0 = (Ok tt, w1) /\
    composeOffsets (H, W) (destinationDimensions p) w0 = Ok r /\
    written w1 = written w0 ++ [(file_dest, out)] /\
    (forall y x, y1 r <= y < y2 r -> x1 r <= x < x2 r ->
       pixel out y x = pixel resized (y - y1 r) (x - x1 r)).
Proof.
  intros Hread Hshape Hh Hw HH HW Hsf Hplan Hph0 Hpw0 Hres Himg.
  destruct (fit_plan_ok h w H W sf tol Hh Hw HH HW Hsf)
    as (pw0 & ph1 & ph & pw & _ & _ & Hfit & _ & Hph & Hpw & _).
  rewrite planFit_pure, Hread, (shape2_image img h w c Hshape) in Hplan.
  cbn [mbind pyres_mbind pyres_bind] in Hplan. rewrite Hfit in Hplan. injection Hplan as <-.
  cbn [plan_for destinationDimensions fst snd] in *.
  destruct (one_image_ok cv file_path img h w c H W sf tol Hread Hshape HH HW file_dest w0
              ph pw resized Hfit ltac:(lia) ltac:(lia) Hres Himg)
    as (w1 & out & Hrun & Hwr & Hpip & Hout & Hy & Hx).
  set (r := {| x1 := Z.quot (W - pw) 2; x2 := Z.quot (W - pw) 2 + pw;
               y1 := Z.quot (H - ph) 2; y2 := Z.quot (H - ph) 2 + ph |}) in *.
  exists w1, r, out. split; [exact Hrun|].
  split; [rewrite composeOffsets_pure; exact Hpip|]. split; [exact Hwr|].
  intros y x Hyr Hxr.
  assert (Hcan : is_image (np_full H W 3 128) H W 3).
  { apply is_image_np_full; unfold dim_ok in *; lia. }
  assert (Hsrc : is_image resized (y2 r - y1 r) (x2 r - x1 r) 3).
  { destruct Hy as (_ & _ & ->). destruct Hx as (_ & _ & ->). exact Himg. }
  apply (np_setslice_inside _ _ _ _ _ _ _ H W 3 Hout Hcan Hsrc); lia.
Qed.

Lemma canvas_holds_resized_image_witness :
  exists w1 r out,
    one_image (solid_cv 2 2) (8, 6) screen_factor scale_tolerance "meme.jpg" "out_0.jpg"
      empty_world = (Ok tt, w1) /\
    composeOffsets (8, 6) (4, 4) empty_world = Ok r /\
    written w1 = written empty_world ++ [("out_0.jpg", out)] /\
    (forall y x, y1 r <= y < y2 r -> x1 r <= x < x2 r ->
       pixel out y x = pixel (np_full 4 4 3 200) (y - y1 r) (x - x1 r)).
Proof.
  assert (H2 : dim_ok 2) by (unfold dim_ok; lia).
  assert (H8 : dim_ok 8) by (unfold dim_ok; lia).
  assert (H6 : dim_ok 6) by (unfold dim_ok; lia).
  apply (canvas_holds_resized_image (solid_cv 2 2) "meme.jpg" (solid_image 2 2) 2 2 3 8 6
           screen_factor scale_tolerance "out_0.jpg" empty_world
           (plan_for 2 scale_tolerance 4 4) (np_full 4 4 3 200));
    [reflexivity|reflexivity|exact H2|exact H2|exact H8|exact H6|exact screen_factor_ok
    |vm_compute; reflexivity|cbn; lia|cbn; lia|reflexivity
    |apply (is_image_np_full 4 4 3 200); lia].
Defined.



(** X12 — the tolerance in pixels.  With an integer tolerance [t], a plan
    is a valid Scale exactly when the destination is wider than the source
    and narrower than [t + 1] times the source, and an invalid Scale
    exactly when it is at least [t + 1] times as wide; the resize factor
    is at least 1 for Scale and 0 or 1 for Shrink, 1 only when the widths
    are equal. *)
Theorem validity_by_width cv file_path img h w c H W sf (t : Z) w0 :
  cv2_imread cv file_path = Some img -> shape img = (h, w, c) ->
  dim_ok h -> dim_ok w -> dim_ok H -> dim_ok W -> factor_ok sf ->
  exists p,
    planFit cv file_path (H, W) sf (NInt t) w0 = Ok p /\
    (isValid p = Some true <->
       w < (destinationDimensions p).2 < (t + 1) * w) /\
    (isValid p = Some false <->
       w < (destinationDimensions p).2 /\ (t + 1) * w <= (destinationDimensions p).2) /\
    (direction p = Scale -> 1 <= resizeFactor p) /\
    (direction p = Shrink ->
       0 <= resizeFactor p <= 1 /\
       (resizeFactor p = 1 <-> (destinationDimensions p).2 = w)).
Proof.
  intros Hread Hshape Hh Hw HH HW Hsf.
  destruct (planFit_ok cv file_path img h w c H W sf (NInt t) Hread Hshape Hh Hw HH HW Hsf w0)
    as (pw0 & ph1 & ph & pw & _ & _ & Hp & _ & _ & Hpw & _).
  exists (plan_for w (NInt t) ph pw). split; [exact Hp|].
  cbn [plan_for destinationDimensions direction isValid resizeFactor num_le fst snd].
  assert (Hwpos : 0 < w) by (unfold dim_ok in Hw; lia).
  pose proof (Z.div_mod pw w ltac:(lia)) as Hdm.
  pose proof (Z.mod_pos_bound pw w Hwpos) as Hmod.
  assert (Hq0 : 0 <= pw / w) by (apply Z.div_pos; lia).
  assert (Hle : pw / w <= t <-> pw < (t + 1) * w) by (split; intros; nia).
  destruct (Z.leb_spec pw w) as [Hs|Hs].
  - split; [split; [discriminate|lia]|]. split; [split; [discriminate|lia]|].
    split; [discriminate|]. intros _.
    assert (pw / w <= 1) by (apply Z.div_le_upper_bound; lia).
    split; [lia|]. split; intros; nia.
  - split; [|split; [|split]].
    + destruct (Z.leb_spec (pw / w) t); split; intros; try discriminate; try reflexivity; lia.
    + destruct (Z.leb_spec (pw / w) t); split; intros; try discriminate; try reflexivity; lia.
    + intros _. apply Z.div_le_lower_bound; lia.
    + discriminate.
Qed.

Lemma validity_by_width_witness :
  exists p,
    planFit (solid_cv 100 100) "meme.jpg" (1920, 1080) screen_factor (NInt 2) empty_world
      = Ok p /\
    (isValid p = Some true <-> 100 < (destinationDimensions p).2 < (2 + 1) * 100) /\
    (isValid p = Some false <->
       100 < (destinationDimensions p).2 /\ (2 + 1) * 100 <= (destinationDimensions p).2) /\
    (direction p = Scale -> 1 <= resizeFactor p) /\
    (direction p = Shrink ->
       0 <= resizeFactor p <= 1 /\
       (resizeFactor p = 1 <-> (destinationDimensions p).2 = 100)).
Proof.
  apply (validity_by_width (solid_cv 100 100) "meme.jpg" (solid_image 100 100) 100 100 3
           1920 1080 screen_factor 2 empty_world);
    [reflexivity|reflexivity|unfold dim_ok; lia|unfold dim_ok; lia
    |exact dim_ok_1920|exact dim_ok_1080|exact screen_factor_ok].
Defined.

(** * The shape of the destination *)

(** Error bounds for [int(float(C) / ar)], [ar] the rounded quotient of
    [Wd] by [Hh], when the result [P] is below [2^31]. *)
Lemma quotient_bounds (P Wd Hh C A a fl v0 : R) :
  let u := (/ 9007199254740992)%R in
  (a * Hh = Wd)%R -> (1 <= Wd)%R -> (1 <= Hh)%R -> (0 <= C)%R -> (0 < A)%R ->
  (a * (1 - u) <= A <= a * (1 + u))%R -> (v0 * A = C)%R ->
  (v0 * (1 - u) <= fl <= v0 * (1 + u))%R ->
  (P <= fl < P + 1)%R -> (0 <= P <= 2147483648)%R ->
  (P * Wd < C * Hh + Wd /\ C * Hh < P * Wd + 2 * Wd)%R.
Proof.
  intros u Ha HWd HHh HC HA [HA1 HA2] Hv0 [Hf1 Hf2] [HP1 HP2] [HP0 HPhi].
  assert (Hu : (0 < u <= / 9007199254740992)%R) by (unfold u; lra).
  clearbody u.
  assert (Ha0 : (0 < a)%R) by nra.
  assert (Hv00 : (0 <= v0)%R) by nra.
  split.
  - assert (S1 : (P * A <= C * (1 + u))%R) by nra.
    assert (S2 : (P * (a * (1 - u)) <= P * A)%R) by nra.
    assert (S3 : (P * Wd * (1 - u) <= C * Hh * (1 + u))%R).
    { rewrite <- Ha. nra. }
    destruct (Rle_lt_dec (P * Wd) (C * Hh)) as [Hc|Hc]; [lra|].
    assert (S4 : (P * Wd - C * Hh <= u * (C * Hh + P * Wd))%R) by lra.
    assert (S5 : (u * (C * Hh + P * Wd) <= u * (2 * (P * Wd)))%R) by nra.
    assert (S6 : (P * Wd <= 2147483648 * Wd)%R) by nra.
    assert (S7 : (u * (2 * (P * Wd)) <= / 9007199254740992 * (2 * (2147483648 * Wd)))%R).
    { apply Rmult_le_compat; nra. }
    lra.
  - set (Q := ((P + 1) * Wd)%R).
    assert (S1 : (C * (1 - u) < (P + 1) * A)%R) by nra.
    assert (S2 : ((P + 1) * A <= (P + 1) * (a * (1 + u)))%R) by nra.
    assert (S3 : (C * Hh * (1 - u) < Q * (1 + u))%R).
    { unfold Q. rewrite <- Ha. nra. }
    destruct (Rle_lt_dec (C * Hh) Q) as [Hc|Hc]; [unfold Q in Hc; lra|].
    assert (HQ : (0 < Q <= 2147483649 * Wd)%R) by (unfold Q; nra).
    assert (S4 : (C * Hh < 2 * Q)%R) by nra.
    assert (S5 : (C * Hh - Q < u * (3 * Q))%R) by nra.
    assert (S6 : (u * (3 * Q) <= / 9007199254740992 * (3 * (2147483649 * Wd)))%R).
    { apply Rmult_le_compat; nra. }
    unfold Q in *. lra.
Qed.

(** Error bounds for [int(float(C) * ar)], when the result [P] is below
    [2^31]. *)
Lemma product_bounds (P Wd Hh C A a fl : R) :
  let u := (/ 9007199254740992)%R in
  (a * Hh = Wd)%R -> (1 <= Wd)%R -> (1 <= Hh)%R -> (0 <= C)%R ->
  (a * (1 - u) <= A <= a * (1 + u))%R ->
  (C * A * (1 - u) <= fl <= C * A * (1 + u))%R ->
  (P <= fl < P + 1)%R -> (0 <= P <= 2147483648)%R ->
  (P * Hh < C * Wd + Hh /\ C * Wd < P * Hh + 2 * Hh)%R.
Proof.
  intros u Ha HWd HHh HC [HA1 HA2] [Hf1 Hf2] [HP1 HP2] [HP0 HPhi].
  assert (Hu : (0 < u <= / 9007199254740992)%R) by (unfold u; lra).
  clearbody u.
  assert (Ha0 : (0 < a)%R) by nra.
  assert (HCa : (0 <= C * a)%R) by nra.
  assert (HCW : (C * a * Hh = C * Wd)%R) by (rewrite <- Ha; ring).
  split.
  - assert (S1 : (C * A <= C * a * (1 + u))%R) by nra.
    assert (S2 : (P <= C * a * ((1 + u) * (1 + u)))%R) by nra.
    assert (S3 : (P * Hh <= C * Wd * ((1 + u) * (1 + u)))%R).
    { rewrite <- HCW. nra. }
    destruct (Rle_lt_dec (P * Hh) (C * Wd)) as [Hc|Hc]; [lra|].
    assert (S4 : (P * Hh <= 2147483648 * Hh)%R) by nra.
    assert (S5 : ((1 + u) * (1 + u) - 1 <= 3 * u)%R) by nra.
    assert (S6 : (C * Wd * ((1 + u) * (1 + u) - 1) <= 2147483648 * Hh * (3 * u))%R).
    { apply Rmult_le_compat; nra. }
    assert (S7 : (2147483648 * Hh * (3 * u) <= 2147483648 * Hh * (3 * / 9007199254740992))%R)
      by nra.
    lra.
  - set (Q := ((P + 1) * Hh)%R).
    assert (S1 : (C * a * (1 - u) <= C * A)%R) by nra.
    assert (S2 : (C * a * ((1 - u) * (1 - u)) < P + 1)%R) by nra.
    assert (S3 : (C * Wd * ((1 - u) * (1 - u)) < Q)%R).
    { unfold Q. rewrite <- HCW. nra. }
    destruct (Rle_lt_dec (C * Wd) Q) as [Hc|Hc]; [unfold Q in Hc; lra|].
    assert (HQ : (0 < Q <= 2147483649 * Hh)%R) by (unfold Q; nra).
    assert (S4 : (1 - 2 * u <= (1 - u) * (1 - u))%R) by nra.
    assert (S5 : (C * Wd * (1 - 2 * u) < Q)%R) by nra.
    assert (S6 : (C * Wd < 2 * Q)%R) by nra.
    assert (S7 : (C * Wd - Q < u * (4 * Q))%R) by nra.
    assert (S8 : (u * (4 * Q) <= / 9007199254740992 * (4 * (2147483649 * Hh)))%R).
    { apply Rmult_le_compat; nra. }
    unfold Q in *. lra.
Qed.

(** The fallback is taken only when the exact candidate height does not
    fit the frame. *)
Lemma fallback_needed (F Wd Hh C A a fl v0 : R) :
  let u := (/ 9007199254740992)%R in
  (a * Hh = Wd)%R -> (1 <= Wd)%R -> (1 <= Hh)%R -> (0 < A)%R ->
  (a * (1 - u) <= A)%R -> (v0 * A = C)%R -> (fl <= v0 * (1 + u))%R ->
  (F + 1 <= fl)%R -> (0 <= F <= 2147483648)%R ->
  (F * Wd < C * Hh)%R.
Proof.
  intros u Ha HWd HHh HA HA1 Hv0 Hf HF [HF0 HFhi].
  assert (Hu : (0 < u <= / 9007199254740992)%R) by (unfold u; lra).
  clearbody u.
  assert (Ha0 : (0 < a)%R) by nra.
  assert (Hv00 : (0 < v0)%R) by nra.
  assert (S1 : ((F + 1) * (a * (1 - u)) <= v0 * (1 + u) * A)%R).
  { apply Rmult_le_compat; nra. }
  assert (S2 : ((F + 1) * Wd * (1 - u) <= (1 + u) * (C * Hh))%R).
  { rewrite <- Ha, <- Hv0. nra. }
  destruct (Rlt_le_dec (F * Wd) (C * Hh)) as [Hc|Hc]; [exact Hc|exfalso].
  assert (S3 : ((1 + u) * (C * Hh) <= (1 + u) * (F * Wd))%R) by nra.
  assert (S4 : (Wd * (1 - u) <= 2 * u * (F * Wd))%R) by nra.
  assert (S5 : (F * Wd <= 2147483648 * Wd)%R) by nra.
  assert (S6 : (2 * u * (F * Wd) <= 2 * / 9007199254740992 * (2147483648 * Wd))%R).
  { apply Rmult_le_compat; nra. }
  nra.
Qed.

Section FitShape.

Variables (h w H W : Z) (sf : Py.float) (tol : pynum).
Hypothesis Hh : dim_ok h.
Hypothesis Hw : dim_ok w.
Hypothesis HH : dim_ok H.
Hypothesis HW : dim_ok W.
Hypothesis Hsf : factor_ok sf.

(** Which candidate [resize_type] takes, and how far the destination is
    from the source's aspect ratio. *)
Lemma fit_plan_shape :
  exists cw ch ph pw : Z,
    scaled_frame sf W = Ok cw /\ scaled_frame sf H = Ok ch /\
    fit_plan (h, w) (H, W) sf tol = Ok (plan_for w tol ph pw) /\
    ((pw = cw /\ ph <= H /\ cw * h - 2 * w < ph * w < cw * h + w) \/
     (ph = ch /\ pw <= cw /\ H * w < cw * h /\
      ch * w - 2 * h < pw * h < ch * w + h)).
Proof.
  destruct (aspect_ratio h w Hh Hw)
    as (fw & fh & ar & Hfw & Hfh & Har & Hwn & Hwm & Harn & Harr & HA32 & HA1 & HA2).
  destruct (scaled_dim sf W Hsf HW) as (fdw & pw0 & Hfdw & Hpw0 & Hpw0' & Hpw0r).
  destruct (scaled_dim sf H Hsf HH) as (fdh & ph1 & Hfdh & Hph1 & Hph1' & Hph1r).
  pose proof (dim_ok_IZR h Hh) as [Hh1 Hh2]. pose proof (dim_ok_IZR w Hw) as [Hw1 Hw2].
  pose proof (dim_ok_IZR H HH) as [HH1 HH2]. pose proof (dim_ok_IZR W HW) as [HW1 HW2].
  assert (HWlt : W < 2 ^ 31) by (unfold dim_ok in HW; lia).
  assert (HHlt : H < 2 ^ 31) by (unfold dim_ok in HH; lia).
  set (a := (IZR w / IZR h)%R) in *. set (A := Fmag ar) in *.
  assert (Ha : (a * IZR h = IZR w)%R) by (unfold a; field; lra).
  pose proof (pow2_pos (-32)) as H32.
  assert (HApos : (0 < A)%R) by lra.
  assert (Ha31 : (a < pow2 31)%R).
  { apply Rmult_lt_reg_r with (IZR h); [lra|]. rewrite Ha. pose proof (pow2_pos 31). nra. }
  assert (Hu : (pow2 (-53) <= 1)%R).
  { change 1%R with (pow2 0). apply pow2_le. lia. }
  assert (HA32' : (A <= pow2 32)%R).
  { change 32 with (31 + 1). rewrite pow2_succ. pose proof (pow2_pos 31). nra. }
  destruct (quotient_int pw0 ar ltac:(lia) Harn HA32)
    as (fpw & ph0 & Hfpw & Hq0 & Hph0 & Hph0' & Hph0p & Hq0r & Hph0r & Hv0hi).
  destruct (product_int ph1 ar ltac:(lia) Harn HA32')
    as (fph & pw1 & Hfph & Hpw1 & Hpw1' & Hpw1p & Hp1r & Hpw1r).
  fold A in Hq0r, Hp1r, Hv0hi.
  set (v0 := (IZR pw0 / A)%R) in *. set (v1 := (IZR ph1 * A)%R) in *.
  assert (Hv0 : (v0 * A = IZR pw0)%R) by (unfold v0; field; lra).
  pose proof pow2_31_53 as H3153.
  assert (Hpw0R : (0 <= IZR pw0 <= IZR W)%R) by (split; apply IZR_le; lia).
  assert (Hph1R : (0 <= IZR ph1 <= IZR H)%R) by (split; apply IZR_le; lia).
  assert (H2_31 : (2147483648 = pow2 31)%R) by (rewrite pow2_31; reflexivity).
  (* the quotient [v0] and its rounding *)
  assert (Hlo0 : (v0 = 0 \/ pow2 (-1022) <= v0)%R).
  { destruct (Z.eq_dec pw0 0) as [->|Hne].
    - left. unfold v0, Rdiv. ring.
    - right. pose proof pow2_m1022_le. apply Rle_trans with (pow2 (-32)); [assumption|].
      assert (1 <= IZR pw0)%R by (apply IZR_le; lia).
      apply Rmult_le_reg_r with A; [lra|]. rewrite Hv0.
      apply Rle_trans with (pow2 (-32) * pow2 32)%R; [apply Rmult_le_compat_l; lra|].
      rewrite <- pow2_add. change (-32 + 32) with 0. rewrite pow2_0. lra. }
  pose proof (frounds_rel_err v0 _ Hq0r Hlo0 Hv0hi) as Herr0.
  apply Rabs_bounds in Herr0. rewrite pow2_m53 in Herr0, HA1, HA2.
  exists pw0, ph1.
  assert (Hs0 : scaled_frame sf W = Ok pw0).
  { unfold scaled_frame. ok_step Hfdw. exact Hpw0. }
  assert (Hs1 : scaled_frame sf H = Ok ph1).
  { unfold scaled_frame. ok_step Hfdh. exact Hph1. }
  destruct (Z.leb_spec ph0 H) as [Hle|Hgt].
  - (* width first *)
    exists ph0, pw0.
    destruct (factor_exact pw0 w fw ltac:(lia) Hw Hfw) as (fa & Hfa & Hdiv & Hfac).
    split; [exact Hs0|]. split; [exact Hs1|]. split.
    + unfold fit_plan, Py.mul. cbn [fst snd].
      ok_step Hfw. ok_step Hfh. ok_step Har. ok_step Hfdw. ok_step Hpw0.
      ok_step Hfpw. ok_step Hq0. ok_step Hph0.
      destruct (Z.leb_spec ph0 H) as [_|Hc]; [|lia]. cbn [mbind pyres_mbind pyres_bind fst snd].
      ok_step Hfa. ok_step Hdiv. ok_step Hfac.
      unfold plan_for. destruct (pw0 <=? w); reflexivity.
    + left. split; [reflexivity|]. split; [exact Hle|].
      assert (HP : (0 <= IZR ph0 <= 2147483648)%R).
      { split; [apply IZR_le; lia|]. rewrite H2_31, pow2_IZR by lia. apply IZR_le. lia. }
      destruct (quotient_bounds (IZR ph0) (IZR w) (IZR h) (IZR pw0) A a
                  (Fmag (Py.fdiv fpw ar)) v0 Ha Hw1 Hh1 ltac:(lra) HApos
                  ltac:(split; lra) Hv0 ltac:(split; lra) Hph0r HP) as [B1 B2].
      assert (B1' : (IZR (ph0 * w) < IZR (pw0 * h + w))%R)
        by (rewrite plus_IZR, !mult_IZR; lra).
      assert (B2' : (IZR (pw0 * h) < IZR (ph0 * w + 2 * w))%R)
        by (rewrite plus_IZR, !mult_IZR; lra).
      apply lt_IZR in B1', B2'. lia.
  - (* height first *)
    assert (Hv0H : (IZR H < v0)%R).
    { destruct (Rlt_le_dec (IZR H) v0) as [|Hc]; [assumption|exfalso].
      destruct (op_int_mono v0 _ ph0 Hq0r ltac:(lra) Hph0r H) as [_ Hle]. specialize (Hle Hc). lia. }
    assert (HHA : (IZR H * A < IZR pw0)%R) by (rewrite <- Hv0; nra).
    assert (Hv1lt : (v1 < IZR pw0)%R) by (unfold v1; nra).
    assert (Hpw1le : pw1 <= pw0).
    { destruct (op_int_mono v1 _ pw1 Hp1r ltac:(lra) Hpw1r pw0) as [_ Hle]. apply Hle. lra. }
    exists ph1, pw1.
    destruct (factor_exact pw1 w fw ltac:(lia) Hw Hfw) as (fa & Hfa & Hdiv & Hfac).
    split; [exact Hs0|]. split; [exact Hs1|]. split.
    + unfold fit_plan, Py.mul. cbn [fst snd].
      ok_step Hfw. ok_step Hfh. ok_step Har. ok_step Hfdw. ok_step Hpw0.
      ok_step Hfpw. ok_step Hq0. ok_step Hph0.
      destruct (Z.leb_spec ph0 H) as [Hc|_]; [lia|].
      ok_step Hfdh. ok_step Hph1. ok_step Hfph. ok_step Hpw1. cbn [fst snd].
      ok_step Hfa. ok_step Hdiv. ok_step Hfac.
      unfold plan_for. destruct (pw1 <=? w); reflexivity.
    + right. split; [reflexivity|]. split; [exact Hpw1le|]. split.
      * assert (HF : (IZR H + 1 <= Fmag (Py.fdiv fpw ar))%R).
        { apply Rle_trans with (IZR ph0); [|lra].
          rewrite <- (plus_IZR H 1). apply IZR_le. lia. }
        assert (HHR : (0 <= IZR H <= 2147483648)%R) by lra.
        pose proof (fallback_needed (IZR H) (IZR w) (IZR h) (IZR pw0) A a
                      (Fmag (Py.fdiv fpw ar)) v0 Ha Hw1 Hh1 HApos ltac:(lra) Hv0
                      ltac:(lra) HF HHR) as B.
        rewrite <- !mult_IZR in B. apply lt_IZR in B. lia.
      * assert (Hlo1 : (v1 = 0 \/ pow2 (-1022) <= v1)%R).
        { destruct (Z.eq_dec ph1 0) as [->|Hne].
          - left. unfold v1. ring.
          - right. pose proof pow2_m1022_le. apply Rle_trans with (pow2 (-32)); [assumption|].
            assert (1 <= IZR ph1)%R by (apply IZR_le; lia).
            unfold v1. nra. }
        pose proof pow2_53_1023 as H1023.
        pose proof (frounds_rel_err v1 _ Hp1r Hlo1 ltac:(lra)) as Herr1.
        apply Rabs_bounds in Herr1. rewrite pow2_m53 in Herr1.
        assert (HP : (0 <= IZR pw1 <= 2147483648)%R).
        { split; [apply IZR_le; lia|]. rewrite H2_31, pow2_IZR by lia. apply IZR_le. lia. }
        destruct (product_bounds (IZR pw1) (IZR w) (IZR h) (IZR ph1) A a
                    (Fmag (Py.fmul fph ar)) Ha Hw1 Hh1 ltac:(lra)
                    ltac:(split; lra) ltac:(unfold v1 in Herr1; split; lra) Hpw1r HP)
          as [B1 B2].
        assert (B1' : (IZR (pw1 * h) < IZR (ph1 * w + h))%R)
          by (rewrite plus_IZR, !mult_IZR; lra).
        assert (B2' : (IZR (ph1 * w) < IZR (pw1 * h + 2 * h))%R)
          by (rewrite plus_IZR, !mult_IZR; lra).
        apply lt_IZR in B1', B2'. lia.
Qed.

End FitShape.

(** X13 — which candidate is taken.  The destination is never wider than
    the frame width scaled by the screen factor, [cw].  It has exactly
    that width whenever the exact candidate height [cw * h / w] fits the
    frame; otherwise — and only when that exact height exceeds the frame
    height — its height is the scaled frame height [ch].  (The height of
    a width-first destination is bounded by the frame, not by [ch].) *)
Theorem width_first_unless_too_tall cv file_path img h w c H W sf tol w0 :
  cv2_imread cv file_path = Some img -> shape img = (h, w, c) ->
  dim_ok h -> dim_ok w -> dim_ok H -> dim_ok W -> factor_ok sf ->
  exists p cw ch,
    planFit cv file_path (H, W) sf tol w0 = Ok p /\
    scaled_frame sf W = Ok cw /\ scaled_frame sf H = Ok ch /\
    (destinationDimensions p).2 <= cw /\
    (cw * h <= H * w -> (destinationDimensions p).2 = cw) /\
    ((destinationDimensions p).2 = cw /\ (destinationDimensions p).1 <= H \/
     (destinationDimensions p).1 = ch /\ H * w < cw * h).
Proof.
  intros Hread Hshape Hh Hw HH HW Hsf.
  destruct (fit_plan_shape h w H W sf tol Hh Hw HH HW Hsf)
    as (cw & ch & ph & pw & Hcw & Hch & Hfit & Hbr).
  exists (plan_for w tol ph pw), cw, ch.
  split.
  { rewrite planFit_pure, Hread, (shape2_image img h w c Hshape). exact Hfit. }
  split; [exact Hcw|]. split; [exact Hch|].
  cbn [plan_for destinationDimensions fst snd].
  destruct Hbr as [(-> & Hle & _)|(-> & Hle & Hover & _)].
  - split; [lia|]. split; [reflexivity|]. left. split; [reflexivity|exact Hle].
  - split; [exact Hle|]. split; [lia|]. right. split; [reflexivity|exact Hover].
Qed.

Lemma width_first_unless_too_tall_witness :
  exists p cw ch,
    planFit (solid_cv 11 9) "meme.jpg" (1920, 1080) screen_factor scale_tolerance empty_world
      = Ok p /\
    scaled_frame screen_factor 1080 = Ok cw /\ scaled_frame screen_factor 1920 = Ok ch /\
    (destinationDimensions p).2 <= cw /\
    (cw * 11 <= 1920 * 9 -> (destinationDimensions p).2 = cw) /\
    ((destinationDimensions p).2 = cw /\ (destinationDimensions p).1 <= 1920 \/
     (destinationDimensions p).1 = ch /\ 1920 * 9 < cw * 11).
Proof.
  apply (width_first_unless_too_tall (solid_cv 11 9) "meme.jpg" (solid_image 11 9) 11 9 3
           1920 1080 screen_factor scale_tolerance empty_world);
    [reflexivity|reflexivity|unfold dim_ok; lia|unfold dim_ok; lia
    |exact dim_ok_1920|exact dim_ok_1080|exact screen_factor_ok].
Defined.

(** A source of 1920 x 810 is taken width first and fills the whole frame
    height, beyond the scaled height 1440; one row more and the fallback
    shrinks it to 1440 x 607. *)
Example tall_image_fills_frame :
  fit_plan (1920, 810) ig_defined_res screen_factor scale_tolerance =
    Ok (plan_for 810 scale_tolerance 1920 810) /\
  fit_plan (1921, 810) ig_defined_res screen_factor scale_tolerance =
    Ok (plan_for 810 scale_tolerance 1440 607).
Proof. split; vm_compute; reflexivity. Qed.

(** X14 — the aspect ratio.  The destination keeps the source's aspect
    ratio up to the truncations and the float roundings: taken width
    first, its height lies strictly between [cw * h / w - 2] and
    [cw * h / w + 1]; taken height first, its width lies strictly
    between [ch * w / h - 2] and [ch * w / h + 1]. *)
Theorem aspect_ratio_kept cv file_path img h w c H W sf tol w0 :
  cv2_imread cv file_path = Some img -> shape img = (h, w, c) ->
  dim_ok h -> dim_ok w -> dim_ok H -> dim_ok W -> factor_ok sf ->
  exists p cw ch,
    planFit cv file_path (H, W) sf tol w0 = Ok p /\
    scaled_frame sf W = Ok cw /\ scaled_frame sf H = Ok ch /\
    ((destinationDimensions p).2 = cw /\
     cw * h - 2 * w < (destinationDimensions p).1 * w < cw * h + w \/
     (destinationDimensions p).1 = ch /\
     ch * w - 2 * h < (destinationDimensions p).2 * h < ch * w + h).
Proof.
  intros Hread Hshape Hh Hw HH HW Hsf.
  destruct (fit_plan_shape h w H W sf tol Hh Hw HH HW Hsf)
    as (cw & ch & ph & pw & Hcw & Hch & Hfit & Hbr).
  exists (plan_for w tol ph pw), cw, ch.
  split.
  { rewrite planFit_pure, Hread, (shape2_image img h w c Hshape). exact Hfit. }
  split; [exact Hcw|]. split; [exact Hch|].
  cbn [plan_for destinationDimensions fst snd].
  destruct Hbr as [(Hpw & _ & Hb)|(Hph & _ & _ & Hb)].
  - left. split; [exact Hpw|exact Hb].
  - right. split; [exact Hph|exact Hb].
Qed.

Lemma aspect_ratio_kept_witness :
  exists p cw ch,
    planFit (solid_cv 11 9) "meme.jpg" (1920, 1080) screen_factor scale_tolerance empty_world
      = Ok p /\
    scaled_frame screen_factor 1080 = Ok cw /\ scaled_frame screen_factor 1920 = Ok ch /\
    ((destinationDimensions p).2 = cw /\
     cw * 11 - 2 * 9 < (destinationDimensions p).1 * 9 < cw * 11 + 9 \/
     (destinationDimensions p).1 = ch /\
     ch * 9 - 2 * 11 < (destinationDimensions p).2 * 11 < ch * 9 + 11).
Proof.
  apply (aspect_ratio_kept (solid_cv 11 9) "meme.jpg" (solid_image 11 9) 11 9 3
           1920 1080 screen_factor scale_tolerance empty_world);
    [reflexivity|reflexivity|unfold dim_ok; lia|unfold dim_ok; lia
    |exact dim_ok_1920|exact dim_ok_1080|exact screen_factor_ok].
Defined.
